(** * ESL Visual Lesson Architect: retry governor, assembly line, refinement,
      export naming and media normalisation

    A shallow embedding of [src/services/geminiService.ts], [src/App.tsx]
    and [src/components/InputForm.tsx].

    Conventions of the embedding.
    - A JavaScript string is the list of its code units.  Code units are
      taken in the range 0..255 ([ascii]).  Every pattern the program
      searches for is plain ASCII, and within this range neither
      [toLowerCase] nor the [i] flag of a regular expression maps a code unit
      above 127 to one below 128.
    - An asynchronous operation is a state transformer over the state of the
      outside world (the model service); [await] is sequencing.
    - [setTimeout] sleeps are recorded in a trace, together with a ghost
      event for every invocation of a wrapped operation. *)

From Stdlib Require Import List Ascii String ZArith Lia Bool Arith PeanoNat.
From Stdlib Require Import Floats.
Import ListNotations.

Set Implicit Arguments.
Set Warnings "-inexact-float".

(* ================================================================== *)
(** ** JavaScript strings *)
(* ================================================================== *)

Module Js.

Definition jsstring := list ascii.

(** String literals of the source. *)
Definition str (s : string) : jsstring := list_ascii_of_string s.

(** The double quote, which string literals below never spell out. *)
Definition dquote : ascii := ascii_of_nat 34.

(** [p] is a prefix of [s]: [s.startsWith(p)]. *)
Fixpoint startsWith (p s : jsstring) : bool :=
  match p, s with
  | [], _ => true
  | _ :: _, [] => false
  | a :: p', b :: s' => Ascii.eqb a b && startsWith p' s'
  end.

(** [s.endsWith(p)]. *)
Definition endsWith (p s : jsstring) : bool :=
  startsWith (rev p) (rev s).

(** [s.includes(p)]. *)
Fixpoint includes (p s : jsstring) : bool :=
  if startsWith p s then true
  else match s with
       | [] => false
       | _ :: s' => includes p s'
       end.

(** First occurrence of [p] in [s]: the text before it and the text after
    it. *)
Fixpoint search (p s : jsstring) : option (jsstring * jsstring) :=
  if startsWith p s then Some ([], skipn (List.length p) s)
  else match s with
       | [] => None
       | c :: s' =>
           match search p s' with
           | Some (b, a) => Some (c :: b, a)
           | None => None
           end
       end.

(** ECMAScript [GetSubstitution] for a string pattern (no capture groups,
    no named groups): in the replacement template [$$] stands for a dollar,
    [$&] for the matched text, [$`] for the text before the match and [$']
    for the text after it; every other [$] is literal. *)
Fixpoint getSubstitution (matched before after templ : jsstring) : jsstring :=
  match templ with
  | [] => []
  | c :: t =>
      if Ascii.eqb c "$" then
        match t with
        | [] => [c]
        | d :: t' =>
            if Ascii.eqb d "$" then c :: getSubstitution matched before after t'
            else if Ascii.eqb d "&" then matched ++ getSubstitution matched before after t'
            else if Ascii.eqb d "`" then before ++ getSubstitution matched before after t'
            else if Ascii.eqb d "'" then after ++ getSubstitution matched before after t'
            else c :: getSubstitution matched before after t
        end
      else c :: getSubstitution matched before after t
  end.

(** [s.replace(p, r)] with a string pattern [p]: only the first occurrence is
    replaced, and [r] is a replacement template. *)
Definition replace (p r s : jsstring) : jsstring :=
  match search p s with
  | None => s
  | Some (b, a) => b ++ getSubstitution p b a r ++ a
  end.

(** [s.replace(/p/g, '')] for a regular expression [p] that is a non-empty
    literal: every match, found left to right without overlap, is deleted.
    [skip] counts the code units of the current match still to be dropped. *)
Fixpoint removeAllFrom (p : jsstring) (skip : nat) (s : jsstring) : jsstring :=
  match s with
  | [] => []
  | c :: s' =>
      match skip with
      | S k => removeAllFrom p k s'
      | O => if startsWith p s then removeAllFrom p (List.length p - 1) s'
             else c :: removeAllFrom p 0 s'
      end
  end.

Definition removeAll (p s : jsstring) : jsstring := removeAllFrom p 0 s.

(** [s.replace(/^p/, '')] for a literal [p]. *)
Definition removePrefix (p s : jsstring) : jsstring :=
  if startsWith p s then skipn (List.length p) s else s.

(** [s.replace(/p$/, '')] for a literal [p]. *)
Definition removeSuffix (p s : jsstring) : jsstring :=
  if endsWith p s then firstn (List.length s - List.length p) s else s.

(** [toLowerCase] on one code unit below 256: A-Z, and the upper-case
    letters of Latin-1 (0xC0-0xDE except the multiplication sign 0xD7). *)
Definition lowerChar (c : ascii) : ascii :=
  let n := nat_of_ascii c in
  if ((65 <=? n) && (n <=? 90))
     || ((192 <=? n) && (n <=? 222) && negb (n =? 215))
  then ascii_of_nat (n + 32) else c.

Definition toLowerCase (s : jsstring) : jsstring := map lowerChar s.

(** [a === b] on strings. *)
Fixpoint eqb (a b : jsstring) : bool :=
  match a, b with
  | [], [] => true
  | x :: a', y :: b' => Ascii.eqb x y && eqb a' b'
  | _, _ => false
  end.

(** A JavaScript string is truthy when it is not empty. *)
Definition truthy (s : jsstring) : bool :=
  match s with [] => false | _ => true end.

(** [occurs p s]: the text [p] appears somewhere in [s]. *)
Definition occurs (p s : jsstring) : Prop :=
  exists a b, s = a ++ p ++ b.

(** [s] does not begin with a character that [m] has after its first
    position: no occurrence of [m] can end inside the beginning of [s]. *)
Definition opensClearOf (m s : jsstring) : Prop :=
  forall h t, s = h :: t -> ~ In h (tl m).

(** [s] does not end with a character that [m] has before its last
    position: no occurrence of [m] can begin inside the end of [s]. *)
Definition closesClearOf (m s : jsstring) : Prop :=
  forall t h, s = t ++ [h] -> ~ In h (removelast m).

(** Boolean tests for the two conditions above and for the absence of a
    dollar sign. *)
Definition opensClearb (m s : jsstring) : bool :=
  match s with
  | [] => true
  | h :: _ => negb (existsb (Ascii.eqb h) (tl m))
  end.

Definition closesClearb (m s : jsstring) : bool :=
  match rev s with
  | [] => true
  | h :: _ => negb (existsb (Ascii.eqb h) (removelast m))
  end.

Definition dollarFree (s : jsstring) : bool :=
  negb (existsb (Ascii.eqb "$") s).

(** The characters that make a replacement pattern with a dollar sign
    before them. *)
Definition isPatternChar (d : ascii) : bool :=
  Ascii.eqb d "$" || Ascii.eqb d "&" || Ascii.eqb d "`" || Ascii.eqb d "'".

Definition startsPattern (t : jsstring) : bool :=
  match t with
  | [] => false
  | d :: _ => isPatternChar d
  end.

(** A replacement template without any of the four replacement patterns:
    no dollar sign in it is followed by a pattern character. *)
Fixpoint patternFree (templ : jsstring) : bool :=
  match templ with
  | [] => true
  | c :: t =>
      (if Ascii.eqb c "$" then negb (startsPattern t) else true) && patternFree t
  end.

End Js.

Import Js.

(* ================================================================== *)
(** ** services/geminiService.ts *)
(* ================================================================== *)

Module GeminiService.

(** *** Thrown values

    What [catch (error: any)] binds.  The program inspects two properties of
    it, [message] (a string when present) and [status] (a number when
    present); [Undefined] is the initial value of [lastError].  Thrown
    objects whose [message] is not a string are outside the model. *)
Record JsError := mkError {
  message : option jsstring;
  status : option Z
}.

Inductive Thrown :=
| Undefined
| Err (e : JsError).

(** Outcome of an awaited promise. *)
Inductive Completion (T : Type) :=
| Returned (v : T)
| Threw (x : Thrown).
Arguments Returned {T} v.
Arguments Threw {T} x.

(** *** Requests to the model service *)
Inductive Part :=
| TextPart (text : jsstring)
| InlineData (mimeType data : jsstring).

Record Content := mkContent {
  role : option jsstring;
  parts : list Part
}.

Record Request := mkRequest {
  model : jsstring;
  systemInstruction : jsstring;
  temperature : float;
  contents : list Content
}.

(** [callGemini] takes [string | any[]]. *)
Inductive UserContent :=
| UserText (s : jsstring)
| UserParts (ps : list Part).

Record Attachment := mkAttachment {
  att_mimeType : jsstring;
  att_data : jsstring
}.

(** The six progress messages, in the order of the source (their text is an
    emoji followed by a caption). *)
Inductive StatusMessage :=
| DesigningBlueprint
| MappingAssets
| ConstructingFramework
| CodingCards
| EmbeddingLogic
| FinalizingBuild.

(** *** Observable effects *)
Inductive Event :=
| Invoke                              (* ghost: a wrapped operation was called *)
| Warn (attempt : nat) (delay : Z)    (* console.warn of the retry loop *)
| Sleep (ms : Z)                      (* await new Promise(r => setTimeout(r, ms)) *)
| Status (s : StatusMessage)          (* onStatusUpdate(s) *)
| ConsoleError (x : Thrown).          (* console.error(..., x) *)

Definition MODEL_NAME : jsstring := str "gemini-3-flash-preview".

Definition newline : ascii := ascii_of_nat 10.

Definition CONTENT_PLACEHOLDER : jsstring := str "<!-- CONTENT_PLACEHOLDER -->".
Definition BODY_CLOSE : jsstring := str "</body>".
Definition FENCE : jsstring := str "```".
Definition FENCE_HTML : jsstring := str "```html".
Definition FENCE_JAVASCRIPT : jsstring := str "```javascript".

(** [error?.message?.toLowerCase()], or the empty string when that is
    undefined or empty. *)
Definition errorMessage (error : Thrown) : jsstring :=
  match error with
  | Err e => match message e with
             | Some m => toLowerCase m
             | None => []
             end
  | Undefined => []
  end.

(** [error?.status === 429] *)
Definition statusIs429 (error : Thrown) : bool :=
  match error with
  | Err e => match status e with
             | Some n => (n =? 429)%Z
             | None => false
             end
  | Undefined => false
  end.

Definition isRateLimit (error : Thrown) : bool :=
  includes (str "429") (errorMessage error)
  || includes (str "resource_exhausted") (errorMessage error)
  || statusIs429 error.

(** [Math.pow(2, i) * 5000] *)
Definition backoffDelay (i : nat) : Z := (2 ^ Z.of_nat i * 5000)%Z.

(** Total time slept in a trace. *)
Fixpoint totalSleep (tr : list Event) : Z :=
  match tr with
  | [] => 0
  | Sleep ms :: tr' => ms + totalSleep tr'
  | _ :: tr' => totalSleep tr'
  end.

(** Number of invocations of wrapped operations in a trace. *)
Fixpoint invocations (tr : list Event) : nat :=
  match tr with
  | [] => 0
  | Invoke :: tr' => S (invocations tr')
  | _ :: tr' => invocations tr'
  end.

(** The sleeps of a trace, in order. *)
Fixpoint sleeps (tr : list Event) : list Z :=
  match tr with
  | [] => []
  | Sleep ms :: tr' => ms :: sleeps tr'
  | _ :: tr' => sleeps tr'
  end.

(** The text handed to stages 4 and 5:
    [`BLUEPRINT:\n${blueprint}\n\nASSETS:\n${assets}`]. *)
Definition blueprintAndAssets (blueprint assets : jsstring) : jsstring :=
  str "BLUEPRINT:" ++ [newline] ++ blueprint ++ [newline; newline]
  ++ str "ASSETS:" ++ [newline] ++ assets.

(** The fallback container of the assembly step:
    [`<div class="container py-5"><div class="row">${cleanContent}</div></div></body>`]. *)
Definition FALLBACK_OPEN : jsstring :=
  str "<div class=" ++ [dquote] ++ str "container py-5" ++ [dquote]
  ++ str "><div class=" ++ [dquote] ++ str "row" ++ [dquote] ++ str ">".

Definition FALLBACK_CLOSE : jsstring := str "</div></div></body>".

Definition fallbackContainer (cleanContent : jsstring) : jsstring :=
  FALLBACK_OPEN ++ cleanContent ++ FALLBACK_CLOSE.

(** [shell.replace(/```html/g, '').replace(/```/g, '')] *)
Definition stripHtmlFences (s : jsstring) : jsstring :=
  removeAll FENCE (removeAll FENCE_HTML s).

(** [script.replace(/```javascript/g, '').replace(/```/g, '')] *)
Definition stripScriptFences (s : jsstring) : jsstring :=
  removeAll FENCE (removeAll FENCE_JAVASCRIPT s).

(** Splicing of the content into the cleaned shell (lines 202-206). *)
Definition insertContent (finalHtml cleanContent : jsstring) : jsstring :=
  if includes CONTENT_PLACEHOLDER finalHtml
  then replace CONTENT_PLACEHOLDER cleanContent finalHtml
  else replace BODY_CLOSE (fallbackContainer cleanContent) finalHtml.

(** Splicing of the script (line 207). *)
Definition insertScript (finalHtml cleanScript : jsstring) : jsstring :=
  replace BODY_CLOSE (cleanScript ++ BODY_CLOSE) finalHtml.

(** The assembly step of [generateLessonPlan] (lines 198-209). *)
Definition assemble (shell contentHtml script : jsstring) : jsstring :=
  let finalHtml := stripHtmlFences shell in
  let cleanContent := stripHtmlFences contentHtml in
  let cleanScript := stripScriptFences script in
  insertScript (insertContent finalHtml cleanContent) cleanScript.


(** [`HTML: ${currentHtml}\n\nREQUEST: ${userRequest}`] *)
Definition refinePrompt (currentHtml userRequest : jsstring) : jsstring :=
  str "HTML: " ++ currentHtml ++ [newline; newline] ++ str "REQUEST: " ++ userRequest.

Definition REFINE_INSTRUCTION : jsstring :=
  str "You are a Web Developer. Update the existing HTML. Preserve the JSON metadata script if present. Return FULL HTML.".

(** The request of [refineLessonPlan]. *)
Definition refineRequest (currentHtml userRequest : jsstring) : Request :=
  mkRequest MODEL_NAME REFINE_INSTRUCTION 0.5%float
    [mkContent (Some (str "user")) [TextPart (refinePrompt currentHtml userRequest)]].

(** [response.text?.replace(/^```html/, '').replace(/```$/, '') || currentHtml] *)
Definition refinedText (text : option jsstring) (currentHtml : jsstring) : jsstring :=
  match text with
  | Some t =>
      let cleaned := removeSuffix FENCE (removePrefix FENCE_HTML t) in
      if truthy cleaned then cleaned else currentHtml
  | None => currentHtml
  end.

(** The events of [k] rate-limited attempts, the first of them being attempt
    number [i]. *)
Fixpoint backoffTrace (i k : nat) : list Event :=
  match k with
  | O => []
  | S k' => [Invoke; Warn (i + 1) (backoffDelay i); Sleep (backoffDelay i)]
            ++ backoffTrace (S i) k'
  end.

Section Service.

(** The state of the outside world and the model service
    [ai.models.generateContent]: it answers with a response whose [text] may
    be absent, or it throws. *)
Variable W : Type.
Variable generateContent : Request -> W -> Completion (option jsstring) * W.

(** The five system prompts (long constant texts of the source). *)
Variables PROMPT_ARCHITECT PROMPT_ASSET_MANAGER PROMPT_SHELL
          PROMPT_CONTENT PROMPT_LOGIC : jsstring.

Record State := mkState {
  world : W;
  trace : list Event
}.

(** An asynchronous computation. *)
Definition Async (T : Type) := State -> Completion T * State.

(** An operation handed to [withRetry]: it acts on the outside world only. *)
Definition Operation (T : Type) := W -> Completion T * W.

Definition ret {T} (v : T) : Async T := fun st => (Returned v, st).

Definition throw {T} (x : Thrown) : Async T := fun st => (Threw x, st).

Definition bind {A B} (c : Async A) (k : A -> Async B) : Async B :=
  fun st =>
    match c st with
    | (Returned v, st') => k v st'
    | (Threw x, st') => (Threw x, st')
    end.

Definition emit (evs : list Event) (st : State) : State :=
  mkState (world st) (trace st ++ evs).

Definition tell (evs : list Event) : Async unit :=
  fun st => (Returned tt, emit evs st).

(** [await fn()] *)
Definition invoke {T} (fn : Operation T) : Async T :=
  fun st =>
    let (r, w') := fn (world st) in
    (r, mkState w' (trace st ++ [Invoke])).

(** [try { body } catch (error) { handler(error) }] *)
Definition tryCatch {T} (body : Async T) (handler : Thrown -> Async T) : Async T :=
  fun st =>
    match body st with
    | (Returned v, st') => (Returned v, st')
    | (Threw x, st') => handler x st'
    end.

(** The loop of [withRetry]: [remaining] is [maxRetries - i]. *)
Fixpoint retryLoop {T} (fn : Operation T) (remaining i : nat)
         (lastError : Thrown) : Async T :=
  match remaining with
  | O => throw lastError
  | S remaining' =>
      tryCatch (invoke fn)
        (fun error =>
           if isRateLimit error then
             let delay := backoffDelay i in
             bind (tell [Warn (i + 1) delay; Sleep delay])
                  (fun _ => retryLoop fn remaining' (S i) error)
           else throw error)
  end.

Definition withRetry {T} (fn : Operation T) (maxRetries : nat) : Async T :=
  retryLoop fn maxRetries 0 Undefined.

Definition DEFAULT_MAX_RETRIES : nat := 5.

Definition callGemini (systemPrompt : jsstring) (userContent : UserContent)
  : Operation jsstring :=
  fun w =>
    let content :=
      match userContent with
      | UserParts ps => mkContent None ps
      | UserText s => mkContent None [TextPart s]
      end in
    match generateContent (mkRequest MODEL_NAME systemPrompt 0.7%float [content]) w with
    | (Returned text, w') =>
        (Returned (match text with
                   | Some t => if truthy t then t else []
                   | None => []
                   end), w')
    | (Threw x, w') => (Threw x, w')
    end.

(** [const cooldown = () => new Promise(r => setTimeout(r, 1500))] *)
Definition cooldown : Async unit := tell [Sleep 1500].

(** [updateStatus]: calls [onStatusUpdate] when the caller supplied one. *)
Definition updateStatus (hasCallback : bool) (s : StatusMessage) : Async unit :=
  if hasCallback then tell [Status s] else ret tt.

Definition generateLessonPlan (userInput : jsstring)
           (attachments : option (list Attachment)) (hasCallback : bool)
  : Async jsstring :=
  tryCatch
    (bind (updateStatus hasCallback DesigningBlueprint) (fun _ =>
     let parts :=
       TextPart userInput ::
       match attachments with
       | Some atts => map (fun att => InlineData (att_mimeType att) (att_data att)) atts
       | None => []
       end in
     bind (withRetry (callGemini PROMPT_ARCHITECT (UserParts parts)) DEFAULT_MAX_RETRIES)
       (fun blueprint =>
     bind cooldown (fun _ =>
     bind (updateStatus hasCallback MappingAssets) (fun _ =>
     bind (withRetry (callGemini PROMPT_ASSET_MANAGER (UserText blueprint)) DEFAULT_MAX_RETRIES)
       (fun assets =>
     bind cooldown (fun _ =>
     bind (updateStatus hasCallback ConstructingFramework) (fun _ =>
     bind (withRetry (callGemini PROMPT_SHELL
              (UserText (str "Create shell for topic based on blueprint content.")))
              DEFAULT_MAX_RETRIES)
       (fun shell =>
     bind cooldown (fun _ =>
     bind (updateStatus hasCallback CodingCards) (fun _ =>
     bind (withRetry (callGemini PROMPT_CONTENT
              (UserText (blueprintAndAssets blueprint assets))) DEFAULT_MAX_RETRIES)
       (fun contentHtml =>
     bind cooldown (fun _ =>
     bind (updateStatus hasCallback EmbeddingLogic) (fun _ =>
     bind (withRetry (callGemini PROMPT_LOGIC
              (UserText (blueprintAndAssets blueprint assets))) DEFAULT_MAX_RETRIES)
       (fun script =>
     bind (updateStatus hasCallback FinalizingBuild) (fun _ =>
     ret (assemble shell contentHtml script)))))))))))))))))
    (fun error => bind (tell [ConsoleError error]) (fun _ => throw error)).

(** The operation wrapped by [refineLessonPlan]. *)
Definition refineOperation (currentHtml userRequest : jsstring) : Operation jsstring :=
  fun w =>
    match generateContent (refineRequest currentHtml userRequest) w with
    | (Returned text, w') => (Returned (refinedText text currentHtml), w')
    | (Threw x, w') => (Threw x, w')
    end.

Definition refineLessonPlan (currentHtml userRequest : jsstring) : Async jsstring :=
  withRetry (refineOperation currentHtml userRequest) DEFAULT_MAX_RETRIES.

(** The world after [k] invocations of [fn], and the outcome of invocation
    number [k] (counted from 0). *)
Fixpoint worldAfter {T} (fn : Operation T) (w : W) (k : nat) : W :=
  match k with
  | O => w
  | S k' => snd (fn (worldAfter fn w k'))
  end.

Definition attempt {T} (fn : Operation T) (w : W) (k : nat) : Completion T :=
  fst (fn (worldAfter fn w k)).


(** Attempt [k] of [fn] from world [w] fails with a rate-limit error. *)
Definition rateLimitedAt {T} (fn : Operation T) (w : W) (k : nat) : Prop :=
  exists e, attempt fn w k = Threw e /\ isRateLimit e = true.

End Service.

End GeminiService.

(* ================================================================== *)
(** ** App.tsx *)
(* ================================================================== *)

Module App.

Import GeminiService.

Inductive Role := user | ai.

Record Message := mkMessage {
  msg_role : Role;
  msg_content : jsstring
}.

Inductive View := inputView | workspaceView.

(** The [useState] cells of the component. *)
Record AppState := mkApp {
  currentView : View;
  generatedHtml : jsstring;
  isProcessing : bool;
  statusMessage : jsstring;
  chatMessages : list Message
}.

(** [error?.message?.includes('429') || error?.message?.includes('RESOURCE_EXHAUSTED')] *)
Definition isQuotaError (error : Thrown) : bool :=
  match error with
  | Err e => match message e with
             | Some m => includes (str "429") m || includes (str "RESOURCE_EXHAUSTED") m
             | None => false
             end
  | Undefined => false
  end.

Definition QUOTA_REPLY : jsstring :=
  str "Sorry, the AI is at its limit. Please wait a moment and then try sending your request again.".
Definition ERROR_REPLY : jsstring :=
  str "Sorry, I encountered an error while updating the code.".
Definition UPDATED_REPLY : jsstring :=
  str "Code updated! The preview has been refreshed.".

(** The state setters. *)
Definition setGeneratedHtml (html : jsstring) (app : AppState) : AppState :=
  mkApp (currentView app) html (isProcessing app) (statusMessage app) (chatMessages app).

Definition setIsProcessing (b : bool) (app : AppState) : AppState :=
  mkApp (currentView app) (generatedHtml app) b (statusMessage app) (chatMessages app).

Definition setStatusMessage (s : jsstring) (app : AppState) : AppState :=
  mkApp (currentView app) (generatedHtml app) (isProcessing app) s (chatMessages app).

(** [setChatMessages(prev => [...prev, m])] *)
Definition addChatMessage (m : Message) (app : AppState) : AppState :=
  mkApp (currentView app) (generatedHtml app) (isProcessing app) (statusMessage app)
        (chatMessages app ++ [m]).

Section Handlers.

Variable W : Type.
Variable generateContent : Request -> W -> Completion (option jsstring) * W.

(** [handleRefine]: the state cells after the handler has run to its end,
    and the outside world it leaves.  [generatedHtml] is read from the cells
    as they are when the handler is called. *)
Definition handleRefine (request : jsstring) (app : AppState) (st : State W)
  : AppState * State W :=
  let app1 := setIsProcessing true app in
  let app2 := setStatusMessage (str "Refining your lesson...") app1 in
  let app3 := addChatMessage (mkMessage user request) app2 in
  match refineLessonPlan generateContent (generatedHtml app) request st with
  | (Returned newHtml, st') =>
      let app4 := setGeneratedHtml newHtml app3 in
      let app5 := addChatMessage (mkMessage ai UPDATED_REPLY) app4 in
      (setIsProcessing false app5, st')
  | (Threw error, st') =>
      let st'' := emit [ConsoleError error] st' in
      let errorMsg := if isQuotaError error then QUOTA_REPLY else ERROR_REPLY in
      let app4 := addChatMessage (mkMessage ai errorMsg) app3 in
      (setIsProcessing false app4, st'')
  end.

End Handlers.

(** *** The export file name of [handleDownload] *)

(** Canonical form of a code unit under the [i] flag, as far as matching
    against ASCII pattern characters goes: a-z are folded to A-Z. *)
Definition canonicalize (c : ascii) : ascii :=
  let n := nat_of_ascii c in
  if (97 <=? n) && (n <=? 122) then ascii_of_nat (n - 32) else c.

Definition eqbCI (a b : ascii) : bool :=
  Ascii.eqb (canonicalize a) (canonicalize b).

(** Match of a literal at the current position, ignoring case. *)
Fixpoint startsWithCI (p s : jsstring) : bool :=
  match p, s with
  | [], _ => true
  | _ :: _, [] => false
  | a :: p', b :: s' => eqbCI a b && startsWithCI p' s'
  end.

(** Line terminators, which [.] does not match. *)
Definition isLineTerminator (c : ascii) : bool :=
  let n := nat_of_ascii c in (n =? 10) || (n =? 13).

Definition TITLE_OPEN : jsstring := str "<title>".
Definition TITLE_CLOSE : jsstring := str "</title>".

(** [(.*?)<\/title>] from the current position: the shortest run of
    characters other than line terminators that is followed by the closing
    tag. *)
Fixpoint lazyUntilClose (s : jsstring) : option jsstring :=
  if startsWithCI TITLE_CLOSE s then Some []
  else match s with
       | [] => None
       | c :: s' =>
           if isLineTerminator c then None
           else match lazyUntilClose s' with
                | Some t => Some (c :: t)
                | None => None
                end
       end.

(** The regular expression anchored at the current position. *)
Definition titleHere (s : jsstring) : option jsstring :=
  if startsWithCI TITLE_OPEN s
  then lazyUntilClose (skipn (List.length TITLE_OPEN) s)
  else None.

(** [generatedHtml.match(/<title>(.*?)<\/title>/i)]: capture group 1 of the
    leftmost match. *)
Fixpoint titleMatch (s : jsstring) : option jsstring :=
  match titleHere s with
  | Some t => Some t
  | None => match s with
            | [] => None
            | _ :: s' => titleMatch s'
            end
  end.

(** The character class of the sanitising regular expression: the angle
    brackets, colon, double quote, slash, backslash, bar, question mark and
    star. *)
Definition isUnsafe (c : ascii) : bool :=
  Ascii.eqb c "<" || Ascii.eqb c ">" || Ascii.eqb c ":" || Ascii.eqb c dquote
  || Ascii.eqb c "/" || Ascii.eqb c "\" || Ascii.eqb c "|" || Ascii.eqb c "?"
  || Ascii.eqb c "*".

(** Global replacement of every character of the class by a hyphen. *)
Definition sanitize (s : jsstring) : jsstring :=
  map (fun c => if isUnsafe c then "-"%char else c) s.

(** White space of [trim] among the code units below 256. *)
Definition isWhiteSpace (c : ascii) : bool :=
  let n := nat_of_ascii c in
  ((9 <=? n) && (n <=? 13)) || (n =? 32) || (n =? 160).

Fixpoint trimStart (s : jsstring) : jsstring :=
  match s with
  | [] => []
  | c :: s' => if isWhiteSpace c then trimStart s' else s
  end.

Definition trimEnd (s : jsstring) : jsstring := rev (trimStart (rev s)).

Definition trim (s : jsstring) : jsstring := trimEnd (trimStart s).

(** What [new Date()] is asked for. *)
Record Date := mkDate {
  getMonth : Z;      (* 0..11 *)
  getDate : Z;       (* 1..31 *)
  getFullYear : Z
}.

Definition digitChar (d : Z) : ascii := ascii_of_nat (48 + Z.to_nat d).

(** Decimal digits of a non-negative integer. *)
Fixpoint digitsOf (fuel : nat) (n : Z) : jsstring :=
  match fuel with
  | O => []
  | S fuel' =>
      if (n <? 10)%Z then [digitChar n]
      else digitsOf fuel' (n / 10) ++ [digitChar (n mod 10)]
  end.

(** [String(n)] for an integer [n]. *)
Definition numberToString (n : Z) : jsstring :=
  if (n <? 0)%Z then "-"%char :: digitsOf (S (Z.to_nat (- n))) (- n)
  else digitsOf (S (Z.to_nat n)) n.

(** [s.padStart(2, '0')] *)
Definition padStart2 (s : jsstring) : jsstring :=
  repeat "0"%char (2 - List.length s) ++ s.

(** [s.slice(-2)] *)
Definition sliceLast2 (s : jsstring) : jsstring :=
  skipn (List.length s - 2) s.

(** [`${month}.${day}.${year}`] *)
Definition dateStr (now : Date) : jsstring :=
  let month := padStart2 (numberToString (getMonth now + 1)) in
  let day := padStart2 (numberToString (getDate now)) in
  let year := sliceLast2 (numberToString (getFullYear now)) in
  month ++ str "." ++ day ++ str "." ++ year.

Definition filenameBase (generatedHtml : jsstring) : jsstring :=
  let filenameBase :=
    match titleMatch generatedHtml with
    | Some t => t
    | None => str "Interactive_Lesson"
    end in
  trim (sanitize filenameBase).

(** The [download] attribute set by [handleDownload]; nothing is downloaded
    when there is no artifact. *)
Definition downloadFileName (generatedHtml : jsstring) (now : Date) : option jsstring :=
  if truthy generatedHtml
  then Some (filenameBase generatedHtml ++ str "-sway-" ++ dateStr now ++ str ".html")
  else None.

End App.

(* ================================================================== *)
(** ** components/InputForm.tsx *)
(* ================================================================== *)

Module InputForm.

(** *** Keyframe extraction *)

(** A promise that has settled, or never does. *)
Inductive Settled (T : Type) :=
| Resolved (v : T)
| Rejected
| Pending.
Arguments Resolved {T} v.
Arguments Rejected {T}.
Arguments Pending {T}.

(** [s.split(sep)] for a separator of one code unit. *)
Fixpoint split (sep : ascii) (s : jsstring) : list jsstring :=
  match s with
  | [] => [[]]
  | c :: s' =>
      if Ascii.eqb c sep then [] :: split sep s'
      else match split sep s' with
           | piece :: pieces => (c :: piece) :: pieces
           | [] => [[c]]
           end
  end.

(** The video element once its metadata has loaded.  Numbers are IEEE
    binary64, as in JavaScript; the intrinsic dimensions are integers. *)
Record Video := mkVideo {
  duration : float;
  videoWidth : Z;
  videoHeight : Z
}.

(** [[duration * 0.1, duration * 0.5, duration * 0.9]] *)
Definition timestamps (duration : float) : list float :=
  [(duration * 0.1)%float; (duration * 0.5)%float; (duration * 0.9)%float].

Section Keyframes.

(** The browser: whether the [seeked] event fires after a seek to a given
    time, and the data URL that [canvas.toDataURL('image/jpeg', 0.7)] returns
    for the frame shown at that time, drawn at the given size. *)
Variable seeked : Video -> float -> bool.
Variable toDataURL : Video -> float -> Z -> Z -> jsstring.

(** One frame: [canvas.toDataURL('image/jpeg', 0.7).split(',')[1]], which is
    undefined when the URL has no comma. *)
Definition grabFrame (video : Video) (time : float) : option jsstring :=
  let width := (videoWidth video / 2)%Z in
  let height := (videoHeight video / 2)%Z in
  nth_error (split "," (toDataURL video time width height)) 1.

(** The [for (const time of timestamps)] loop.  Assigning a non-finite
    number to [currentTime] throws, which rejects the promise; a seek whose
    [seeked] event never fires leaves it pending.  The second component
    lists the times sought so far, in order. *)
Fixpoint grabFrames (video : Video) (times : list float)
         (frames : list (option jsstring)) (sought : list float)
  : Settled (list (option jsstring)) * list float :=
  match times with
  | [] => (Resolved frames, sought)
  | time :: rest =>
      if negb (PrimFloat.is_finite time) then (Rejected, sought)
      else if seeked video time
           then grabFrames video rest (frames ++ [grabFrame video time]) (sought ++ [time])
           else (Pending, sought ++ [time])
  end.

(** [extractKeyframes]: [loaded] is the video when [onloadedmetadata] fires
    and [None] when [onerror] does. *)
Definition extractKeyframes (loaded : option Video)
  : Settled (list (option jsstring)) * list float :=
  match loaded with
  | Some video => grabFrames video (timestamps (duration video)) [] []
  | None => (Rejected, [])
  end.

End Keyframes.

(** *** Attachments *)

Inductive Status := processing | completed | error.

Definition Keyframes := list (option jsstring).

Record FileItem := mkItem {
  id : jsstring;
  name : jsstring;
  type : jsstring;
  data : option jsstring;
  keyframes : option Keyframes;
  text : option jsstring;
  status : Status;
  progress : Z;
  isMedia : bool
}.

(** [Partial<FileItem>] as the program builds it: a property is absent
    ([None]) or present with a value; the value of [data] may be undefined. *)
Record Updates := mkUpdates {
  upd_data : option (option jsstring);
  upd_keyframes : option Keyframes;
  upd_text : option jsstring;
  upd_status : option Status;
  upd_progress : option Z
}.

Definition noUpdates : Updates := mkUpdates None None None None None.

Definition orKeep {T} (u : option T) (old : T) : T :=
  match u with Some v => v | None => old end.

(** [{ ...f, ...updates }] *)
Definition merge (f : FileItem) (u : Updates) : FileItem :=
  mkItem (id f) (name f) (type f)
         (orKeep (upd_data u) (data f))
         (match upd_keyframes u with Some k => Some k | None => keyframes f end)
         (match upd_text u with Some t => Some t | None => text f end)
         (orKeep (upd_status u) (status f))
         (orKeep (upd_progress u) (progress f))
         (isMedia f).

(** [setFiles(prev => prev.map(f => f.id === id ? { ...f, ...updates } : f))] *)
Definition updateFile (target : jsstring) (u : Updates) (files : list FileItem)
  : list FileItem :=
  map (fun f => if Js.eqb (id f) target then merge f u else f) files.

(** [setFiles(prev => prev.filter(f => f.id !== id))] *)
Definition removeFile (target : jsstring) (files : list FileItem) : list FileItem :=
  filter (fun f => negb (Js.eqb (id f) target)) files.

(** The [File] handed to [processFile]. *)
Record File := mkFile {
  file_name : jsstring;
  file_type : jsstring
}.

Inductive Branch := VideoBranch | DocxBranch | TxtBranch | DataBranch.

Definition anyEndsWith (suffixes : list jsstring) (s : jsstring) : bool :=
  existsb (fun suffix => endsWith suffix s) suffixes.

Definition isVideo (f : File) : bool :=
  startsWith (str "video/") (file_type f)
  || anyEndsWith [str ".mp4"; str ".mov"; str ".webm"] (toLowerCase (file_name f)).

Definition isAudio (f : File) : bool :=
  startsWith (str "audio/") (file_type f)
  || anyEndsWith [str ".mp3"; str ".wav"; str ".ogg"; str ".m4a"] (toLowerCase (file_name f)).

Definition isImage (f : File) : bool :=
  startsWith (str "image/") (file_type f).

(** The [if / else if] chain of [processFile]. *)
Definition branchOf (f : File) : Branch :=
  if isVideo f then VideoBranch
  else if endsWith (str ".docx") (toLowerCase (file_name f)) then DocxBranch
  else if endsWith (str ".txt") (toLowerCase (file_name f))
          || Js.eqb (file_type f) (str "text/plain") then TxtBranch
  else DataBranch.

Definition newItem (ident : jsstring) (f : File) : FileItem :=
  mkItem ident (file_name f)
         (if truthy (file_type f) then file_type f else str "application/octet-stream")
         None None None processing 0
         (isVideo f || isImage f || isAudio f).

(** One run of [processFile]: its closure variables [id], [interval] and [p],
    and whether its completion callback is still to come. *)
Record Job := mkJob {
  job_id : jsstring;
  job_branch : Branch;
  intervalActive : bool;
  job_p : Z;
  awaiting : bool
}.

Definition newJob (ident : jsstring) (f : File) : Job :=
  mkJob ident (branchOf f) true 0 true.

(** What [mammoth.extractRawText] does once the reader has loaded. *)
Inductive DocxOutcome :=
| MammothMissing
| RawText (value : jsstring)
| ExtractionFailed.

(** What happens in the component.  [Select] is a call of [processFile],
    with the identifier that [Math.random().toString(36).substr(2, 9)]
    yields; the other events name a run of [processFile] by its rank.
    [DataLoaded] carries [event.target.result] as the reader hands it over,
    the empty string standing for a result that is null or empty. *)
Inductive Event :=
| Select (ident : jsstring) (f : File)
| Tick (job : nat)
| KeyframesSettled (job : nat) (frames : option Keyframes)
| DocxLoaded (job : nat) (outcome : DocxOutcome)
| TextLoaded (job : nat) (content : jsstring)
| DataLoaded (job : nat) (result : jsstring)
| Remove (ident : jsstring).

Record State := mkState {
  files : list FileItem;
  jobs : list Job
}.

Definition initial : State := mkState [] [].

Fixpoint setNth {T} (k : nat) (v : T) (l : list T) : list T :=
  match l, k with
  | [], _ => []
  | _ :: l', O => v :: l'
  | x :: l', S k' => x :: setNth k' v l'
  end.

(** The job stops waiting; [clear] tells whether [clearInterval] is called. *)
Definition settle (clear : bool) (j : Job) : Job :=
  mkJob (job_id j) (job_branch j)
        (if clear then false else intervalActive j) (job_p j) false.

Definition branch_eqb (a b : Branch) : bool :=
  match a, b with
  | VideoBranch, VideoBranch | DocxBranch, DocxBranch
  | TxtBranch, TxtBranch | DataBranch, DataBranch => true
  | _, _ => false
  end.

(** A completion callback of job [k] on branch [b]: it runs at most once. *)
Definition complete (k : nat) (b : Branch) (clear : bool) (u : option Updates)
           (s : State) : State :=
  match nth_error (jobs s) k with
  | Some j =>
      if awaiting j && branch_eqb (job_branch j) b then
        mkState (match u with
                 | Some u' => updateFile (job_id j) u' (files s)
                 | None => files s
                 end)
                (setNth k (settle clear j) (jobs s))
      else s
  | None => s
  end.

(** One event.  The outer [catch] of [processFile] has no event of its own:
    nothing in its [try] block throws for a [File] ([setInterval], the
    [FileReader] constructor and the read methods of a fresh reader do not
    throw, the promise of [extractKeyframes] is awaited under the inner
    handler, and the callbacks run after the block has been left). *)
Definition step (s : State) (e : Event) : State :=
  match e with
  | Select ident f =>
      mkState (files s ++ [newItem ident f]) (jobs s ++ [newJob ident f])
  | Tick k =>
      match nth_error (jobs s) k with
      | Some j =>
          if intervalActive j then
            let p := (job_p j + 15)%Z in
            mkState (if (p <=? 90)%Z
                     then updateFile (job_id j)
                            (mkUpdates None None None None (Some p)) (files s)
                     else files s)
                    (setNth k (mkJob (job_id j) (job_branch j) true p (awaiting j))
                            (jobs s))
          else s
      | None => s
      end
  | KeyframesSettled k (Some frames) =>
      complete k VideoBranch true
        (Some (mkUpdates None (Some frames) None (Some completed) (Some 100%Z))) s
  | KeyframesSettled k None =>
      complete k VideoBranch true
        (Some (mkUpdates None None None (Some error) None)) s
  | DocxLoaded k MammothMissing =>
      complete k DocxBranch false None s
  | DocxLoaded k (RawText value) =>
      complete k DocxBranch true
        (Some (mkUpdates None None (Some value) (Some completed) (Some 100%Z))) s
  | DocxLoaded k ExtractionFailed =>
      complete k DocxBranch true
        (Some (mkUpdates None None None (Some error) None)) s
  | TextLoaded k content =>
      complete k TxtBranch true
        (Some (mkUpdates None None (Some content) (Some completed) (Some 100%Z))) s
  | DataLoaded k result =>
      if truthy result then
        complete k DataBranch true
          (Some (mkUpdates (Some (nth_error (split "," result) 1)) None None
                           (Some completed) (Some 100%Z))) s
      else complete k DataBranch false None s
  | Remove ident =>
      mkState (removeFile ident (files s)) (jobs s)
  end.

Definition run (events : list Event) : State := fold_left step events initial.

(** [Select ident] draws an identifier that no earlier run of [processFile]
    has drawn. *)
Definition drawsFresh (s : State) (e : Event) : Prop :=
  match e with
  | Select ident _ => ~ In ident (map job_id (jobs s))
  | _ => True
  end.

(** The result that a reader hands to the data branch can be split at a
    comma: when it is not empty it holds one, as a data URL with its payload
    does. *)
Definition splitsResult (e : Event) : Prop :=
  match e with
  | DataLoaded _ result => truthy result = true -> In ","%char result
  | _ => True
  end.

(** Identifiers drawn by the calls of [processFile] in a run. *)
Fixpoint selectedIds (events : list Event) : list jsstring :=
  match events with
  | [] => []
  | Select ident _ :: rest => ident :: selectedIds rest
  | _ :: rest => selectedIds rest
  end.

Definition isSome {T} (o : option T) : bool :=
  match o with Some _ => true | None => false end.

(** How many of [text], [data] and [keyframes] hold a value. *)
Definition populated (f : FileItem) : nat :=
  (if isSome (text f) then 1 else 0)
  + (if isSome (data f) then 1 else 0)
  + (if isSome (keyframes f) then 1 else 0).

Definition terminal (f : FileItem) : bool :=
  match status f with
  | processing => false
  | completed | error => true
  end.

(** The invariant of an attachment. *)
Definition wellFormed (f : FileItem) : Prop :=
  (status f = completed -> populated f = 1)
  /\ (status f = error -> populated f = 0).

(** An attachment and the run of [processFile] that owns it: while the run
    waits for its callback the attachment is empty; once the attachment is
    in a terminal state the run has had its callback and has cleared its
    interval. *)
Definition linked (j : Job) (f : FileItem) : Prop :=
  match status f with
  | processing => populated f = 0
  | completed => populated f = 1 /\ awaiting j = false /\ intervalActive j = false
  | error => populated f = 0 /\ awaiting j = false /\ intervalActive j = false
  end.

(** The updates that callbacks apply: each fills at most one of the three
    fields of an empty attachment, as its new status requires. *)
Definition fitting (u : Updates) : Prop :=
  forall f, status f = processing -> populated f = 0 ->
            match status (merge f u) with
            | processing => populated (merge f u) = 0
            | completed => populated (merge f u) = 1
            | error => populated (merge f u) = 0
            end.

(** The invariant of the component: runs of [processFile] and attachments
    are told apart by their identifiers, and every attachment is linked to
    the run that created it. *)
Record Consistent (s : State) : Prop := mkConsistent {
  jobs_distinct : NoDup (map job_id (jobs s));
  files_distinct : NoDup (map id (files s));
  files_linked : forall f, In f (files s) ->
                 exists k j, nth_error (jobs s) k = Some j
                             /\ job_id j = id f /\ linked j f
}.

End InputForm.

(* ================================================================== *)
(** ** Classification of errors, in the words of the code and of the
       specification *)
(* ================================================================== *)

Module Classification.

Import GeminiService.

Definition carriesStatus429 (x : Thrown) : Prop :=
  exists e, x = Err e /\ status e = Some 429%Z.

(** The message of [x] contains [needle], whatever the case of its letters. *)
Definition messageContains (needle : jsstring) (x : Thrown) : Prop :=
  exists e m, x = Err e /\ message e = Some m /\ occurs needle (toLowerCase m).

(** The three tests of [withRetry]. *)
Definition rateLimitSignature (x : Thrown) : Prop :=
  messageContains (str "429") x
  \/ messageContains (str "resource_exhausted") x
  \/ carriesStatus429 x.

(** The classification as the specification words it: HTTP status 429, or a
    message containing [resource exhausted], case-insensitively. *)
Definition specRateLimited (x : Thrown) : Prop :=
  carriesStatus429 x \/ messageContains (str "resource exhausted") x.

End Classification.

(* ================================================================== *)
(** ** The export name, in the words of the specification *)
(* ================================================================== *)

Module ExportName.

(** The characters that are unsafe in a file name. *)
Definition unsafeChars : list ascii :=
  ["<"; ">"; ":"; dquote; "/"; "\"; "|"; "?"; "*"]%char.

(** A number below 100 written with two digits. *)
Definition twoDigits (n : Z) : jsstring :=
  [App.digitChar (n / 10 mod 10); App.digitChar (n mod 10)].

(** A date in the form MM.DD.YY. *)
Definition mmddyy (now : App.Date) : jsstring :=
  twoDigits (App.getMonth now + 1) ++ str "." ++ twoDigits (App.getDate now)
  ++ str "." ++ twoDigits (App.getFullYear now mod 100).

(** What [getMonth], [getDate] and [getFullYear] can answer for the current
    date. *)
Definition validDate (now : App.Date) : Prop :=
  (0 <= App.getMonth now <= 11)%Z
  /\ (1 <= App.getDate now <= 31)%Z
  /\ (10 <= App.getFullYear now)%Z.

(** The letters A-Z and a-z. *)
Definition asciiLetter (c : ascii) : Prop :=
  65 <= nat_of_ascii c <= 90 \/ 97 <= nat_of_ascii c <= 122.

(** Two characters that are the same, or the same letter in the two
    cases. *)
Definition sameLetter (a b : ascii) : Prop :=
  a = b \/
  (asciiLetter a /\ asciiLetter b /\
   (nat_of_ascii a = nat_of_ascii b + 32 \/ nat_of_ascii b = nat_of_ascii a + 32)).

(** [tag] spells [pattern], in any case. *)
Definition spells (pattern tag : jsstring) : Prop := Forall2 sameLetter pattern tag.

(** [s] holds a spelling of [pattern]. *)
Definition holds (pattern s : jsstring) : Prop :=
  exists a tag b, s = a ++ tag ++ b /\ spells pattern tag.

(** [tag], which stands right after [before], is the first spelling of
    [pattern] there: none begins in [before]. *)
Definition firstTag (pattern before tag : jsstring) : Prop :=
  ~ holds pattern (before ++ removelast tag).

(** The line terminators: line feed and carriage return. *)
Definition lineTerminators : list ascii := map ascii_of_nat [10; 13].

(** White space: tab, line feed, vertical tab, form feed, carriage return,
    space and no-break space. *)
Definition whiteSpaceChars : list ascii := map ascii_of_nat [9; 10; 11; 12; 13; 32; 160].

Definition white (c : ascii) : Prop := In c whiteSpaceChars.

(** [open ++ t ++ close] is a title element with text [t]: the tags are
    spelled in any case and the text stays on one line. *)
Definition titleElement (open t close : jsstring) : Prop :=
  spells App.TITLE_OPEN open
  /\ spells App.TITLE_CLOSE close
  /\ forall c, In c t -> ~ In c lineTerminators.

(** [core] is [s] without the white space around it: what is left out on
    either side is white space, and [core] neither begins nor ends with
    white space. *)
Definition trimmed (s core : jsstring) : Prop :=
  exists lead trail,
    s = lead ++ core ++ trail
    /\ Forall white lead
    /\ Forall white trail
    /\ (forall c r, core = c :: r -> ~ white c)
    /\ (forall r c, core = r ++ [c] -> ~ white c).

(** Tests that decide [holds] and the absence of line terminators on given
    texts. *)
Fixpoint holdsb (pattern s : jsstring) : bool :=
  if App.startsWithCI pattern s then true
  else match s with
       | [] => false
       | _ :: s' => holdsb pattern s'
       end.

Definition oneLineb (t : jsstring) : bool :=
  negb (existsb (fun c => existsb (Ascii.eqb c) lineTerminators) t).

End ExportName.

(* ================================================================== *)
(** ** Substitutable fakes of the model service *)
(* ================================================================== *)

Module Fakes.

Import GeminiService.

Definition quotaError : Thrown :=
  Err (mkError (Some (str "RESOURCE_EXHAUSTED: quota exceeded")) (Some 429%Z)).

Definition serverError : Thrown :=
  Err (mkError (Some (str "Internal error")) (Some 500%Z)).

(** An error that mentions 429 in its message only. *)
Definition messageOnly429 : Thrown :=
  Err (mkError (Some (str "Request failed with code 429")) None).

(** An error that carries status 429 and says so in words only. *)
Definition statusOnly429 : Thrown :=
  Err (mkError (Some (str "Too Many Requests")) (Some 429%Z)).

(** An error whose message reads as the specification has it, with a space. *)
Definition spacedExhausted : Thrown :=
  Err (mkError (Some (str "Resource exhausted")) None).

(** The world is the number of calls made so far; the first [failures] calls
    are refused for quota, the next ones succeed. *)
Definition flaky (failures : nat) : Operation nat jsstring :=
  fun calls =>
    if calls <? failures then (Threw quotaError, S calls)
    else (Returned (str "ok"), S calls).

Definition broken : Operation nat jsstring :=
  fun calls => (Threw serverError, S calls).

(** A service that answers every request with a server fault. *)
Definition failingService (r : Request) (calls : nat)
  : Completion (option jsstring) * nat :=
  (Threw serverError, S calls).

(** A service that answers every request with a response without text. *)
Definition silentService (r : Request) (calls : nat)
  : Completion (option jsstring) * nat :=
  (Returned None, S calls).

(** The prompts of the five stages, shortened to their roles. *)
Definition promptArchitect : jsstring := str "architect".
Definition promptAssets : jsstring := str "assets".
Definition promptShell : jsstring := str "shell".
Definition promptContent : jsstring := str "content".
Definition promptLogic : jsstring := str "logic".

(** A service that answers by the role in the system instruction: the shell,
    content and logic stages get the given texts, the others a stub. *)
Definition staged (shell contentHtml script : jsstring) (r : Request) (calls : nat)
  : Completion (option jsstring) * nat :=
  let prompt := systemInstruction r in
  (Returned (Some (if Js.eqb prompt promptShell then shell
                   else if Js.eqb prompt promptContent then contentHtml
                   else if Js.eqb prompt promptLogic then script
                   else str "stub")),
   S calls).

(** A run of the pipeline against [staged]. *)
Definition stagedRun (shell contentHtml script : jsstring)
  : Completion jsstring * State nat :=
  generateLessonPlan (staged shell contentHtml script)
    promptArchitect promptAssets promptShell promptContent promptLogic
    (str "Ordering coffee") None false (mkState 0 []).

(** A shell that holds the marker once. *)
Definition plainShell : jsstring :=
  str "<html><body><main><!-- CONTENT_PLACEHOLDER --></main></body></html>".


(** A shell with neither the marker nor a closing body tag. *)
Definition bodilessShell : jsstring :=
  str "<!DOCTYPE html><html><head><title>Lesson</title></head></html>".

(** A shell with a closing body tag and without the marker. *)
Definition markerlessShell : jsstring :=
  str "<html><body><h1>Lesson</h1></body></html>".

Definition sampleContent : jsstring := str "<div>X</div>".

(** A price written with a non-breaking space after the dollar sign. *)
Definition priceContent : jsstring := str "<p>Only $&nbsp;5</p>".

(** A content fragment with a dollar sign that is no replacement pattern,
    and one that holds a closing body tag. *)
Definition pricedContent : jsstring := str "<p>Only $5 a cup</p>".
Definition sampleScript : jsstring := str "<script>AOS.init();</script>".

(** The state of the application while an artifact is on display. *)
Definition workspace : App.AppState :=
  App.mkApp App.workspaceView (str "<html><title>Coffee Shop: Level A2</title></html>")
            false (str "Initializing...") [].

(** An artifact whose title element is spelled in mixed case and has white
    space around its text. *)
Definition shoutedTitleHtml : jsstring :=
  str "<html><head><TITLE>  Coffee Shop: Level A2 </Title></head><body></body></html>".

(** An artifact without a title element. *)
Definition untitledHtml : jsstring := str "<html><body><h1>Lesson</h1></body></html>".

(** A browser in which every seek succeeds and every frame encodes to the
    same picture. *)
Definition alwaysSeeked (v : InputForm.Video) (time : float) : bool := true.
Definition samePicture (v : InputForm.Video) (time : float) (width height : Z)
  : jsstring := str "data:image/jpeg;base64,/9j/4AAQ".

(** A browser in which seeking beyond ten seconds never ends. *)
Definition stalledSeek (v : InputForm.Video) (time : float) : bool :=
  PrimFloat.ltb time 10.

Definition halfMinuteVideo : InputForm.Video := InputForm.mkVideo 30 1280 720.

(** A text file is selected, its progress ticks once, it loads, and the
    timer of the form fires once more. *)
Definition notesFile : InputForm.File := InputForm.mkFile (str "notes.txt") (str "text/plain").
Definition notesSession : list InputForm.Event :=
  [InputForm.Select (str "k3j9x0q1z") notesFile; InputForm.Tick 0;
   InputForm.TextLoaded 0 (str "At the coffee shop")].

(** An empty file read as a data URL by a browser that answers [data:] for
    it: the result holds no comma. *)
Definition emptyFile : InputForm.File := InputForm.mkFile (str "empty.bin") [].
Definition emptyFileSession : list InputForm.Event :=
  [InputForm.Select (str "k3j9x0q1z") emptyFile;
   InputForm.DataLoaded 0 (str "data:")].

(** Two files for which the same identifier is drawn. *)
Definition photoFile : InputForm.File := InputForm.mkFile (str "photo.png") (str "image/png").
Definition collisionSession : list InputForm.Event :=
  [InputForm.Select (str "i") notesFile; InputForm.Select (str "i") photoFile;
   InputForm.TextLoaded 0 (str "At the coffee shop");
   InputForm.DataLoaded 1 (str "data:image/png;base64,iVBORw0KGgo=")].

(** A text file and a picture, with distinct identifiers, both loaded. *)
Definition mixedSession : list InputForm.Event :=
  [InputForm.Select (str "k3j9x0q1z") notesFile;
   InputForm.Select (str "7f2m1p0aa") photoFile;
   InputForm.Tick 0;
   InputForm.TextLoaded 0 (str "At the coffee shop");
   InputForm.Tick 1;
   InputForm.DataLoaded 1 (str "data:image/png;base64,iVBORw0KGgo=")].

Definition firstOfNovember2026 : App.Date := App.mkDate 10 1 2026.

End Fakes.

(* ================================================================== *)
(** ** What a trace shows *)
(* ================================================================== *)

Module Observers.

Import GeminiService.

(** The progress messages of a trace, in order. *)
Fixpoint statuses (tr : list Event) : list StatusMessage :=
  match tr with
  | [] => []
  | Status s :: tr' => s :: statuses tr'
  | _ :: tr' => statuses tr'
  end.

(** The values logged with [console.error], in order. *)
Fixpoint consoleErrors (tr : list Event) : list Thrown :=
  match tr with
  | [] => []
  | ConsoleError x :: tr' => x :: consoleErrors tr'
  | _ :: tr' => consoleErrors tr'
  end.

(** The six progress messages in the order of the stages. *)
Definition ALL_STATUSES : list StatusMessage :=
  [DesigningBlueprint; MappingAssets; ConstructingFramework; CodingCards;
   EmbeddingLogic; FinalizingBuild].

(** The events that a computation added to the trace. *)
Definition added {W} (before after : State W) : list Event :=
  skipn (List.length (trace before)) (trace after).

End Observers.

(* ================================================================== *)
(** ** App.tsx: [handleGenerate] *)
(* ================================================================== *)

Module Generation.

Import GeminiService App.

Definition RATE_LIMIT_ALERT : jsstring :=
  str "The AI is currently receiving too many requests (Rate Limit). Please wait about 60 seconds and try again.".
Definition FAILURE_ALERT : jsstring :=
  str "Failed to generate lesson. Please check your network connection and try again.".
Definition WELCOME_REPLY : jsstring :=
  str "I have analyzed your input and built the initial interactive lesson using the 5-stage pipeline. Use this chat to request adjustments.".

(** [setChatMessages([...])] and [setCurrentView(...)]. *)
Definition setChatMessages (ms : list Message) (app : AppState) : AppState :=
  mkApp (currentView app) (generatedHtml app) (isProcessing app) (statusMessage app) ms.

Definition setCurrentView (v : View) (app : AppState) : AppState :=
  mkApp v (generatedHtml app) (isProcessing app) (statusMessage app) (chatMessages app).

(** The first chat entry after a generation:
    [`Created lesson from ${attachments.length} file(s) with instructions: ${text}`]
    when there are attachments. *)
Definition draftMessage (text : jsstring) (attachments : option (list Attachment))
  : jsstring :=
  match attachments with
  | Some (att :: atts) =>
      str "Created lesson from "
      ++ numberToString (Z.of_nat (List.length (att :: atts)))
      ++ str " file(s) with instructions: " ++ text
  | _ => str "Draft this lesson plan."
  end.

Section Handler.

Variable W : Type.
Variable generateContent : Request -> W -> Completion (option jsstring) * W.
Variables PROMPT_ARCHITECT PROMPT_ASSET_MANAGER PROMPT_SHELL
          PROMPT_CONTENT PROMPT_LOGIC : jsstring.

(** The text of each progress message. *)
Variable statusText : StatusMessage -> jsstring.

(** The callback [(status) => setStatusMessage(status)], applied to the
    progress messages of a run in order. *)
Definition showStatuses (shown : list StatusMessage) (app : AppState) : AppState :=
  fold_left (fun a s => setStatusMessage (statusText s) a) shown app.

(** [handleGenerate]: the state cells after the handler has run to its end,
    the outside world it leaves, and the text of the alert it raised, if
    any. *)
Definition handleGenerate (text : jsstring) (attachments : option (list Attachment))
           (app : AppState) (st : State W)
  : AppState * State W * option jsstring :=
  let app1 := setIsProcessing true app in
  let app2 := setStatusMessage (str "Starting AI Pipeline...") app1 in
  let run := generateLessonPlan generateContent PROMPT_ARCHITECT PROMPT_ASSET_MANAGER
               PROMPT_SHELL PROMPT_CONTENT PROMPT_LOGIC text attachments true st in
  let app3 := showStatuses (Observers.statuses (Observers.added st (snd run))) app2 in
  match run with
  | (Returned html, st') =>
      let app4 := setGeneratedHtml html app3 in
      let app5 := setChatMessages
                    [mkMessage user (draftMessage text attachments);
                     mkMessage ai WELCOME_REPLY] app4 in
      let app6 := setCurrentView workspaceView app5 in
      (setIsProcessing false app6, st', None)
  | (Threw error, st') =>
      let st'' := emit [ConsoleError error] st' in
      let alert := if isQuotaError error then RATE_LIMIT_ALERT else FAILURE_ALERT in
      (setIsProcessing false app3, st'', Some alert)
  end.

End Handler.

End Generation.

(* ================================================================== *)
(** ** components/InputForm.tsx: the form and its submission *)
(* ================================================================== *)

Module Submission.

Import InputForm.

Inductive InputMode := textMode | fileMode | urlMode.

(** The state of the form: [mode], [text], [url] and [files]. *)
Record Form := mkForm {
  form_mode : InputMode;
  form_text : jsstring;
  form_url : jsstring;
  form_files : list FileItem
}.

(** An element of the [attachments] array: its [data] is a keyframe, which
    may be undefined, or the [data] of an attachment. *)
Record Payload := mkPayload {
  pl_mimeType : jsstring;
  pl_data : option jsstring
}.

(** Truth value of an optional string field. *)
Definition truthyField (o : option jsstring) : bool :=
  match o with
  | Some v => truthy v
  | None => false
  end.

(** [l.join(sep)] *)
Fixpoint join (sep : jsstring) (l : list jsstring) : jsstring :=
  match l with
  | [] => []
  | [x] => x
  | x :: rest => x ++ sep ++ join sep rest
  end.

(** [finalPrompt || fallback] *)
Definition orElse (finalPrompt fallback : jsstring) : jsstring :=
  if truthy finalPrompt then finalPrompt else fallback.

Definition newline : ascii := ascii_of_nat 10.

(** [`--- CONTENT FROM ${file.name} ---\n${file.text}`] *)
Definition contentBlock (fileName content : jsstring) : jsstring :=
  str "--- CONTENT FROM " ++ fileName ++ str " ---" ++ [newline] ++ content.

(** [`--- VIDEO CONTEXT: ${file.name} (analyzing ${file.keyframes.length} keyframes) ---`] *)
Definition videoBlock (fileName : jsstring) (frames : nat) : jsstring :=
  str "--- VIDEO CONTEXT: " ++ fileName ++ str " (analyzing "
  ++ App.numberToString (Z.of_nat frames) ++ str " keyframes) ---".

(** [`--- AUDIO CONTEXT: ${file.name} (analyzing audio for transcription and lesson content) ---`] *)
Definition audioBlock (fileName : jsstring) : jsstring :=
  str "--- AUDIO CONTEXT: " ++ fileName
  ++ str " (analyzing audio for transcription and lesson content) ---".

(** What one pass of [files.forEach] pushes to [fileTexts]. *)
Definition fileTextsOf (file : FileItem) : list jsstring :=
  match status file with
  | completed =>
      if truthyField (text file) then
        [contentBlock (name file) (match text file with Some t => t | None => [] end)]
      else match keyframes file with
           | Some frames => [videoBlock (name file) (List.length frames)]
           | None =>
               if truthyField (data file) then
                 if startsWith (str "audio/") (type file)
                 then [audioBlock (name file)] else []
               else []
           end
  | _ => []
  end.

(** What one pass of [files.forEach] pushes to [attachments]. *)
Definition payloadsOf (file : FileItem) : list Payload :=
  match status file with
  | completed =>
      if truthyField (text file) then []
      else match keyframes file with
           | Some frames => map (fun frame => mkPayload (str "image/jpeg") frame) frames
           | None =>
               if truthyField (data file)
               then [mkPayload (type file) (data file)]
               else []
           end
  | _ => []
  end.

Definition URL_DEFAULT : jsstring := str "Transform this into a full ESL lesson.".
Definition FILES_DEFAULT : jsstring :=
  str "Analyze the following content to create an ESL lesson plan.".
Definition MEDIA_DEFAULT : jsstring :=
  str "Analyze the attached media to create a full ESL lesson plan.".

(** [`Analyze this link: ${url}\n\nUser Instructions: ${...}`] *)
Definition urlPrompt (url finalPrompt : jsstring) : jsstring :=
  str "Analyze this link: " ++ url ++ [newline; newline]
  ++ str "User Instructions: " ++ orElse finalPrompt URL_DEFAULT.

(** The call [onGenerate(finalPrompt, attachments)] at the end of
    [handleSubmit]. *)
Definition callOnGenerate (finalPrompt : jsstring) (attachments : list Payload)
  : option (jsstring * option (list Payload)) :=
  if truthy finalPrompt || (0 <? List.length attachments)
  then Some (finalPrompt,
             if 0 <? List.length attachments then Some attachments else None)
  else None.

(** [handleSubmit]: the arguments of [onGenerate], or [None] when it is not
    called. *)
Definition handleSubmit (form : Form) : option (jsstring * option (list Payload)) :=
  let finalPrompt := App.trim (form_text form) in
  match form_mode form with
  | urlMode =>
      if negb (truthy (App.trim (form_url form))) then None
      else callOnGenerate (urlPrompt (form_url form) finalPrompt) []
  | fileMode =>
      match form_files form with
      | [] => None
      | _ =>
          let fileTexts := flat_map fileTextsOf (form_files form) in
          let attachments := flat_map payloadsOf (form_files form) in
          let finalPrompt' :=
            if 0 <? List.length fileTexts
            then orElse finalPrompt FILES_DEFAULT ++ [newline; newline]
                 ++ join [newline; newline] fileTexts
            else if negb (truthy finalPrompt) then MEDIA_DEFAULT
            else finalPrompt in
          callOnGenerate finalPrompt' attachments
      end
  | textMode => callOnGenerate finalPrompt []
  end.

(** [isSubmitDisabled] *)
Definition isSubmitDisabled (isGenerating : bool) (form : Form) : bool :=
  if isGenerating then true
  else match form_mode form with
       | textMode => negb (truthy (App.trim (form_text form)))
       | urlMode => negb (truthy (App.trim (form_url form)))
       | fileMode =>
           match form_files form with
           | [] => true
           | _ => existsb (fun f => match status f with
                                    | processing => true
                                    | _ => false
                                    end) (form_files form)
           end
       end.

(** The progress shown for an attachment, by its status. *)
Definition progressFits (f : FileItem) : Prop :=
  match status f with
  | processing => (0 <= progress f <= 90)%Z
  | completed => progress f = 100%Z
  | error => (0 <= progress f <= 90)%Z
  end.

End Submission.

(* ================================================================== *)
(** ** Sample inputs *)
(* ================================================================== *)

Module Samples.

Import GeminiService.

(** A shell without the marker and with a closing body tag, cut at the
    tag. *)
Definition beforeBody : jsstring := str "<html><body><h1>Lesson</h1>".
Definition afterBody : jsstring := str "</html>".

(** The progress messages, shortened to captions. *)
Definition captions (s : StatusMessage) : jsstring :=
  match s with
  | DesigningBlueprint => str "Designing Lesson Blueprint..."
  | MappingAssets => str "Mapping Visual & Audio Assets..."
  | ConstructingFramework => str "Constructing HTML Framework..."
  | CodingCards => str "Coding Interactive Cards..."
  | EmbeddingLogic => str "Embedding Data Layer & JS Logic..."
  | FinalizingBuild => str "Finalizing Export Build..."
  end.

(** A run of the pipeline with a listener for the progress messages, on a
    service that answers every stage, and one on a service that fails. *)
Definition listenedRun : Completion jsstring * State nat :=
  generateLessonPlan
    (Fakes.staged Fakes.plainShell Fakes.sampleContent Fakes.sampleScript)
    Fakes.promptArchitect Fakes.promptAssets Fakes.promptShell Fakes.promptContent
    Fakes.promptLogic (str "Ordering coffee") None true (mkState 0 []).

Definition failingRun : Completion jsstring * State nat :=
  generateLessonPlan Fakes.failingService
    Fakes.promptArchitect Fakes.promptAssets Fakes.promptShell Fakes.promptContent
    Fakes.promptLogic (str "Ordering coffee") None true (mkState 0 []).

(** A form in file mode whose only attachment is an empty text file. *)
Definition emptyNotesForm : Submission.Form :=
  Submission.mkForm Submission.fileMode (str "   ") []
    (InputForm.files
       (InputForm.run [InputForm.Select (str "k3j9x0q1z") Fakes.notesFile;
                       InputForm.TextLoaded 0 []])).

(** A form in URL mode. *)
Definition linkForm : Submission.Form :=
  Submission.mkForm Submission.urlMode [] (str "https://example.org/a") [].

(** A form in file mode that holds the attachment of [Fakes.notesSession]. *)
Definition notesForm : Submission.Form :=
  Submission.mkForm Submission.fileMode (str "  Make it A2  ") []
    (InputForm.files (InputForm.run Fakes.notesSession)).

End Samples.

(* ================================================================== *)
(** * Properties *)
(* ================================================================== *)

(** ** The retry governor *)

Section RetryGovernor.

Import GeminiService.

Variable W : Type.
Variable T : Type.
Variable fn : Operation W T.

Lemma retryLoop_returned remaining i lastError st v w' :
  fn (world st) = (Returned v, w') ->
  retryLoop fn (S remaining) i lastError st
  = (Returned v, mkState w' (trace st ++ [Invoke])).
Proof.
  intros Hfn. cbn [retryLoop]. unfold tryCatch, invoke.
  rewrite Hfn. reflexivity.
Qed.

Lemma retryLoop_propagates remaining i lastError st e w' :
  fn (world st) = (Threw e, w') ->
  isRateLimit e = false ->
  retryLoop fn (S remaining) i lastError st
  = (Threw e, mkState w' (trace st ++ [Invoke])).
Proof.
  intros Hfn Hrl. cbn [retryLoop]. unfold tryCatch, invoke.
  rewrite Hfn, Hrl. reflexivity.
Qed.

Lemma retryLoop_backs_off remaining i lastError st e w' :
  fn (world st) = (Threw e, w') ->
  isRateLimit e = true ->
  retryLoop fn (S remaining) i lastError st
  = retryLoop fn remaining (S i) e
      (mkState w' (trace st ++ backoffTrace i 1)).
Proof.
  intros Hfn Hrl. cbn [retryLoop]. unfold tryCatch, invoke.
  rewrite Hfn, Hrl. unfold bind, tell, emit. cbn [world trace backoffTrace].
  rewrite <- app_assoc. rewrite app_nil_r. reflexivity.
Qed.

Lemma worldAfter_shift w k :
  worldAfter fn w (S k) = worldAfter fn (snd (fn w)) k.
Proof.
  induction k as [|k IH]; [reflexivity|].
  change (worldAfter fn w (S (S k))) with (snd (fn (worldAfter fn w (S k)))).
  rewrite IH. reflexivity.
Qed.

Lemma attempt_shift w k :
  attempt fn (snd (fn w)) k = attempt fn w (S k).
Proof. unfold attempt. rewrite worldAfter_shift. reflexivity. Qed.

(** [k] rate-limited failures are waited out one after the other. *)
Lemma retryLoop_waits k : forall remaining i lastError st,
  (forall j, j < S k -> rateLimitedAt fn (world st) j) ->
  exists e,
    attempt fn (world st) k = Threw e /\
    retryLoop fn (S k + remaining) i lastError st
    = retryLoop fn remaining (S k + i) e
        (mkState (worldAfter fn (world st) (S k))
                 (trace st ++ backoffTrace i (S k))).
Proof.
  induction k as [|k IH]; intros remaining i lastError st Hall.
  - destruct (Hall 0) as (e & He & Hrl); [lia|].
    exists e. split; [exact He|].
    unfold attempt in He. cbn [worldAfter] in He.
    destruct (fn (world st)) as [r w'] eqn:Hfn. cbn [fst] in He. subst r.
    cbn [Nat.add]. erewrite retryLoop_backs_off by eassumption.
    cbn [worldAfter]. rewrite Hfn. reflexivity.
  - destruct (Hall 0) as (e0 & He0 & Hrl0); [lia|].
    unfold attempt in He0. cbn [worldAfter] in He0.
    destruct (fn (world st)) as [r w'] eqn:Hfn. cbn [fst] in He0. subst r.
    change (S (S k) + remaining) with (S (S k + remaining)).
    erewrite retryLoop_backs_off by eassumption.
    set (st1 := mkState w' (trace st ++ backoffTrace i 1)).
    assert (Hw : w' = snd (fn (world st))) by (rewrite Hfn; reflexivity).
    destruct (IH remaining (S i) e0 st1) as (e & He & Hloop).
    { intros j Hj. destruct (Hall (S j)) as (e' & He' & Hrl'); [lia|].
      exists e'. split; [|exact Hrl'].
      cbn [world st1]. rewrite Hw, attempt_shift. exact He'. }
    exists e. split.
    + cbn [world st1] in He. rewrite Hw, attempt_shift in He. exact He.
    + rewrite Hloop. cbn [world trace st1].
      rewrite Hw, <- worldAfter_shift.
      replace (S k + S i) with (S (S k) + i) by lia.
      rewrite <- app_assoc. reflexivity.
Qed.

Lemma invocations_app tr1 tr2 :
  invocations (tr1 ++ tr2) = invocations tr1 + invocations tr2.
Proof.
  induction tr1 as [|ev tr1 IH]; [reflexivity|].
  destruct ev; cbn; rewrite IH; reflexivity.
Qed.


Lemma totalSleep_sleeps tr : totalSleep tr = fold_right Z.add 0%Z (sleeps tr).
Proof.
  induction tr as [|ev tr IH]; [reflexivity|].
  destruct ev; cbn; rewrite IH; reflexivity.
Qed.

(** C2. An operation that fails with a rate-limit error on its first four
    attempts and succeeds on the fifth: [withRetry(operation, 5)] returns the
    success value after exactly five invocations, having slept for
    [2^i * 5000] ms after attempt [i], 75000 ms in all.  If the fifth attempt
    fails rate-limited too, the error of that last attempt is thrown, after
    five invocations. *)
Theorem withRetry_four_rate_limits_then_fifth (w0 : W) (tr0 : list Event) :
  (forall k, k < 4 -> rateLimitedAt fn w0 k) ->
  (forall v, attempt fn w0 4 = Returned v ->
     exists evs,
       withRetry fn 5 (mkState w0 tr0)
       = (Returned v, mkState (worldAfter fn w0 5) (tr0 ++ evs)) /\
       invocations evs = 5 /\
       sleeps evs = map backoffDelay [0; 1; 2; 3] /\
       sleeps evs = [5000; 10000; 20000; 40000]%Z /\
       totalSleep evs = 75000%Z)
  /\
  (forall e, attempt fn w0 4 = Threw e -> isRateLimit e = true ->
     exists evs,
       withRetry fn 5 (mkState w0 tr0)
       = (Threw e, mkState (worldAfter fn w0 5) (tr0 ++ evs)) /\
       invocations evs = 5).
Proof.
  intros Hfour.
  destruct (@retryLoop_waits 3 1 0 Undefined (mkState w0 tr0)) as (e3 & _ & Hloop).
  { intros j Hj. cbn [world]. apply Hfour. exact Hj. }
  cbn [world trace Nat.add] in Hloop.
  split.
  - intros v Hv.
    exists (backoffTrace 0 4 ++ [Invoke]). split; [|repeat split; reflexivity].
    unfold withRetry. rewrite Hloop.
    unfold attempt in Hv.
    change (worldAfter fn w0 5) with (snd (fn (worldAfter fn w0 4))).
    destruct (fn (worldAfter fn w0 4)) as [r w5] eqn:Hfn. cbn [fst] in Hv. subst r.
    erewrite retryLoop_returned by (cbn [world]; eassumption).
    cbn [trace snd]. rewrite <- app_assoc. reflexivity.
  - intros e He Hrl.
    exists (backoffTrace 0 5). split; [|reflexivity].
    unfold withRetry. rewrite Hloop.
    unfold attempt in He.
    change (worldAfter fn w0 5) with (snd (fn (worldAfter fn w0 4))).
    destruct (fn (worldAfter fn w0 4)) as [r w5] eqn:Hfn. cbn [fst] in He. subst r.
    erewrite retryLoop_backs_off by (cbn [world]; eassumption).
    cbn [retryLoop trace snd]. unfold throw. rewrite <- app_assoc. reflexivity.
Qed.

(** C5. An operation whose first invocation throws an error that is not
    classified as rate-limited: [withRetry] throws that very error after this
    single invocation, without sleeping. *)
Theorem withRetry_other_error_propagates
        (maxRetries : nat) (w0 w1 : W) (tr0 : list Event) (e : Thrown) :
  0 < maxRetries ->
  fn w0 = (Threw e, w1) ->
  isRateLimit e = false ->
  exists evs,
    withRetry fn maxRetries (mkState w0 tr0) = (Threw e, mkState w1 (tr0 ++ evs)) /\
    invocations evs = 1 /\
    sleeps evs = [] /\
    totalSleep evs = 0%Z.
Proof.
  intros Hpos Hfn Hrl.
  destruct maxRetries as [|remaining]; [lia|].
  exists [Invoke]. split; [|repeat split; reflexivity].
  unfold withRetry. apply retryLoop_propagates; assumption.
Qed.

End RetryGovernor.

Lemma withRetry_four_rate_limits_then_fifth_witness :
  (forall k, k < 4 -> GeminiService.rateLimitedAt (Fakes.flaky 4) 0 k) /\
  exists evs,
    GeminiService.withRetry (Fakes.flaky 4) 5 (GeminiService.mkState 0 [])
    = (GeminiService.Returned (str "ok"), GeminiService.mkState 5 evs) /\
    GeminiService.totalSleep evs = 75000%Z.
Proof.
  assert (H : forall k, k < 4 -> GeminiService.rateLimitedAt (Fakes.flaky 4) 0 k).
  { intros k Hk. exists Fakes.quotaError.
    destruct k as [|[|[|[|k]]]]; try lia; split; reflexivity. }
  split; [exact H|].
  destruct (@withRetry_four_rate_limits_then_fifth nat jsstring (Fakes.flaky 4) 0 [] H)
    as [Hok _].
  destruct (Hok (str "ok") eq_refl) as (evs & Heq & _ & _ & _ & Htotal).
  exists evs. split; [exact Heq | exact Htotal].
Defined.

Lemma withRetry_other_error_propagates_witness :
  0 < 5 /\
  Fakes.broken 0 = (GeminiService.Threw Fakes.serverError, 1) /\
  GeminiService.isRateLimit Fakes.serverError = false /\
  exists evs,
    GeminiService.withRetry Fakes.broken 5 (GeminiService.mkState 0 [])
    = (GeminiService.Threw Fakes.serverError, GeminiService.mkState 1 evs) /\
    GeminiService.invocations evs = 1.
Proof.
  assert (Hpos : 0 < 5) by lia.
  assert (Hfn : Fakes.broken 0 = (GeminiService.Threw Fakes.serverError, 1))
    by reflexivity.
  assert (Hrl : GeminiService.isRateLimit Fakes.serverError = false)
    by reflexivity.
  repeat split; try assumption.
  destruct (@withRetry_other_error_propagates nat jsstring Fakes.broken 5 0 1 []
              Fakes.serverError Hpos Hfn Hrl) as (evs & Heq & Hinv & _).
  exists evs. split; [exact Heq | exact Hinv].
Defined.

(** ** Searching and replacing in strings *)

Section Strings.

Lemma startsWith_prefix p : forall s,
  startsWith p s = true <-> exists r, s = p ++ r.
Proof.
  induction p as [|a p IH]; intros s; cbn.
  - split; [intros _; exists s; reflexivity | reflexivity].
  - destruct s as [|b s].
    + split; [discriminate | intros (r & Hr); discriminate].
    + rewrite andb_true_iff, Ascii.eqb_eq, IH. split.
      * intros (-> & r & ->). exists r. reflexivity.
      * intros (r & Hr). injection Hr as -> ->. split; [reflexivity | now exists r].
Qed.

Lemma startsWith_app p r : startsWith p (p ++ r) = true.
Proof. apply startsWith_prefix. now exists r. Qed.


(** A prefix [p] of [x ++ y] is a prefix of [x], or it runs over the end of
    [x] and goes on, not empty, at the beginning of [y]. *)
Lemma startsWith_app_inv p : forall x y,
  startsWith p (x ++ y) = true ->
  startsWith p x = true \/
  exists p2, p = x ++ p2 /\ p2 <> [] /\ startsWith p2 y = true.
Proof.
  induction p as [|a p IH]; intros x y H.
  - left. reflexivity.
  - destruct x as [|b x].
    + right. exists (a :: p). repeat split; [discriminate | exact H].
    + cbn in H. apply andb_true_iff in H. destruct H as [Hab H].
      apply Ascii.eqb_eq in Hab. subst b.
      destruct (IH x y H) as [Hx | (p2 & -> & Hne & Hp2)].
      * left. cbn. rewrite Ascii.eqb_refl. exact Hx.
      * right. exists p2. repeat split; assumption.
Qed.

Lemma includes_cons p c s :
  includes p (c :: s) = startsWith p (c :: s) || includes p s.
Proof. cbn [includes]. destruct (startsWith p (c :: s)); reflexivity. Qed.

Lemma includes_occurs p : forall s, includes p s = true <-> occurs p s.
Proof.
  induction s as [|c s IH].
  - cbn [includes]. destruct (startsWith p []) eqn:Hs.
    + split; [intros _ | reflexivity].
      apply startsWith_prefix in Hs. destruct Hs as (r & Hr).
      exists [], r. exact Hr.
    + split; [discriminate|]. intros (a & b & Hab).
      destruct a; [|discriminate]. cbn in Hab.
      assert (startsWith p [] = true) by (apply startsWith_prefix; now exists b).
      congruence.
  - rewrite includes_cons, orb_true_iff, IH, startsWith_prefix. split.
    + intros [(r & Hr) | (a & b & Hab)].
      * exists [], r. exact Hr.
      * exists (c :: a), b. cbn. now rewrite Hab.
    + intros (a & b & Hab). destruct a as [|c' a].
      * left. exists b. exact Hab.
      * right. cbn in Hab. injection Hab as _ Hab. now exists a, b.
Qed.

Lemma not_includes_occurs p s : includes p s = false <-> ~ occurs p s.
Proof.
  rewrite <- includes_occurs. destruct (includes p s); split; congruence.
Qed.



(** No occurrence of [p] straddles the border between [x] and [y] when [y]
    opens clear of [p]. *)
Lemma occurs_app_opens p : forall x y,
  opensClearOf p y -> occurs p (x ++ y) -> occurs p x \/ occurs p y.
Proof.
  induction x as [|c x IH]; intros y Hclear Hocc.
  - right. exact Hocc.
  - apply includes_occurs in Hocc. cbn [app] in Hocc.
    rewrite includes_cons in Hocc. apply orb_true_iff in Hocc.
    destruct Hocc as [Hhere | Hlater].
    + change (c :: x ++ y) with ((c :: x) ++ y) in Hhere.
      apply startsWith_app_inv in Hhere.
      destruct Hhere as [Hx | (p2 & Hp & Hne & Hp2)].
      * left. apply startsWith_prefix in Hx. destruct Hx as (r & Hr).
        exists [], r. exact Hr.
      * exfalso. destruct p2 as [|h p2]; [congruence|].
        apply startsWith_prefix in Hp2. destruct Hp2 as (r & Hr).
        apply (Hclear h (p2 ++ r)); [exact Hr|].
        rewrite Hp. cbn. apply in_or_app. right. left. reflexivity.
    + apply includes_occurs in Hlater.
      destruct (IH y Hclear Hlater) as [Hx | Hy]; [left | right; exact Hy].
      destruct Hx as (a & b & ->). now exists (c :: a), b.
Qed.

(** No occurrence of [p] straddles the border between [x] and [y] when [x]
    closes clear of [p]. *)
Lemma occurs_app_closes p : forall x y,
  x <> [] -> closesClearOf p x -> occurs p (x ++ y) -> occurs p x \/ occurs p y.
Proof.
  induction x as [|c x IH]; intros y Hne Hclear Hocc; [congruence|].
  apply includes_occurs in Hocc. cbn [app] in Hocc.
  rewrite includes_cons in Hocc. apply orb_true_iff in Hocc.
  destruct Hocc as [Hhere | Hlater].
  - change (c :: x ++ y) with ((c :: x) ++ y) in Hhere.
    apply startsWith_app_inv in Hhere.
    destruct Hhere as [Hx | (p2 & Hp & Hp2ne & _)].
    + left. apply startsWith_prefix in Hx. destruct Hx as (r & Hr).
      exists [], r. exact Hr.
    + exfalso.
      destruct (exists_last Hne) as (t & h & Hth).
      apply (Hclear t h Hth).
      rewrite Hp, Hth, <- app_assoc.
      rewrite removelast_app by (cbn; destruct p2; [congruence | discriminate]).
      apply in_or_app. right. cbn. destruct p2; [congruence|]. left. reflexivity.
  - apply includes_occurs in Hlater.
    destruct x as [|c' x].
    + right. exact Hlater.
    + destruct (IH y) as [Hx | Hy]; [discriminate | | exact Hlater | | right; exact Hy].
      * intros t h Hth. apply (Hclear (c :: t) h). cbn. now rewrite Hth.
      * left. destruct Hx as (a & b & ->). now exists (c :: a), b.
Qed.

Lemma search_None p : forall s, search p s = None <-> includes p s = false.
Proof.
  induction s as [|c s IH]; cbn [search includes].
  - destruct (startsWith p []); split; congruence.
  - destruct (startsWith p (c :: s)); [split; congruence|].
    destruct (search p s) as [[b a]|]; rewrite <- IH; split; congruence.
Qed.


Lemma search_here p s :
  startsWith p s = true -> search p s = Some ([], skipn (List.length p) s).
Proof. intros H. destruct s; cbn [search]; now rewrite H. Qed.

(** The first occurrence of [p] in [pre ++ p ++ post] is the one shown, when
    [pre] holds none and [p] opens clear of itself. *)
Lemma search_first p : forall pre post,
  p <> [] -> opensClearOf p p -> ~ occurs p pre ->
  search p (pre ++ p ++ post) = Some (pre, post).
Proof.
  intros pre post Hne Hself. induction pre as [|c pre IH]; intros Hpre.
  - cbn [app]. rewrite search_here by apply startsWith_app.
    rewrite skipn_app, skipn_all, Nat.sub_diag. reflexivity.
  - cbn [app search].
    destruct (startsWith p (c :: pre ++ p ++ post)) eqn:Hs.
    + exfalso. change (c :: pre ++ p ++ post) with ((c :: pre) ++ p ++ post) in Hs.
      apply startsWith_app_inv in Hs.
      destruct Hs as [Hx | (p2 & Hp & Hp2ne & Hp2)].
      * apply Hpre. apply startsWith_prefix in Hx. destruct Hx as (r & Hr).
        exists [], r. exact Hr.
      * destruct p2 as [|h p2]; [congruence|].
        apply startsWith_prefix in Hp2. destruct Hp2 as (r & Hr).
        destruct p as [|a p]; [congruence|].
        cbn in Hr. injection Hr as -> Hr.
        apply (Hself h p eq_refl).
        injection Hp as _ Hp. cbn. rewrite Hp. apply in_or_app. right. now left.
    + rewrite IH; [reflexivity|].
      intros (a & b & ->). apply Hpre. now exists (c :: a), b.
Qed.

(** A replacement template without a dollar sign stands for itself. *)
Lemma getSubstitution_plain matched before after : forall templ,
  ~ In "$"%char templ -> getSubstitution matched before after templ = templ.
Proof.
  induction templ as [|c t IH]; intros Hno; [reflexivity|].
  cbn [getSubstitution].
  destruct (Ascii.eqb c "$") eqn:Hc.
  - apply Ascii.eqb_eq in Hc. exfalso. apply Hno. left. now symmetry.
  - f_equal. apply IH. intros Hin. apply Hno. now right.
Qed.

(** A replacement template without replacement patterns stands for
    itself. *)
Lemma getSubstitution_patternFree matched before after : forall templ,
  patternFree templ = true -> getSubstitution matched before after templ = templ.
Proof.
  induction templ as [|c t IH]; intros Hfree; [reflexivity|].
  cbn [patternFree] in Hfree. apply andb_true_iff in Hfree.
  destruct Hfree as [Hhere Hrest].
  cbn [getSubstitution]. destruct (Ascii.eqb c "$") eqn:Hc.
  - destruct t as [|d t']; [reflexivity|].
    cbn [startsPattern] in Hhere. apply negb_true_iff in Hhere.
    unfold isPatternChar in Hhere. rewrite !orb_false_iff in Hhere.
    destruct Hhere as [[[H1 H2] H3] H4]. rewrite H1, H2, H3, H4.
    f_equal. now apply IH.
  - f_equal. now apply IH.
Qed.

Lemma dollarFree_patternFree s : dollarFree s = true -> patternFree s = true.
Proof.
  unfold dollarFree. induction s as [|c s IH]; intros H; [reflexivity|].
  cbn [existsb] in H. apply negb_true_iff, orb_false_iff in H. destruct H as [Hc Hs].
  cbn [patternFree]. rewrite Ascii.eqb_sym, Hc. cbn. apply IH. now rewrite Hs.
Qed.

(** Text without a dollar sign in front of a template does not change
    whether the whole is free of patterns. *)
Lemma patternFree_app_plain a b :
  dollarFree a = true -> patternFree (a ++ b) = patternFree b.
Proof.
  unfold dollarFree. induction a as [|c a IH]; intros H; [reflexivity|].
  cbn [existsb] in H. apply negb_true_iff, orb_false_iff in H. destruct H as [Hc Hs].
  cbn [app patternFree]. rewrite Ascii.eqb_sym, Hc. cbn. apply IH. now rewrite Hs.
Qed.

(** Two templates free of patterns make one, when the second does not begin
    with a pattern character. *)
Lemma patternFree_app a b :
  patternFree a = true -> patternFree b = true -> startsPattern b = false ->
  patternFree (a ++ b) = true.
Proof.
  intros Ha Hb Hstart. induction a as [|c a IH]; [exact Hb|].
  cbn [patternFree] in Ha. apply andb_true_iff in Ha. destruct Ha as [Hhere Hrest].
  cbn [app patternFree]. rewrite (IH Hrest), andb_true_r.
  destruct (Ascii.eqb c "$"); [|reflexivity].
  destruct a as [|d a]; [cbn [app]; now rewrite Hstart | exact Hhere].
Qed.

Lemma replace_first p r pre post :
  p <> [] -> opensClearOf p p -> ~ occurs p pre -> patternFree r = true ->
  replace p r (pre ++ p ++ post) = pre ++ r ++ post.
Proof.
  intros Hne Hself Hpre Hr. unfold replace.
  rewrite search_first by assumption.
  now rewrite getSubstitution_patternFree.
Qed.

Lemma closesClearOf_tail m c x : closesClearOf m (c :: x) -> closesClearOf m x.
Proof.
  intros H t h Heq. apply (H (c :: t) h). cbn. now rewrite Heq.
Qed.

(** The search for [p] in [x ++ y] passes over [x] when no occurrence of [p]
    begins in it. *)
Lemma search_skip p : forall x y,
  ~ occurs p x -> closesClearOf p x ->
  search p (x ++ y)
  = match search p y with
    | Some (b, a) => Some (x ++ b, a)
    | None => None
    end.
Proof.
  induction x as [|c x IH]; intros y Hno Hclear.
  - cbn [app]. now destruct (search p y) as [[b a]|].
  - cbn [app search].
    destruct (startsWith p (c :: x ++ y)) eqn:Hs.
    + exfalso. change (c :: x ++ y) with ((c :: x) ++ y) in Hs.
      apply startsWith_app_inv in Hs.
      destruct Hs as [Hx | (p2 & Hp & Hp2ne & _)].
      * apply Hno. apply startsWith_prefix in Hx. destruct Hx as (r & Hr).
        exists [], r. exact Hr.
      * assert (Hcx : c :: x <> []) by discriminate.
        destruct (exists_last Hcx) as (t & h & Hth).
        apply (Hclear t h Hth).
        rewrite Hp, Hth, <- app_assoc.
        rewrite removelast_app by (cbn; destruct p2; [congruence | discriminate]).
        apply in_or_app. right. cbn. destruct p2; [congruence|]. left. reflexivity.
    + rewrite IH.
      * now destruct (search p y) as [[b a]|].
      * intros (a & b & ->). apply Hno. now exists (c :: a), b.
      * now apply closesClearOf_tail in Hclear.
Qed.

(** Replacing in [x ++ y] is replacing in [y] when no occurrence of the
    pattern begins in [x]. *)
Lemma replace_skip p r x y :
  ~ occurs p x -> closesClearOf p x -> patternFree r = true ->
  replace p r (x ++ y) = x ++ replace p r y.
Proof.
  intros Hno Hclear Hr. unfold replace. rewrite search_skip by assumption.
  destruct (search p y) as [[b a]|]; [|reflexivity].
  rewrite !getSubstitution_patternFree by assumption.
  now rewrite <- app_assoc.
Qed.





Lemma replace_absent p r s : includes p s = false -> replace p r s = s.
Proof.
  intros H. unfold replace. apply search_None in H. now rewrite H.
Qed.

End Strings.

(** ** The assembly line *)

Section AssemblyLine.

Import GeminiService.

Variable W : Type.
Variable generateContent : Request -> W -> Completion (option jsstring) * W.
Variables PROMPT_ARCHITECT PROMPT_ASSET_MANAGER PROMPT_SHELL
          PROMPT_CONTENT PROMPT_LOGIC : jsstring.


Lemma retryLoop_returned_inv T (fn : Operation W T) v : forall remaining i lastError st st',
  retryLoop fn remaining i lastError st = (Returned v, st') ->
  exists w w', fn w = (Returned v, w').
Proof.
  induction remaining as [|remaining IH]; intros i lastError st st'; cbn [retryLoop].
  - unfold throw. discriminate.
  - unfold tryCatch, invoke.
    destruct (fn (world st)) as [[v0|e] w'] eqn:Hfn.
    + intros [= -> _]. now exists (world st), w'.
    + destruct (isRateLimit e); [|unfold throw; discriminate].
      unfold bind, tell. apply IH.
Qed.

Lemma withRetry_returned_inv T (fn : Operation W T) maxRetries st v st' :
  withRetry fn maxRetries st = (Returned v, st') ->
  exists w w', fn w = (Returned v, w').
Proof. apply retryLoop_returned_inv. Qed.


End AssemblyLine.

Section Reflection.

Lemma existsb_eqb_In c s : existsb (Ascii.eqb c) s = true <-> In c s.
Proof.
  rewrite existsb_exists. split.
  - intros (x & Hin & Heq). apply Ascii.eqb_eq in Heq. now subst.
  - intros Hin. exists c. split; [exact Hin | apply Ascii.eqb_refl].
Qed.

Lemma opensClearb_sound m s : opensClearb m s = true -> opensClearOf m s.
Proof.
  intros H h t ->. cbn in H. intros Hin.
  apply existsb_eqb_In in Hin. now rewrite Hin in H.
Qed.

Lemma closesClearb_sound m s : closesClearb m s = true -> closesClearOf m s.
Proof.
  intros H t h ->. unfold closesClearb in H.
  rewrite rev_app_distr in H. cbn in H. intros Hin.
  apply existsb_eqb_In in Hin. now rewrite Hin in H.
Qed.

Lemma dollarFree_sound s : dollarFree s = true -> ~ In "$"%char s.
Proof.
  unfold dollarFree. intros H Hin.
  apply existsb_eqb_In in Hin. now rewrite Hin in H.
Qed.

End Reflection.

Section Assembly.

Import GeminiService.


Lemma body_opens_clear : opensClearOf BODY_CLOSE BODY_CLOSE.
Proof.
  intros h t Heq. injection Heq as <- _. cbn.
  intros H. repeat (destruct H as [H|H]; [discriminate H|]). exact H.
Qed.


Lemma opensClearOf_app m s r : s <> [] -> opensClearOf m s -> opensClearOf m (s ++ r).
Proof.
  intros Hne Hs h t Heq. destruct s as [|c s]; [congruence|].
  injection Heq as -> _. now apply (Hs h s).
Qed.

(** The template of the script splice is free of patterns when the script
    is. *)
Lemma script_template_patternFree script :
  patternFree script = true -> patternFree (script ++ BODY_CLOSE) = true.
Proof. intros H. apply patternFree_app; [exact H | reflexivity | reflexivity]. Qed.

Lemma closesClearOf_app_r m x s : s <> [] -> closesClearOf m s -> closesClearOf m (x ++ s).
Proof.
  intros Hne Hs t h Heq. destruct (exists_last Hne) as (t' & h' & Hth).
  rewrite Hth, app_assoc in Heq. apply app_inj_tail in Heq. destruct Heq as [_ <-].
  now apply (Hs t' h').
Qed.




(** The script lands after a text that holds no closing body tag and cannot
    begin one at its end. *)
Lemma insertScript_after doc rest script :
  ~ occurs BODY_CLOSE doc -> closesClearOf BODY_CLOSE doc ->
  patternFree script = true ->
  insertScript (doc ++ rest) script = doc ++ insertScript rest script.
Proof.
  intros Hno Hclear Hs. unfold insertScript.
  apply replace_skip; [exact Hno | exact Hclear | now apply script_template_patternFree].
Qed.

Lemma fallbackContainer_plain cleanContent :
  patternFree cleanContent = true -> patternFree (fallbackContainer cleanContent) = true.
Proof.
  intros Hfree. unfold fallbackContainer.
  rewrite patternFree_app_plain by reflexivity.
  apply patternFree_app; [exact Hfree | reflexivity | reflexivity].
Qed.


End Assembly.

Import GeminiService.




(** C4 at two inputs.  For a shell that has neither the marker nor a closing
    body tag, the run returns the shell as it came, and the content is
    nowhere in it.  For a shell with a closing body tag, a content that holds
    the replacement pattern [$&] comes out altered: the artifact does not
    hold the cleaned content. *)
Theorem fallback_loses_content :
  (includes CONTENT_PLACEHOLDER Fakes.bodilessShell = false /\
   Fakes.sampleContent <> [] /\
   exists st',
     Fakes.stagedRun Fakes.bodilessShell Fakes.sampleContent Fakes.sampleScript
     = (Returned Fakes.bodilessShell, st') /\
     includes Fakes.sampleContent Fakes.bodilessShell = false)
  /\
  (includes CONTENT_PLACEHOLDER Fakes.markerlessShell = false /\
   stripHtmlFences Fakes.priceContent = Fakes.priceContent /\
   exists html st',
     Fakes.stagedRun Fakes.markerlessShell Fakes.priceContent Fakes.sampleScript
     = (Returned html, st') /\
     includes Fakes.priceContent html = false).
Proof.
  split.
  - split; [reflexivity|]. split; [discriminate|].
    eexists. split; vm_compute; reflexivity.
  - split; [reflexivity|]. split; [reflexivity|].
    eexists. eexists. split; vm_compute; reflexivity.
Qed.

(** The fallback at work: with a closing body tag in the cleaned shell and
    none of the replacement patterns in the content, the container goes in
    front of the first such tag. *)
Lemma insertContent_fallback cleanShell cleanContent pre post :
  includes CONTENT_PLACEHOLDER cleanShell = false ->
  cleanShell = pre ++ BODY_CLOSE ++ post ->
  ~ occurs BODY_CLOSE pre ->
  patternFree cleanContent = true ->
  insertContent cleanShell cleanContent
  = pre ++ fallbackContainer cleanContent ++ post.
Proof.
  intros Hno -> Hpre Hdollar. unfold insertContent. rewrite Hno.
  apply replace_first; try assumption.
  - discriminate.
  - apply body_opens_clear.
  - now apply fallbackContainer_plain.
Qed.

(** ** Classification of errors *)

Section ErrorClassification.

Import Classification.

Lemma includes_errorMessage needle x :
  needle <> [] ->
  includes needle (errorMessage x) = true <-> messageContains needle x.
Proof.
  intros Hne. unfold messageContains. destruct x as [|e].
  - destruct needle; [congruence|]. cbn. split; [discriminate|].
    intros (e & m & He & _). discriminate.
  - cbn [errorMessage]. destruct (message e) as [m|] eqn:Hm.
    + rewrite includes_occurs. split.
      * intros Hocc. now exists e, m.
      * intros (e' & m' & He & Hm' & Hocc). injection He as <-. congruence.
    + destruct needle; [congruence|]. cbn. split; [discriminate|].
      intros (e' & m' & He & Hm' & _). injection He as <-. congruence.
Qed.

Lemma statusIs429_carries x : statusIs429 x = true <-> carriesStatus429 x.
Proof.
  unfold carriesStatus429. destruct x as [|e]; cbn [statusIs429].
  - split; [discriminate|]. intros (e & He & _). discriminate.
  - destruct (status e) as [n|] eqn:Hn.
    + rewrite Z.eqb_eq. split.
      * intros ->. now exists e.
      * intros (e' & He & Hs). injection He as <-. congruence.
    + split; [discriminate|]. intros (e' & He & Hs). injection He as <-. congruence.
Qed.

Lemma isRateLimit_signature x : isRateLimit x = true <-> rateLimitSignature x.
Proof.
  unfold isRateLimit, rateLimitSignature.
  rewrite !orb_true_iff, !includes_errorMessage, statusIs429_carries by discriminate.
  tauto.
Qed.

(** C3 as stated fails in both directions: a message that mentions 429 is
    classified as rate-limited without status 429 and without the words of
    the specification, and a message with those words, separated by a space,
    is not. *)
Lemma rate_limit_classification_differs :
  (isRateLimit Fakes.messageOnly429 = true /\ ~ specRateLimited Fakes.messageOnly429)
  /\
  (isRateLimit Fakes.spacedExhausted = false /\ specRateLimited Fakes.spacedExhausted).
Proof.
  split; split.
  - reflexivity.
  - intros [(e & He & Hs) | Hmsg].
    + injection He as <-. discriminate Hs.
    + apply includes_errorMessage in Hmsg; [|discriminate]. discriminate Hmsg.
  - reflexivity.
  - right. apply includes_errorMessage; [discriminate|]. reflexivity.
Qed.

Variable W : Type.
Variable T : Type.
Variable fn : Operation W T.

(** C3, as amended.  [withRetry] classifies a thrown value as rate-limited
    if and only if its lower-cased message contains [429] or
    [resource_exhausted] (with an underscore), or it carries status 429.  In
    every iteration of the loop an error so classified is followed by the
    backoff sleep and the next iteration; any other error is thrown at
    once. *)
Theorem withRetry_classification
        (remaining i : nat) (lastError e : Thrown) (st : State W) (w' : W) :
  fn (world st) = (Threw e, w') ->
  (isRateLimit e = true <-> rateLimitSignature e) /\
  (rateLimitSignature e ->
   retryLoop fn (S remaining) i lastError st
   = retryLoop fn remaining (S i) e
       (mkState w' (trace st ++ [Invoke; Warn (i + 1) (backoffDelay i);
                                 Sleep (backoffDelay i)]))) /\
  (~ rateLimitSignature e ->
   retryLoop fn (S remaining) i lastError st
   = (Threw e, mkState w' (trace st ++ [Invoke]))).
Proof.
  intros Hfn. split; [apply isRateLimit_signature|]. split.
  - intros Hsig. apply isRateLimit_signature in Hsig.
    erewrite retryLoop_backs_off by eassumption.
    cbn [backoffTrace app]. reflexivity.
  - intros Hsig. apply retryLoop_propagates; [exact Hfn|].
    destruct (isRateLimit e) eqn:Hrl; [|reflexivity].
    exfalso. apply Hsig. now apply isRateLimit_signature.
Qed.

End ErrorClassification.

Lemma withRetry_classification_witness :
  Fakes.flaky 4 0 = (Threw Fakes.quotaError, 1) /\
  Classification.rateLimitSignature Fakes.quotaError /\
  retryLoop (Fakes.flaky 4) 5 0 Undefined (mkState 0 [])
  = retryLoop (Fakes.flaky 4) 4 1 Fakes.quotaError
      (mkState 1 [Invoke; Warn 1 5000; Sleep 5000]).
Proof.
  assert (Hfn : Fakes.flaky 4 (world (mkState 0 [])) = (Threw Fakes.quotaError, 1))
    by reflexivity.
  destruct (@withRetry_classification nat jsstring (Fakes.flaky 4) 4 0 Undefined
              Fakes.quotaError (mkState 0 []) 1 Hfn) as (Hiff & Hretry & _).
  assert (Hsig : Classification.rateLimitSignature Fakes.quotaError)
    by (apply Hiff; reflexivity).
  split; [reflexivity|]. split; [exact Hsig | exact (Hretry Hsig)].
Defined.

(** ** Refinement *)

Section Refinement.

Variable W : Type.
Variable generateContent : Request -> W -> Completion (option jsstring) * W.

Lemma refinedText_nonempty text currentHtml :
  currentHtml <> [] -> refinedText text currentHtml <> [].
Proof.
  intros Hne. unfold refinedText. destruct text as [t|]; [|exact Hne].
  destruct (removeSuffix FENCE (removePrefix FENCE_HTML t)); cbn; [exact Hne | discriminate].
Qed.

Lemma refinedText_empty text currentHtml :
  text = None \/ text = Some [] -> refinedText text currentHtml = currentHtml.
Proof. intros [-> | ->]; reflexivity. Qed.

(** C10. When the model call of [refineLessonPlan] succeeds with a response
    whose text is absent or empty, the current artifact is returned as it is,
    after this single call.  Whenever a refinement returns, after however
    many rate-limited attempts, its value comes from the text of a response
    of the service: an absent or empty text gives the current artifact, and
    no text turns a non-empty artifact into an empty one. *)
Theorem refineLessonPlan_empty_text_keeps_artifact
        (currentHtml userRequest : jsstring) (st : State W)
        (text : option jsstring) (w' : W) :
  generateContent (refineRequest currentHtml userRequest) (world st) = (Returned text, w') ->
  text = None \/ text = Some [] ->
  refineLessonPlan generateContent currentHtml userRequest st
  = (Returned currentHtml, mkState w' (trace st ++ [Invoke]))
  /\
  (forall st0 v st1,
     refineLessonPlan generateContent currentHtml userRequest st0 = (Returned v, st1) ->
     exists text0 w0 w1,
       generateContent (refineRequest currentHtml userRequest) w0 = (Returned text0, w1) /\
       v = refinedText text0 currentHtml /\
       (text0 = None \/ text0 = Some [] -> v = currentHtml) /\
       (currentHtml <> [] -> v <> [])).
Proof.
  intros Hgen Htext. split.
  - unfold refineLessonPlan, withRetry, DEFAULT_MAX_RETRIES.
    apply retryLoop_returned. unfold refineOperation. rewrite Hgen.
    now rewrite refinedText_empty.
  - intros st0 v st1 Hrun.
    apply withRetry_returned_inv in Hrun. destruct Hrun as (w0 & w1 & Hop).
    unfold refineOperation in Hop.
    destruct (generateContent (refineRequest currentHtml userRequest) w0)
      as [[text0|x] w2] eqn:Hgen0; [|discriminate].
    injection Hop as <- <-. exists text0, w0, w2.
    split; [exact Hgen0|]. split; [reflexivity|]. split.
    + intros Hempty. now apply refinedText_empty.
    + intros Hne. now apply refinedText_nonempty.
Qed.

(** C6. When [refineLessonPlan] throws, [handleRefine] leaves the stored
    artifact as it was: the handler ends with [generatedHtml] unchanged, the
    view unchanged, the processing flag cleared, and one reply added to the
    chat after the request. *)
Theorem handleRefine_failure_keeps_artifact
        (request : jsstring) (app : App.AppState) (st st' : State W) (x : Thrown) :
  refineLessonPlan generateContent (App.generatedHtml app) request st = (Threw x, st') ->
  let app' := fst (App.handleRefine generateContent request app st) in
  App.generatedHtml app' = App.generatedHtml app /\
  App.currentView app' = App.currentView app /\
  App.isProcessing app' = false /\
  exists reply,
    App.chatMessages app'
    = App.chatMessages app ++ [App.mkMessage App.user request; App.mkMessage App.ai reply].
Proof.
  intros Hrun. unfold App.handleRefine. rewrite Hrun. cbn [fst].
  unfold App.setIsProcessing, App.addChatMessage, App.setStatusMessage.
  cbn [App.generatedHtml App.currentView App.isProcessing App.chatMessages].
  repeat split. eexists. rewrite <- app_assoc. reflexivity.
Qed.

End Refinement.

Lemma refineLessonPlan_empty_text_keeps_artifact_witness :
  Fakes.silentService (refineRequest (str "<p>old</p>") (str "Make it blue")) 0
  = (Returned None, 1) /\
  refineLessonPlan Fakes.silentService (str "<p>old</p>") (str "Make it blue")
                   (mkState 0 [])
  = (Returned (str "<p>old</p>"), mkState 1 [Invoke]).
Proof.
  assert (Hgen : Fakes.silentService
                   (refineRequest (str "<p>old</p>") (str "Make it blue"))
                   (world (mkState 0 [])) = (Returned None, 1)) by reflexivity.
  split; [exact Hgen|].
  exact (proj1 (@refineLessonPlan_empty_text_keeps_artifact nat Fakes.silentService
                  (str "<p>old</p>") (str "Make it blue") (mkState 0 []) None 1
                  Hgen (or_introl eq_refl))).
Defined.

Lemma handleRefine_failure_keeps_artifact_witness :
  (exists st',
     refineLessonPlan Fakes.failingService (App.generatedHtml Fakes.workspace)
                      (str "Make the quiz harder") (mkState 0 [])
     = (Threw Fakes.serverError, st')) /\
  App.generatedHtml
    (fst (App.handleRefine Fakes.failingService (str "Make the quiz harder")
                           Fakes.workspace (mkState 0 [])))
  = App.generatedHtml Fakes.workspace.
Proof.
  assert (Hrun : exists st',
             refineLessonPlan Fakes.failingService (App.generatedHtml Fakes.workspace)
                              (str "Make the quiz harder") (mkState 0 [])
             = (Threw Fakes.serverError, st')).
  { eexists. vm_compute. reflexivity. }
  split; [exact Hrun|].
  destruct Hrun as (st' & Hrun).
  exact (proj1 (@handleRefine_failure_keeps_artifact nat Fakes.failingService
                  (str "Make the quiz harder") Fakes.workspace (mkState 0 []) st'
                  Fakes.serverError Hrun)).
Defined.

(** ** Keyframe extraction *)

Section KeyframeExtraction.

Import InputForm.

Variable seeked : Video -> float -> bool.
Variable toDataURL : Video -> float -> Z -> Z -> jsstring.

Lemma split_without sep : forall s, ~ In sep s -> split sep s = [s].
Proof.
  induction s as [|c s IH]; intros Hno; [reflexivity|].
  cbn [split]. destruct (Ascii.eqb c sep) eqn:Hc.
  - apply Ascii.eqb_eq in Hc. exfalso. apply Hno. now left.
  - rewrite IH; [reflexivity|]. intros Hin. apply Hno. now right.
Qed.

Lemma split_at sep : forall header rest,
  ~ In sep header -> split sep (header ++ sep :: rest) = header :: split sep rest.
Proof.
  induction header as [|c header IH]; intros rest Hno.
  - cbn [app split]. now rewrite Ascii.eqb_refl.
  - cbn [app split]. destruct (Ascii.eqb c sep) eqn:Hc.
    + apply Ascii.eqb_eq in Hc. exfalso. apply Hno. now left.
    + rewrite IH; [reflexivity|]. intros Hin. apply Hno. now right.
Qed.

(** The frame taken from a data URL is what follows its comma. *)
Lemma grabFrame_payload video time header payload :
  toDataURL video time (videoWidth video / 2)%Z (videoHeight video / 2)%Z
  = header ++ ","%char :: payload ->
  ~ In ","%char header -> ~ In ","%char payload ->
  grabFrame toDataURL video time = Some payload.
Proof.
  intros Hurl Hheader Hpayload. unfold grabFrame.
  now rewrite Hurl, split_at, split_without.
Qed.

(** What an extraction that has settled or hangs has sought: the first of
    the three timestamps, in order, and all three when it resolved. *)
Lemma extractKeyframes_outcomes
      (video : Video) (outcome : Settled Keyframes) (sought : list float) :
  extractKeyframes seeked toDataURL (Some video) = (outcome, sought) ->
  (exists rest, timestamps (duration video) = sought ++ rest) /\
  (forall frames, outcome = Resolved frames ->
     sought = timestamps (duration video) /\
     frames = map (grabFrame toDataURL video) sought /\
     (forall t, In t sought -> PrimFloat.is_finite t = true /\ seeked video t = true)).
Proof.
  intros Hrun.
  unfold extractKeyframes, timestamps in Hrun. cbn [grabFrames app] in Hrun.
  unfold timestamps.
  set (t1 := (duration video * 0.1)%float) in *.
  set (t2 := (duration video * 0.5)%float) in *.
  set (t3 := (duration video * 0.9)%float) in *.
  destruct (PrimFloat.is_finite t1) eqn:F1; cbn [negb] in Hrun;
    [destruct (seeked video t1) eqn:S1;
     [destruct (PrimFloat.is_finite t2) eqn:F2; cbn [negb] in Hrun;
      [destruct (seeked video t2) eqn:S2;
       [destruct (PrimFloat.is_finite t3) eqn:F3; cbn [negb] in Hrun;
        [destruct (seeked video t3) eqn:S3| ]| ]| ]| ]| ];
    injection Hrun as <- <-.
  all: split; [eexists; cbn [app]; reflexivity|].
  all: intros frames Hf; try discriminate Hf.
  injection Hf as <-. split; [reflexivity|]. split; [reflexivity|].
  intros t [<- | [<- | [<- | []]]]; split; assumption.
Qed.

(** C7. For every video whose metadata has loaded with duration [d] and
    whose three timestamps [0.1 * d], [0.5 * d] and [0.9 * d] are finite
    numbers at which the [seeked] event fires, the extraction resolves: it
    has sought exactly these three times, in this order, and it yields
    exactly three keyframes, one per time, each being what follows the comma
    of the data URL of the frame, and undefined for a URL without a comma.
    For a video of 30 seconds the times are 3, 15 and 27. *)
Theorem extractKeyframes_three_samples (video : Video) :
  (forall t, In t (timestamps (duration video)) ->
             PrimFloat.is_finite t = true /\ seeked video t = true) ->
  timestamps (duration video)
  = [(duration video * 0.1)%float; (duration video * 0.5)%float;
     (duration video * 0.9)%float] /\
  extractKeyframes seeked toDataURL (Some video)
  = (Resolved (map (grabFrame toDataURL video) (timestamps (duration video))),
     timestamps (duration video)) /\
  List.length (map (grabFrame toDataURL video) (timestamps (duration video))) = 3 /\
  (forall t header payload,
     toDataURL video t (videoWidth video / 2)%Z (videoHeight video / 2)%Z
     = header ++ ","%char :: payload ->
     ~ In ","%char header -> ~ In ","%char payload ->
     grabFrame toDataURL video t = Some payload) /\
  (forall t,
     ~ In ","%char (toDataURL video t (videoWidth video / 2)%Z (videoHeight video / 2)%Z) ->
     grabFrame toDataURL video t = None) /\
  (duration video = 30%float ->
   extractKeyframes seeked toDataURL (Some video)
   = (Resolved [grabFrame toDataURL video 3%float; grabFrame toDataURL video 15%float;
                grabFrame toDataURL video 27%float],
      [3%float; 15%float; 27%float])).
Proof.
  intros Hall.
  assert (Hrun : extractKeyframes seeked toDataURL (Some video)
                 = (Resolved (map (grabFrame toDataURL video) (timestamps (duration video))),
                    timestamps (duration video))).
  { unfold extractKeyframes, timestamps in *. cbn [grabFrames app map].
    destruct (Hall (duration video * 0.1)%float) as [F1 S1]; [now left|].
    destruct (Hall (duration video * 0.5)%float) as [F2 S2]; [right; now left|].
    destruct (Hall (duration video * 0.9)%float) as [F3 S3]; [right; right; now left|].
    rewrite F1, S1, F2, S2, F3, S3. reflexivity. }
  split; [reflexivity|]. split; [exact Hrun|]. split; [reflexivity|].
  split; [intros t header payload; apply grabFrame_payload|].
  split; [intros t Hno; unfold grabFrame; now rewrite split_without|].
  intros H30. rewrite Hrun, H30. reflexivity.
Qed.

End KeyframeExtraction.

Lemma extractKeyframes_three_samples_witness :
  (forall t, In t (InputForm.timestamps (InputForm.duration Fakes.halfMinuteVideo)) ->
             PrimFloat.is_finite t = true /\ Fakes.alwaysSeeked Fakes.halfMinuteVideo t = true) /\
  InputForm.extractKeyframes Fakes.alwaysSeeked Fakes.samePicture
    (Some Fakes.halfMinuteVideo)
  = (InputForm.Resolved [Some (str "/9j/4AAQ"); Some (str "/9j/4AAQ"); Some (str "/9j/4AAQ")],
     [3%float; 15%float; 27%float]).
Proof.
  assert (Hall : forall t,
             In t (InputForm.timestamps (InputForm.duration Fakes.halfMinuteVideo)) ->
             PrimFloat.is_finite t = true /\ Fakes.alwaysSeeked Fakes.halfMinuteVideo t = true).
  { intros t [<- | [<- | [<- | []]]]; split; reflexivity. }
  split; [exact Hall|].
  destruct (@extractKeyframes_three_samples Fakes.alwaysSeeked Fakes.samePicture
              Fakes.halfMinuteVideo Hall) as (_ & _ & _ & Hframe & _ & H30).
  rewrite (H30 eq_refl).
  rewrite (Hframe 3%float (str "data:image/jpeg;base64") (str "/9j/4AAQ") eq_refl)
    by (intros H; repeat (destruct H as [H|H]; [discriminate H|]); exact H).
  rewrite (Hframe 15%float (str "data:image/jpeg;base64") (str "/9j/4AAQ") eq_refl)
    by (intros H; repeat (destruct H as [H|H]; [discriminate H|]); exact H).
  rewrite (Hframe 27%float (str "data:image/jpeg;base64") (str "/9j/4AAQ") eq_refl)
    by (intros H; repeat (destruct H as [H|H]; [discriminate H|]); exact H).
  reflexivity.
Defined.

(** ** The export file name *)

Section ExportFileName.

Import App ExportName.

Lemma isUnsafe_unsafeChars c : isUnsafe c = true <-> In c unsafeChars.
Proof.
  unfold isUnsafe, unsafeChars. cbn [In].
  rewrite !orb_true_iff, !Ascii.eqb_eq.
  intuition (auto; congruence).
Qed.

(** Character by character, [sanitize] puts a hyphen for an unsafe character
    and keeps every other one. *)
Lemma sanitize_pointwise t :
  Forall2 (fun c c' => (In c unsafeChars -> c' = "-"%char)
                       /\ (~ In c unsafeChars -> c' = c))
          t (sanitize t).
Proof.
  induction t as [|c t IH]; [constructor|].
  cbn [sanitize map]. constructor; [|exact IH].
  destruct (isUnsafe c) eqn:Hc.
  - apply isUnsafe_unsafeChars in Hc. tauto.
  - split; [|reflexivity]. intros Hin. apply isUnsafe_unsafeChars in Hin. congruence.
Qed.

Lemma nat_of_ascii_inj a b : nat_of_ascii a = nat_of_ascii b -> a = b.
Proof.
  intros H. rewrite <- (ascii_nat_embedding a), <- (ascii_nat_embedding b).
  now rewrite H.
Qed.

Lemma ascii_of_nat_eq n c : n < 256 -> (ascii_of_nat n = c <-> nat_of_ascii c = n).
Proof.
  intros Hn. split.
  - intros <-. now apply nat_ascii_embedding.
  - intros <-. apply ascii_nat_embedding.
Qed.

(** *** Matching without regard to case *)

Lemma canonicalize_nat c :
  nat_of_ascii (canonicalize c)
  = if (97 <=? nat_of_ascii c) && (nat_of_ascii c <=? 122)
    then nat_of_ascii c - 32 else nat_of_ascii c.
Proof.
  unfold canonicalize.
  destruct ((97 <=? nat_of_ascii c) && (nat_of_ascii c <=? 122)); [|reflexivity].
  apply nat_ascii_embedding. pose proof (nat_ascii_bounded c). lia.
Qed.

(** Two characters match under the [i] flag exactly when they are the same
    or the same letter in the two cases. *)
Lemma eqbCI_sameLetter a b : eqbCI a b = true <-> sameLetter a b.
Proof.
  unfold eqbCI, sameLetter, asciiLetter. rewrite Ascii.eqb_eq. split.
  - intros H. apply (f_equal nat_of_ascii) in H. rewrite !canonicalize_nat in H.
    destruct (Nat.leb_spec 97 (nat_of_ascii a)), (Nat.leb_spec (nat_of_ascii a) 122),
             (Nat.leb_spec 97 (nat_of_ascii b)), (Nat.leb_spec (nat_of_ascii b) 122);
      cbn [andb] in H;
      first [ left; apply nat_of_ascii_inj; lia | right; lia ].
  - intros [-> | (Ha & Hb & Hd)]; [reflexivity|].
    apply nat_of_ascii_inj. rewrite !canonicalize_nat.
    destruct (Nat.leb_spec 97 (nat_of_ascii a)), (Nat.leb_spec (nat_of_ascii a) 122),
             (Nat.leb_spec 97 (nat_of_ascii b)), (Nat.leb_spec (nat_of_ascii b) 122);
      cbn [andb]; lia.
Qed.

(** The pattern matches at the current position exactly when a spelling of
    it stands there. *)
Lemma startsWithCI_spells p : forall s,
  startsWithCI p s = true <-> exists tag r, s = tag ++ r /\ spells p tag.
Proof.
  unfold spells. induction p as [|a p IH]; intros s.
  - cbn [startsWithCI]. split; [|reflexivity].
    intros _. exists [], s. split; [reflexivity | constructor].
  - destruct s as [|b s]; cbn [startsWithCI].
    + split; [discriminate|]. intros (tag & r & Heq & Hsp).
      inversion Hsp; subst. discriminate.
    + rewrite andb_true_iff, eqbCI_sameLetter, IH. split.
      * intros (Hab & tag & r & -> & Hsp). exists (b :: tag), r.
        split; [reflexivity | now constructor].
      * intros (tag & r & Heq & Hsp).
        inversion Hsp as [|a' b' p' tag' Hab Hrest]; subst.
        injection Heq as -> ->. split; [exact Hab | now exists tag', r].
Qed.

Lemma spells_length p tag : spells p tag -> List.length tag = List.length p.
Proof. intros H. symmetry. exact (Forall2_length H). Qed.

(** A text as long as the pattern that matches it spells it. *)
Lemma spells_check p tag :
  List.length tag = List.length p -> startsWithCI p tag = true -> spells p tag.
Proof.
  intros Hlen H. apply startsWithCI_spells in H.
  destruct H as (tag' & r & -> & Hsp).
  pose proof (spells_length Hsp) as Hlen'. rewrite length_app in Hlen.
  destruct r; [now rewrite app_nil_r | cbn in Hlen; lia].
Qed.

Lemma holds_holdsb p s : holds p s -> holdsb p s = true.
Proof.
  intros (a & tag & b & -> & Hsp). induction a as [|c a IH].
  - cbn [app].
    assert (H : startsWithCI p (tag ++ b) = true)
      by (apply startsWithCI_spells; now exists tag, b).
    destruct (tag ++ b); cbn [holdsb]; now rewrite H.
  - cbn [app holdsb].
    destruct (startsWithCI p (c :: a ++ tag ++ b)); [reflexivity | exact IH].
Qed.

Lemma firstTag_check p before tag :
  holdsb p (before ++ removelast tag) = false -> firstTag p before tag.
Proof. intros H Hholds. apply holds_holdsb in Hholds. congruence. Qed.

Lemma firstTag_tail p c before tag :
  firstTag p (c :: before) tag -> firstTag p before tag.
Proof.
  intros H (a & tag' & b & Heq & Hsp). apply H.
  exists (c :: a), tag', b. split; [|exact Hsp]. cbn [app]. now rewrite Heq.
Qed.

Lemma prefix_within (tag r : jsstring) : forall x y,
  tag ++ r = x ++ y -> List.length tag <= List.length x -> exists l, x = tag ++ l.
Proof.
  induction tag as [|c tag IH]; intros x y Heq Hlen.
  - now exists x.
  - destruct x as [|d x]; [cbn in Hlen; lia|]. injection Heq as -> Heq.
    destruct (IH x y Heq) as (l & ->); [cbn in Hlen; lia|]. now exists l.
Qed.

(** In front of the first spelling of the pattern, the pattern does not
    match. *)
Lemma earlier_tag_blocked p x tag rest :
  spells p tag -> x <> [] -> firstTag p x tag ->
  startsWithCI p (x ++ tag ++ rest) = false.
Proof.
  intros Hsp Hx Hfirst.
  destruct (startsWithCI p (x ++ tag ++ rest)) eqn:Hs; [|reflexivity].
  exfalso. apply Hfirst.
  apply startsWithCI_spells in Hs. destruct Hs as (tag' & r & Heq & Hsp').
  pose proof (spells_length Hsp) as Hlen. pose proof (spells_length Hsp') as Hlen'.
  destruct tag as [|z tag _] using rev_ind.
  - rewrite app_nil_r. cbn [app] in Heq. cbn [removelast].
    cbn [List.length] in Hlen. rewrite <- Hlen in Hlen'.
    apply length_zero_iff_nil in Hlen'. subst tag'.
    exists [], [], x. split; [reflexivity | exact Hsp'].
  - rewrite removelast_last. rewrite <- app_assoc, app_assoc in Heq.
    symmetry in Heq. apply prefix_within in Heq.
    + destruct Heq as (l & Heq). exists [], tag', l. split; [exact Heq | exact Hsp'].
    + rewrite !length_app in *. cbn [List.length] in *.
      destruct x; [congruence | cbn [List.length]; lia].
Qed.

Lemma isLineTerminator_chars c : isLineTerminator c = true <-> In c lineTerminators.
Proof.
  unfold isLineTerminator, lineTerminators. cbn [map In].
  rewrite !ascii_of_nat_eq by lia.
  rewrite orb_true_iff, !Nat.eqb_eq. tauto.
Qed.

Lemma oneLine_check t :
  oneLineb t = true -> forall c, In c t -> ~ In c lineTerminators.
Proof.
  unfold oneLineb. intros H c Hin Hterm. apply negb_true_iff in H.
  assert (Hex : existsb (fun c => existsb (Ascii.eqb c) lineTerminators) t = true).
  { apply existsb_exists. exists c. split; [exact Hin|].
    apply existsb_exists. exists c. split; [exact Hterm | apply Ascii.eqb_refl]. }
  congruence.
Qed.

Lemma lazyUntilClose_here s :
  startsWithCI TITLE_CLOSE s = true -> lazyUntilClose s = Some [].
Proof. intros H. destruct s; cbn [lazyUntilClose]; now rewrite H. Qed.

(** The lazy group takes the text up to the first closing tag, when that
    text stays on one line. *)
Lemma lazyUntilClose_complete : forall t close post,
  spells TITLE_CLOSE close ->
  (forall c, In c t -> ~ In c lineTerminators) ->
  firstTag TITLE_CLOSE t close ->
  lazyUntilClose (t ++ close ++ post) = Some t.
Proof.
  induction t as [|c t IH]; intros close post Hsp Hline Hfirst.
  - cbn [app]. apply lazyUntilClose_here.
    apply startsWithCI_spells. now exists close, post.
  - pose proof (@earlier_tag_blocked TITLE_CLOSE (c :: t) close post Hsp) as Hblocked.
    cbn [app] in *. cbn [lazyUntilClose].
    rewrite Hblocked; [|discriminate|exact Hfirst].
    destruct (isLineTerminator c) eqn:Hc.
    { exfalso. apply isLineTerminator_chars in Hc. apply (Hline c); [now left | exact Hc]. }
    rewrite IH; [reflexivity | exact Hsp | | now apply firstTag_tail in Hfirst].
    intros c' Hin. apply Hline. now right.
Qed.

Lemma lazyUntilClose_sound : forall s t,
  lazyUntilClose s = Some t ->
  exists close post,
    s = t ++ close ++ post /\
    spells TITLE_CLOSE close /\
    forall c, In c t -> ~ In c lineTerminators.
Proof.
  induction s as [|c s IH]; intros t; cbn [lazyUntilClose].
  - destruct (startsWithCI TITLE_CLOSE []) eqn:Hs; [discriminate Hs | discriminate].
  - destruct (startsWithCI TITLE_CLOSE (c :: s)) eqn:Hs.
    + intros [= <-]. apply startsWithCI_spells in Hs.
      destruct Hs as (q & r & Hqr & Hq).
      exists q, r. split; [exact Hqr|]. split; [exact Hq|]. intros c' [].
    + destruct (isLineTerminator c) eqn:Hc; [discriminate|].
      destruct (lazyUntilClose s) as [t'|]; [|discriminate].
      intros [= <-]. destruct (IH t' eq_refl) as (close & post & -> & Hclose & Hline).
      exists close, post. split; [reflexivity|]. split; [exact Hclose|].
      intros c' [<- | Hin]; [|now apply Hline].
      intros Hterm. apply isLineTerminator_chars in Hterm. congruence.
Qed.

Lemma titleHere_element open t close post :
  titleElement open t close -> firstTag TITLE_CLOSE t close ->
  titleHere (open ++ t ++ close ++ post) = Some t.
Proof.
  intros (Hopen & Hclose & Hline) Hfirst. unfold titleHere.
  assert (Hs : startsWithCI TITLE_OPEN (open ++ t ++ close ++ post) = true)
    by (apply startsWithCI_spells; now exists open, (t ++ close ++ post)).
  rewrite Hs, <- (spells_length Hopen), skipn_app, skipn_all, Nat.sub_diag.
  cbn [skipn app]. now apply lazyUntilClose_complete.
Qed.

Lemma titleMatch_here s t : titleHere s = Some t -> titleMatch s = Some t.
Proof. intros H. destruct s; cbn [titleMatch]; now rewrite H. Qed.

(** The regular expression finds the first title element of the document
    and captures its text. *)
Lemma titleMatch_complete : forall pre open t close post,
  titleElement open t close ->
  firstTag TITLE_OPEN pre open ->
  firstTag TITLE_CLOSE t close ->
  titleMatch (pre ++ open ++ t ++ close ++ post) = Some t.
Proof.
  induction pre as [|c pre IH]; intros open t close post Hel Hopen Hclose.
  - cbn [app]. apply titleMatch_here. now apply titleHere_element.
  - pose proof Hel as (Hsp & _ & _).
    pose proof (@earlier_tag_blocked TITLE_OPEN (c :: pre) open (t ++ close ++ post) Hsp)
      as Hblocked.
    cbn [app] in *. cbn [titleMatch]. unfold titleHere at 1.
    rewrite Hblocked; [|discriminate|exact Hopen].
    apply IH; [exact Hel | now apply firstTag_tail in Hopen | exact Hclose].
Qed.

(** What the regular expression captures is the text of a title element of
    the document. *)
Lemma titleMatch_sound : forall html t,
  titleMatch html = Some t ->
  exists pre open close post,
    html = pre ++ open ++ t ++ close ++ post /\ titleElement open t close.
Proof.
  induction html as [|c html IH]; intros t; cbn [titleMatch].
  - cbv. discriminate.
  - destruct (titleHere (c :: html)) as [t'|] eqn:Hhere.
    + intros [= ->]. unfold titleHere in Hhere.
      destruct (startsWithCI TITLE_OPEN (c :: html)) eqn:Hopen; [|discriminate].
      apply startsWithCI_spells in Hopen. destruct Hopen as (q & r & Hqr & Hq).
      rewrite Hqr, skipn_app, <- (spells_length Hq), skipn_all, Nat.sub_diag in Hhere.
      cbn [skipn app] in Hhere.
      destruct (lazyUntilClose_sound _ Hhere) as (close & post & -> & Hclose & Hline).
      exists [], q, close, post. split; [exact Hqr|].
      unfold titleElement. split; [exact Hq|]. split; [exact Hclose | exact Hline].
    + intros Hlater. destruct (IH t Hlater) as (pre & open & close & post & -> & Hel).
      exists (c :: pre), open, close, post. split; [reflexivity | exact Hel].
Qed.

Lemma titleMatch_nonempty html t : titleMatch html = Some t -> truthy html = true.
Proof. destruct html; [cbv; discriminate | reflexivity]. Qed.

(** *** Trimming *)

Lemma isWhiteSpace_chars c : isWhiteSpace c = true <-> white c.
Proof.
  unfold isWhiteSpace, white, whiteSpaceChars. cbn [map In].
  rewrite !ascii_of_nat_eq by lia.
  rewrite !orb_true_iff, andb_true_iff, !Nat.leb_le, !Nat.eqb_eq. lia.
Qed.

Lemma trimStart_split s :
  exists lead,
    s = lead ++ trimStart s /\ Forall white lead /\
    (forall c r, trimStart s = c :: r -> ~ white c).
Proof.
  induction s as [|c s (lead & Heq & Hlead & Hedge)].
  - exists []. split; [reflexivity|]. split; [constructor | discriminate].
  - cbn [trimStart]. destruct (isWhiteSpace c) eqn:Hc.
    + exists (c :: lead). split; [cbn [app]; now f_equal|]. split; [|exact Hedge].
      constructor; [now apply isWhiteSpace_chars | exact Hlead].
    + exists []. split; [reflexivity|]. split; [constructor|].
      intros c' r [= <- _] Hw. apply isWhiteSpace_chars in Hw. congruence.
Qed.

Lemma trimStart_app lead rest :
  Forall white lead -> (forall c r, rest = c :: r -> ~ white c) ->
  trimStart (lead ++ rest) = rest.
Proof.
  intros Hlead Hrest. induction Hlead as [|c lead Hc _ IH].
  - cbn [app]. destruct rest as [|c r]; [reflexivity|]. cbn [trimStart].
    destruct (isWhiteSpace c) eqn:Hc; [|reflexivity].
    apply isWhiteSpace_chars in Hc. now destruct (Hrest c r eq_refl).
  - cbn [app trimStart]. apply isWhiteSpace_chars in Hc. now rewrite Hc.
Qed.

(** [trim] leaves out the white space around a text, and nothing else. *)
Lemma trim_trimmed s : trimmed s (trim s).
Proof.
  unfold trimmed, trim, trimEnd.
  destruct (trimStart_split s) as (lead & Hs & Hlead & Hfirst).
  destruct (trimStart_split (rev (trimStart s))) as (tail & Hr & Htail & Hlast).
  assert (Hu : trimStart s = rev (trimStart (rev (trimStart s))) ++ rev tail).
  { rewrite <- rev_app_distr, <- Hr. now rewrite rev_involutive. }
  exists lead, (rev tail). split; [now rewrite <- Hu|]. split; [exact Hlead|].
  split; [now apply Forall_rev|]. split.
  - intros c r Hc. apply (Hfirst c (r ++ rev tail)). rewrite Hu, Hc. reflexivity.
  - intros r c Hc. apply (Hlast c (rev r)).
    apply (f_equal (@rev ascii)) in Hc.
    rewrite rev_involutive, rev_app_distr in Hc. exact Hc.
Qed.

(** Only one text is [s] without the white space around it. *)
Lemma trimmed_trim s core : trimmed s core -> core = trim s.
Proof.
  intros (lead & trail & -> & Hlead & Htrail & Hfirst & Hlast).
  unfold trim, trimEnd. destruct core as [|c core].
  - cbn [app]. rewrite <- (app_nil_r (lead ++ trail)).
    rewrite trimStart_app; [reflexivity | | discriminate].
    apply Forall_app. now split.
  - rewrite trimStart_app; [|exact Hlead|].
    2:{ intros c' r [= <- _]. now apply (Hfirst c core). }
    rewrite rev_app_distr, trimStart_app; [now rewrite rev_involutive | now apply Forall_rev |].
    intros c' r Hrev. apply (Hlast (rev r) c').
    apply (f_equal (@rev ascii)) in Hrev.
    rewrite rev_involutive in Hrev. rewrite Hrev. reflexivity.
Qed.

(** *** Decimal digits *)

Lemma digitsOf_small fuel n :
  (n < 10)%Z -> digitsOf (S fuel) n = [digitChar n].
Proof.
  intros Hn. cbn [digitsOf].
  destruct (n <? 10)%Z eqn:Hlt; [reflexivity|]. apply Z.ltb_ge in Hlt. lia.
Qed.

Lemma digitsOf_step fuel n :
  (10 <= n)%Z ->
  digitsOf (S fuel) n = digitsOf fuel (n / 10) ++ [digitChar (n mod 10)].
Proof.
  intros Hn. cbn [digitsOf].
  destruct (n <? 10)%Z eqn:Hlt; [|reflexivity]. apply Z.ltb_lt in Hlt. lia.
Qed.

Lemma digitsOf_last fuel n :
  (0 <= n)%Z -> exists init, digitsOf (S fuel) n = init ++ [digitChar (n mod 10)].
Proof.
  intros Hn. destruct (Z_lt_ge_dec n 10) as [Hlt|Hge].
  - exists []. rewrite digitsOf_small by assumption.
    now rewrite Z.mod_small by lia.
  - eexists. apply digitsOf_step. lia.
Qed.

Lemma numberToString_two_last n :
  (10 <= n)%Z ->
  exists init,
    numberToString n = init ++ [digitChar (n / 10 mod 10); digitChar (n mod 10)].
Proof.
  intros Hn. unfold numberToString.
  destruct (n <? 0)%Z eqn:Hneg; [apply Z.ltb_lt in Hneg; lia|].
  destruct (Z.to_nat n) as [|fuel] eqn:Hfuel; [lia|].
  rewrite digitsOf_step by assumption.
  destruct (@digitsOf_last fuel (n / 10)) as (init & Hinit).
  { apply Z.div_pos; lia. }
  exists init. rewrite Hinit, <- app_assoc. reflexivity.
Qed.

Lemma sliceLast2_year y :
  (10 <= y)%Z -> sliceLast2 (numberToString y) = twoDigits (y mod 100).
Proof.
  intros Hy. destruct (numberToString_two_last Hy) as (init & ->).
  unfold sliceLast2, twoDigits. rewrite length_app. cbn [List.length].
  replace (List.length init + 2 - 2) with (List.length init + 0) by lia.
  rewrite skipn_app, Nat.add_0_r, skipn_all.
  replace (List.length init - List.length init) with 0 by lia. cbn [skipn app].
  f_equal; [|f_equal]; f_equal.
  - Z.to_euclidean_division_equations. lia.
  - Z.to_euclidean_division_equations. lia.
Qed.

Lemma padStart2_twoDigits n :
  (0 <= n < 100)%Z -> padStart2 (numberToString n) = twoDigits n.
Proof.
  intros Hn. unfold twoDigits.
  destruct (Z_lt_ge_dec n 10) as [Hlt|Hge].
  - unfold numberToString.
    destruct (n <? 0)%Z eqn:Hneg; [apply Z.ltb_lt in Hneg; lia|].
    rewrite digitsOf_small by assumption.
    unfold padStart2. cbn [List.length Nat.sub repeat app].
    replace (n / 10 mod 10)%Z with 0%Z by (Z.to_euclidean_division_equations; lia).
    replace (n mod 10)%Z with n by (Z.to_euclidean_division_equations; lia).
    reflexivity.
  - unfold numberToString.
    destruct (n <? 0)%Z eqn:Hneg; [apply Z.ltb_lt in Hneg; lia|].
    destruct (Z.to_nat n) as [|fuel] eqn:Hfuel; [lia|].
    rewrite digitsOf_step by lia.
    destruct fuel as [|fuel]; [lia|].
    rewrite digitsOf_small by (Z.to_euclidean_division_equations; lia).
    unfold padStart2. cbn [List.length Nat.sub repeat app].
    replace (n / 10 mod 10)%Z with (n / 10)%Z by (Z.to_euclidean_division_equations; lia).
    reflexivity.
Qed.

Lemma dateStr_mmddyy now : validDate now -> dateStr now = mmddyy now.
Proof.
  intros (Hm & Hd & Hy). unfold dateStr, mmddyy.
  rewrite !padStart2_twoDigits by lia.
  now rewrite sliceLast2_year.
Qed.

(** C8.  The pattern of [handleDownload] matches the title element of the
    artifact: when the artifact holds an opening and a closing title tag,
    spelled in any case, around a text [t] that stays on one line, the
    opening tag being the first of the artifact and the closing tag the first
    after it, the pattern captures [t].  Whenever the pattern matches, what
    it captures is the text [t] of a title element of the artifact, and the
    download is named after it: [t] with each of the nine unsafe characters
    replaced by a hyphen and every other character kept, without the white
    space around it, then [-sway-], the date as MM.DD.YY and [.html].  A
    title reading [Coffee Shop: Level A2] gives
    [Coffee Shop- Level A2-sway-MM.DD.YY.html]. *)
Theorem downloadFileName_from_title (html : jsstring) (now : Date) :
  validDate now ->
  (forall pre open t close post,
     html = pre ++ open ++ t ++ close ++ post ->
     titleElement open t close ->
     firstTag TITLE_OPEN pre open ->
     firstTag TITLE_CLOSE t close ->
     titleMatch html = Some t) /\
  (forall t,
     titleMatch html = Some t ->
     (exists pre open close post,
        html = pre ++ open ++ t ++ close ++ post /\ titleElement open t close) /\
     Forall2 (fun c c' => (In c unsafeChars -> c' = "-"%char)
                          /\ (~ In c unsafeChars -> c' = c))
             t (sanitize t) /\
     (exists core,
        trimmed (sanitize t) core /\
        (forall core', trimmed (sanitize t) core' -> core' = core) /\
        downloadFileName html now
        = Some (core ++ str "-sway-" ++ mmddyy now ++ str ".html")) /\
     (t = str "Coffee Shop: Level A2" ->
      downloadFileName html now
      = Some (str "Coffee Shop- Level A2-sway-" ++ mmddyy now ++ str ".html"))).
Proof.
  intros Hdate. split.
  - intros pre open t close post -> Hel Hopen Hclose.
    now apply titleMatch_complete.
  - intros t Hmatch.
    assert (Hname : downloadFileName html now
                    = Some (trim (sanitize t) ++ str "-sway-" ++ mmddyy now ++ str ".html")).
    { unfold downloadFileName, filenameBase.
      rewrite (titleMatch_nonempty _ Hmatch), Hmatch, dateStr_mmddyy by assumption.
      reflexivity. }
    split; [now apply titleMatch_sound|].
    split; [apply sanitize_pointwise|].
    split.
    + exists (trim (sanitize t)). split; [apply trim_trimmed|].
      split; [|exact Hname]. intros core' Hcore. now apply trimmed_trim.
    + intros Ht. rewrite Hname, Ht. reflexivity.
Qed.

End ExportFileName.

Lemma downloadFileName_from_title_witness :
  ExportName.validDate Fakes.firstOfNovember2026 /\
  App.titleMatch Fakes.shoutedTitleHtml = Some (str "  Coffee Shop: Level A2 ") /\
  exists core,
    ExportName.trimmed (App.sanitize (str "  Coffee Shop: Level A2 ")) core /\
    core = str "Coffee Shop- Level A2" /\
    App.downloadFileName Fakes.shoutedTitleHtml Fakes.firstOfNovember2026
    = Some (core ++ str "-sway-11.01.26.html").
Proof.
  assert (Hdate : ExportName.validDate Fakes.firstOfNovember2026)
    by (unfold ExportName.validDate; cbn; lia).
  split; [exact Hdate|].
  destruct (@downloadFileName_from_title Fakes.shoutedTitleHtml
              Fakes.firstOfNovember2026 Hdate) as (Hcomplete & Hnamed).
  assert (Hmatch : App.titleMatch Fakes.shoutedTitleHtml
                   = Some (str "  Coffee Shop: Level A2 ")).
  { apply (Hcomplete (str "<html><head>") (str "<TITLE>")
                     (str "  Coffee Shop: Level A2 ") (str "</Title>")
                     (str "</head><body></body></html>")).
    - reflexivity.
    - split; [apply spells_check; reflexivity|].
      split; [apply spells_check; reflexivity|].
      apply oneLine_check. reflexivity.
    - apply firstTag_check. reflexivity.
    - apply firstTag_check. reflexivity. }
  split; [exact Hmatch|].
  destruct (Hnamed _ Hmatch) as (_ & _ & (core & Htrim & _ & Hname) & _).
  exists core. split; [exact Htrim|].
  assert (Hcore : core = str "Coffee Shop- Level A2").
  { assert (Hc : App.downloadFileName Fakes.shoutedTitleHtml Fakes.firstOfNovember2026
                 = Some (str "Coffee Shop- Level A2"
                         ++ str "-sway-" ++ ExportName.mmddyy Fakes.firstOfNovember2026
                         ++ str ".html")) by reflexivity.
    rewrite Hc in Hname.
    assert (Heq : str "Coffee Shop- Level A2"
                  ++ str "-sway-" ++ ExportName.mmddyy Fakes.firstOfNovember2026
                  ++ str ".html"
                  = core ++ str "-sway-" ++ ExportName.mmddyy Fakes.firstOfNovember2026
                    ++ str ".html") by congruence.
    symmetry. exact (app_inv_tail _ _ _ Heq). }
  split; [exact Hcore|].
  rewrite Hname, Hcore. reflexivity.
Defined.

(** ** The media normaliser *)

Section MediaNormalizer.

Import InputForm.

Lemma eqb_eq a : forall b, Js.eqb a b = true <-> a = b.
Proof.
  induction a as [|x a IH]; intros [|y b]; cbn; try (split; congruence).
  rewrite andb_true_iff, Ascii.eqb_eq, IH. split.
  - intros [-> ->]. reflexivity.
  - intros [= -> ->]. split; reflexivity.
Qed.

Lemma eqb_neq a b : Js.eqb a b = false <-> a <> b.
Proof.
  rewrite <- eqb_eq. destruct (Js.eqb a b); split; congruence.
Qed.

(** *** Splitting a data URL *)

Lemma split_not_nil sep s : split sep s <> [].
Proof.
  destruct s as [|c s]; cbn; [discriminate|].
  destruct (Ascii.eqb c sep); [discriminate|].
  destruct (split sep s); discriminate.
Qed.

Lemma split_second sep a : forall b,
  exists piece, nth_error (split sep (a ++ sep :: b)) 1 = Some piece.
Proof.
  induction a as [|c a IH]; intros b.
  - cbn [app split]. rewrite Ascii.eqb_refl.
    destruct (split sep b) as [|piece pieces] eqn:Hs; [now apply split_not_nil in Hs|].
    now exists piece.
  - cbn [app split]. destruct (IH b) as (piece & Hpiece).
    destruct (split sep (a ++ sep :: b)) as [|first [|second pieces]];
      try discriminate.
    cbn in Hpiece. injection Hpiece as ->.
    destruct (Ascii.eqb c sep); [now exists first | now exists piece].
Qed.

Lemma split_second_In sep s :
  In sep s -> exists piece, nth_error (split sep s) 1 = Some piece.
Proof.
  intros Hin. apply in_split in Hin. destruct Hin as (a & b & ->).
  apply split_second.
Qed.

(** *** Lists of jobs and of attachments *)

Lemma nth_error_setNth T (v : T) : forall l k k',
  nth_error (setNth k v l) k'
  = if k =? k' then match nth_error l k with Some _ => Some v | None => None end
    else nth_error l k'.
Proof.
  induction l as [|x l IH]; intros k k'.
  - destruct k; cbn [setNth]; rewrite !nth_error_nil; now destruct (_ =? _).
  - destruct k as [|k], k' as [|k']; cbn; try reflexivity. apply IH.
Qed.

Lemma map_setNth T U (g : T -> U) (v old : T) : forall l k,
  nth_error l k = Some old -> g v = g old -> map g (setNth k v l) = map g l.
Proof.
  induction l as [|x l IH]; intros [|k]; cbn; try discriminate.
  - intros [= ->] ->. reflexivity.
  - intros Hk Hg. f_equal. now apply IH.
Qed.

Lemma id_merge f u : id (merge f u) = id f.
Proof. reflexivity. Qed.

Lemma map_id_updateFile target u fs : map id (updateFile target u fs) = map id fs.
Proof.
  unfold updateFile. rewrite map_map. apply map_ext.
  intros f. now destruct (Js.eqb (id f) target).
Qed.

Lemma In_updateFile target u fs g :
  In g (updateFile target u fs) ->
  exists f, In f fs /\ g = if Js.eqb (id f) target then merge f u else f.
Proof.
  unfold updateFile. rewrite in_map_iff. intros (f & <- & Hin). now exists f.
Qed.

Lemma In_map_id f fs : In f fs -> In (id f) (map id fs).
Proof. apply in_map. Qed.

(** Two attachments of a consistent state that bear the same identifier are
    one and the same. *)
Lemma same_id_same_file fs : NoDup (map id fs) ->
  forall f g, In f fs -> In g fs -> id f = id g -> f = g.
Proof.
  induction fs as [|x fs IH]; intros Hnd f g Hf Hg Hid; [contradiction|].
  cbn in Hnd. inversion Hnd as [|? ? Hx Hnd']; subst.
  destruct Hf as [<-|Hf], Hg as [<-|Hg].
  - reflexivity.
  - exfalso. apply Hx. rewrite Hid. now apply In_map_id.
  - exfalso. apply Hx. rewrite <- Hid. now apply In_map_id.
  - now apply IH.
Qed.

(** Two ranks that hold runs with the same identifier are one rank. *)
Lemma same_id_same_rank js : NoDup (map job_id js) ->
  forall k k' j j', nth_error js k = Some j -> nth_error js k' = Some j' ->
                    job_id j = job_id j' -> k = k'.
Proof.
  intros Hnd k k' j j' Hk Hk' Hid.
  rewrite NoDup_nth_error in Hnd. apply Hnd.
  - rewrite length_map. apply nth_error_Some. congruence.
  - rewrite !nth_error_map, Hk, Hk'. cbn. now rewrite Hid.
Qed.

Lemma NoDup_snoc T (x : T) l : NoDup l -> ~ In x l -> NoDup (l ++ [x]).
Proof.
  induction l as [|y l IH]; intros Hnd Hx; cbn.
  - constructor; [intros [] | constructor].
  - inversion Hnd as [|? ? Hy Hnd']; subst. constructor.
    + intros Hin. apply in_app_or in Hin. destruct Hin as [Hin|[<-|[]]].
      * now apply Hy.
      * apply Hx. now left.
    + apply IH; [exact Hnd'|]. intros Hin. apply Hx. now right.
Qed.

Lemma NoDup_snoc_inv T (x : T) l : NoDup (l ++ [x]) -> NoDup l /\ ~ In x l.
Proof.
  intros H. apply NoDup_remove in H. now rewrite app_nil_r in H.
Qed.

Lemma NoDup_map_filter T U (g : T -> U) (keep : T -> bool) l :
  NoDup (map g l) -> NoDup (map g (filter keep l)).
Proof.
  induction l as [|x l IH]; intros Hnd; [constructor|].
  cbn in Hnd. inversion Hnd as [|? ? Hx Hnd']; subst. cbn.
  destruct (keep x); [|now apply IH]. cbn. constructor; [|now apply IH].
  intros Hin. apply Hx. apply in_map_iff in Hin. destruct Hin as (y & Hy & Hin).
  apply filter_In in Hin. apply in_map_iff. exists y. tauto.
Qed.

Lemma merge_noUpdates f : merge f noUpdates = f.
Proof. now destruct f. Qed.

Lemma updateFile_noUpdates target fs : updateFile target noUpdates fs = fs.
Proof.
  unfold updateFile. rewrite <- (map_id fs) at 2. apply map_ext.
  intros f. rewrite merge_noUpdates. now destruct (Js.eqb (id f) target).
Qed.

Lemma populated_none f :
  populated f = 0 -> text f = None /\ data f = None /\ keyframes f = None.
Proof.
  unfold populated. destruct (text f), (data f), (keyframes f); cbn; intros H;
    try discriminate H; repeat split.
Qed.

Lemma linked_wellFormed j f : linked j f -> wellFormed f.
Proof.
  unfold linked, wellFormed. destruct (status f); intros H; split; intros Hs;
    try discriminate Hs; tauto.
Qed.

(** *** One run of [processFile] updates its own attachment *)

Lemma job_update_consistent s k j j' u :
  Consistent s ->
  nth_error (jobs s) k = Some j ->
  job_id j' = job_id j ->
  (forall f, In f (files s) -> id f = job_id j -> linked j f -> linked j' (merge f u)) ->
  Consistent (mkState (updateFile (job_id j) u (files s)) (setNth k j' (jobs s))).
Proof.
  intros [Hjobs Hfiles Hlink] Hk Hid Hmove. constructor; cbn [files jobs].
  - now rewrite (@map_setNth _ _ job_id j' j (jobs s) k Hk Hid).
  - now rewrite map_id_updateFile.
  - intros g Hg. apply In_updateFile in Hg. destruct Hg as (f & Hf & ->).
    destruct (Hlink f Hf) as (k0 & j0 & Hk0 & Hid0 & Hl0).
    destruct (Js.eqb (id f) (job_id j)) eqn:Heq.
    + apply eqb_eq in Heq.
      assert (k0 = k) by (eapply same_id_same_rank; eauto; congruence). subst k0.
      assert (j0 = j) by congruence. subst j0.
      exists k, j'. rewrite nth_error_setNth, Nat.eqb_refl, Hk.
      repeat split; [now rewrite id_merge; congruence | now apply Hmove].
    + apply eqb_neq in Heq. exists k0, j0.
      rewrite nth_error_setNth.
      destruct (k =? k0) eqn:Hkk; [|now repeat split].
      apply Nat.eqb_eq in Hkk. subst k0. exfalso. apply Heq. congruence.
Qed.

Lemma job_update_stable s k j u f g :
  Consistent s ->
  nth_error (jobs s) k = Some j ->
  awaiting j = true \/ intervalActive j = true ->
  In f (files s) -> terminal f = true ->
  In g (updateFile (job_id j) u (files s)) -> id g = id f -> g = f.
Proof.
  intros [Hjobs Hfiles Hlink] Hk Hbusy Hf Hterm Hg Hid.
  apply In_updateFile in Hg. destruct Hg as (f0 & Hf0 & ->).
  assert (Hsame : f0 = f).
  { apply (@same_id_same_file (files s) Hfiles); try assumption.
    destruct (Js.eqb (id f0) (job_id j)); [now rewrite id_merge in Hid | exact Hid]. }
  subst f0.
  destruct (Js.eqb (id f) (job_id j)) eqn:Heq; [|reflexivity].
  exfalso. apply eqb_eq in Heq.
  destruct (Hlink f Hf) as (k0 & j0 & Hk0 & Hid0 & Hl0).
  assert (k0 = k) by (eapply same_id_same_rank; eauto; congruence). subst k0.
  assert (j0 = j) by congruence. subst j0.
  unfold linked in Hl0. unfold terminal in Hterm.
  destruct (status f); [discriminate Hterm| |];
    destruct Hl0 as (_ & Ha & Hi); destruct Hbusy; congruence.
Qed.

(** A callback finds an empty attachment in the state [processing]. *)
Lemma awaiting_processing j f :
  awaiting j = true -> linked j f -> status f = processing /\ populated f = 0.
Proof.
  unfold linked. intros Ha. destruct (status f); intros H.
  - now split.
  - destruct H as (_ & H & _). congruence.
  - destruct H as (_ & H & _). congruence.
Qed.

Lemma ticking_processing j f :
  intervalActive j = true -> linked j f -> status f = processing /\ populated f = 0.
Proof.
  unfold linked. intros Ha. destruct (status f); intros H.
  - now split.
  - destruct H as (_ & _ & H). congruence.
  - destruct H as (_ & _ & H). congruence.
Qed.

Lemma complete_consistent k b u s :
  Consistent s ->
  (forall u', u = Some u' -> fitting u') ->
  Consistent (complete k b true u s)
  /\ (u = None -> Consistent (complete k b false u s)).
Proof.
  intros Hs Hfit. unfold complete.
  destruct (nth_error (jobs s) k) as [j|] eqn:Hk; [|now split].
  destruct (awaiting j && branch_eqb (job_branch j) b) eqn:Hgo; [|now split].
  apply andb_true_iff in Hgo. destruct Hgo as [Hawait _].
  split.
  - destruct u as [u'|].
    + apply job_update_consistent; try assumption; [reflexivity|].
      intros f Hf Hid Hl. destruct (@awaiting_processing j f Hawait Hl) as [Hst Hpop].
      specialize (Hfit u' eq_refl f Hst Hpop). unfold linked.
      destruct (status (merge f u')); cbn [settle awaiting intervalActive]; tauto.
    + rewrite <- (updateFile_noUpdates (job_id j) (files s)).
      apply job_update_consistent; try assumption; [reflexivity|].
      intros f Hf Hid Hl. rewrite merge_noUpdates.
      destruct (@awaiting_processing j f Hawait Hl) as [Hst Hpop].
      unfold linked. now rewrite Hst.
  - intros ->. rewrite <- (updateFile_noUpdates (job_id j) (files s)).
    apply job_update_consistent; try assumption; [reflexivity|].
    intros f Hf Hid Hl. rewrite merge_noUpdates.
    destruct (@awaiting_processing j f Hawait Hl) as [Hst Hpop].
    unfold linked. now rewrite Hst.
Qed.

Lemma complete_stable k b clear u s f g :
  Consistent s ->
  In f (files s) -> terminal f = true ->
  In g (files (complete k b clear u s)) -> id g = id f -> g = f.
Proof.
  intros Hs Hf Hterm. unfold complete.
  destruct (nth_error (jobs s) k) as [j|] eqn:Hk.
  2:{ intros Hg Hid. now apply (@same_id_same_file (files s) (files_distinct Hs)). }
  destruct (awaiting j && branch_eqb (job_branch j) b) eqn:Hgo.
  2:{ intros Hg Hid. now apply (@same_id_same_file (files s) (files_distinct Hs)). }
  apply andb_true_iff in Hgo. destruct Hgo as [Hawait _].
  cbn [files]. destruct u as [u'|].
  - intros Hg Hid. eapply job_update_stable; eauto.
  - intros Hg Hid. now apply (@same_id_same_file (files s) (files_distinct Hs)).
Qed.

Ltac fitting_by_cases :=
  let f := fresh "f" in
  let Hst := fresh "Hst" in
  let Hpop := fresh "Hpop" in
  intros f Hst Hpop;
  apply populated_none in Hpop; destruct Hpop as (Ht & Hd & Hk);
  unfold populated, merge; cbn; rewrite ?Ht, ?Hd, ?Hk, ?Hst; reflexivity.

Lemma fitting_keyframes frames :
  fitting (mkUpdates None (Some frames) None (Some completed) (Some 100%Z)).
Proof. fitting_by_cases. Qed.

Lemma fitting_text value :
  fitting (mkUpdates None None (Some value) (Some completed) (Some 100%Z)).
Proof. fitting_by_cases. Qed.

Lemma fitting_data piece :
  fitting (mkUpdates (Some (Some piece)) None None (Some completed) (Some 100%Z)).
Proof. fitting_by_cases. Qed.

Lemma fitting_error : fitting (mkUpdates None None None (Some error) None).
Proof. fitting_by_cases. Qed.

Lemma fitting_progress p : fitting (mkUpdates None None None None (Some p)).
Proof. fitting_by_cases. Qed.

Lemma fitting_nothing : fitting noUpdates.
Proof. fitting_by_cases. Qed.

Lemma tick_consistent s k j u :
  Consistent s ->
  nth_error (jobs s) k = Some j ->
  intervalActive j = true ->
  fitting u -> upd_status u = None ->
  Consistent (mkState (updateFile (job_id j) u (files s))
                      (setNth k (mkJob (job_id j) (job_branch j) true (job_p j + 15)
                                       (awaiting j)) (jobs s))).
Proof.
  intros Hs Hk Hactive Hfit Hkeep.
  apply job_update_consistent; try assumption; [reflexivity|].
  intros f Hf Hid Hl. destruct (@ticking_processing j f Hactive Hl) as [Hst Hpop].
  specialize (Hfit f Hst Hpop). unfold linked.
  assert (Hsame : status (merge f u) = processing).
  { cbn. rewrite Hkeep. exact Hst. }
  rewrite Hsame in *. exact Hfit.
Qed.

(** Every event keeps the component consistent. *)
Lemma step_consistent s e :
  Consistent s -> drawsFresh s e -> splitsResult e -> Consistent (step s e).
Proof.
  intros Hs Hfresh Hsplit. destruct e as [ident file | k | k frames | k outcome
                                  | k content | k result | ident];
    cbn [step].
  - cbn [drawsFresh] in Hfresh. destruct Hs as [Hjobs Hfiles Hlink].
    constructor; cbn [files jobs].
    + rewrite map_app. now apply NoDup_snoc.
    + rewrite map_app. apply NoDup_snoc; [exact Hfiles|]. cbn.
      intros Hin. apply in_map_iff in Hin. destruct Hin as (f & Hidf & Hf).
      destruct (Hlink f Hf) as (k & j & Hk & Hid & _).
      apply Hfresh. apply in_map_iff. exists j. split; [congruence|].
      eapply nth_error_In; eassumption.
    + intros f Hf. apply in_app_or in Hf. destruct Hf as [Hf | [<- | []]].
      * destruct (Hlink f Hf) as (k & j & Hk & Hid & Hl).
        exists k, j. repeat split; try assumption.
        rewrite nth_error_app1; [exact Hk|]. apply nth_error_Some. congruence.
      * exists (List.length (jobs s)), (newJob ident file).
        rewrite nth_error_app2, Nat.sub_diag by lia. repeat split.
  - destruct (nth_error (jobs s) k) as [j|] eqn:Hk; [|exact Hs].
    destruct (intervalActive j) eqn:Hactive; [|exact Hs].
    destruct (job_p j + 15 <=? 90)%Z.
    + apply tick_consistent; try assumption; [apply fitting_progress | reflexivity].
    + rewrite <- (updateFile_noUpdates (job_id j) (files s)).
      apply tick_consistent; try assumption; [apply fitting_nothing | reflexivity].
  - destruct frames as [frames|]; apply complete_consistent; try assumption;
      intros u' [= <-]; [apply fitting_keyframes | apply fitting_error].
  - destruct outcome as [|value|].
    + now apply (complete_consistent k DocxBranch (u := None)).
    + apply complete_consistent; try assumption. intros u' [= <-]. apply fitting_text.
    + apply complete_consistent; try assumption. intros u' [= <-]. apply fitting_error.
  - apply complete_consistent; try assumption. intros u' [= <-]. apply fitting_text.
  - cbn [splitsResult] in Hsplit. destruct (truthy result) eqn:Htruthy.
    + destruct (split_second_In _ _ (Hsplit eq_refl)) as (piece & ->).
      apply complete_consistent; try assumption. intros u' [= <-]. apply fitting_data.
    + now apply (complete_consistent k DataBranch (u := None)).
  - destruct Hs as [Hjobs Hfiles Hlink]. constructor; cbn [files jobs].
    + exact Hjobs.
    + unfold removeFile. now apply NoDup_map_filter.
    + intros f Hf. unfold removeFile in Hf. apply filter_In in Hf. now apply Hlink.
Qed.

(** No event changes an attachment that has reached a terminal state. *)
Lemma step_stable s e f g :
  Consistent s -> drawsFresh s e ->
  In f (files s) -> terminal f = true ->
  In g (files (step s e)) -> id g = id f -> g = f.
Proof.
  intros Hs Hfresh Hf Hterm.
  assert (Hkeep : In g (files s) -> id g = id f -> g = f).
  { intros Hg Hid. now apply (@same_id_same_file (files s) (files_distinct Hs)). }
  destruct e as [ident file | k | k frames | k outcome
                 | k content | k result | ident];
    cbn [step].
  - cbn [files]. intros Hg Hid. apply in_app_or in Hg.
    destruct Hg as [Hg | [<- | []]]; [now apply Hkeep|].
    exfalso. cbn [drawsFresh] in Hfresh. apply Hfresh.
    destruct (files_linked Hs f Hf) as (k & j & Hk & Hidj & _).
    apply in_map_iff. exists j. split; [cbn in Hid; congruence|].
    eapply nth_error_In; eassumption.
  - destruct (nth_error (jobs s) k) as [j|] eqn:Hk; [|exact Hkeep].
    destruct (intervalActive j) eqn:Hactive; [|exact Hkeep].
    cbn [files]. destruct (job_p j + 15 <=? 90)%Z; [|exact Hkeep].
    intros Hg Hid. eapply job_update_stable; eauto.
  - destruct frames; now apply complete_stable.
  - destruct outcome; now apply complete_stable.
  - now apply complete_stable.
  - destruct (truthy result); now apply complete_stable.
  - cbn [files]. unfold removeFile. intros Hg. apply filter_In in Hg. now apply Hkeep.
Qed.

(** *** Sessions *)

Lemma run_snoc events e : run (events ++ [e]) = step (run events) e.
Proof. unfold run. now rewrite fold_left_app. Qed.

Lemma selectedIds_app a b : selectedIds (a ++ b) = selectedIds a ++ selectedIds b.
Proof.
  induction a as [|e a IH]; [reflexivity|].
  destruct e; cbn; now rewrite IH.
Qed.

Lemma complete_job_ids k b clear u s :
  map job_id (jobs (complete k b clear u s)) = map job_id (jobs s).
Proof.
  unfold complete. destruct (nth_error (jobs s) k) as [j|] eqn:Hk; [|reflexivity].
  destruct (awaiting j && branch_eqb (job_branch j) b); [|reflexivity].
  cbn [jobs]. now apply (@map_setNth _ _ job_id (settle clear j) j (jobs s) k).
Qed.

Lemma step_job_ids s e :
  map job_id (jobs (step s e)) = map job_id (jobs s) ++ selectedIds [e].
Proof.
  destruct e as [ident file | k | k frames | k outcome
                 | k content | k result | ident];
    cbn [step selectedIds]; rewrite ?app_nil_r.
  - cbn [jobs]. now rewrite map_app.
  - destruct (nth_error (jobs s) k) as [j|] eqn:Hk; [|reflexivity].
    destruct (intervalActive j); [|reflexivity].
    cbn [jobs]. now apply (@map_setNth _ _ job_id _ j (jobs s) k).
  - destruct frames; apply complete_job_ids.
  - destruct outcome; apply complete_job_ids.
  - apply complete_job_ids.
  - destruct (truthy result); apply complete_job_ids.
  - reflexivity.
Qed.

Lemma run_job_ids events : map job_id (jobs (run events)) = selectedIds events.
Proof.
  induction events as [|e events IH] using rev_ind; [reflexivity|].
  now rewrite run_snoc, step_job_ids, IH, selectedIds_app.
Qed.

Lemma drawsFresh_run events e :
  NoDup (selectedIds (events ++ [e])) -> drawsFresh (run events) e.
Proof.
  intros Hnd. rewrite selectedIds_app in Hnd.
  destruct e; cbn [drawsFresh]; try exact I.
  cbn [selectedIds] in Hnd. apply NoDup_snoc_inv in Hnd.
  rewrite run_job_ids. tauto.
Qed.

Lemma NoDup_selectedIds_prefix events e :
  NoDup (selectedIds (events ++ [e])) -> NoDup (selectedIds events).
Proof.
  rewrite selectedIds_app. destruct e; cbn [selectedIds]; rewrite ?app_nil_r;
    try tauto.
  intros H. now apply NoDup_snoc_inv in H.
Qed.

Lemma Forall_snoc_inv T (P : T -> Prop) l x : Forall P (l ++ [x]) -> Forall P l /\ P x.
Proof.
  intros H. apply Forall_app in H. destruct H as [Hl Hx].
  split; [exact Hl | now inversion Hx].
Qed.

Lemma run_consistent events :
  NoDup (selectedIds events) -> Forall splitsResult events -> Consistent (run events).
Proof.
  induction events as [|e events IH] using rev_ind; intros Hnd Hsplit.
  - constructor; cbn; try constructor. intros f [].
  - apply Forall_snoc_inv in Hsplit. destruct Hsplit as [Hsplit He].
    rewrite run_snoc. apply step_consistent.
    + apply IH; [eapply NoDup_selectedIds_prefix; eassumption | exact Hsplit].
    + now apply drawsFresh_run.
    + exact He.
Qed.

(** An attachment of the next state comes from one of the same identifier,
    or it has just been created. *)
Lemma step_files_origin s e g :
  In g (files (step s e)) ->
  (exists f, In f (files s) /\ id f = id g) \/ (exists file, e = Select (id g) file).
Proof.
  assert (Hupd : forall target u, In g (updateFile target u (files s)) ->
                                  exists f, In f (files s) /\ id f = id g).
  { intros target u Hg. apply In_updateFile in Hg. destruct Hg as (f & Hf & ->).
    exists f. split; [exact Hf|]. now destruct (Js.eqb (id f) target). }
  assert (Hcomplete : forall k b clear u, In g (files (complete k b clear u s)) ->
                                          exists f, In f (files s) /\ id f = id g).
  { intros k b clear u. unfold complete.
    destruct (nth_error (jobs s) k) as [j|]; [|now exists g].
    destruct (awaiting j && branch_eqb (job_branch j) b); [|now exists g].
    cbn [files]. destruct u as [u'|]; [apply Hupd | now exists g]. }
  destruct e as [ident file | k | k frames | k outcome
                 | k content | k result | ident];
    cbn [step].
  - cbn [files]. intros Hg. apply in_app_or in Hg.
    destruct Hg as [Hg | [<- | []]]; [left; now exists g | right; now exists file].
  - intros Hg. left. destruct (nth_error (jobs s) k) as [j|]; [|now exists g].
    destruct (intervalActive j); [|now exists g].
    cbn [files] in Hg. destruct (job_p j + 15 <=? 90)%Z; [eapply Hupd; eauto | now exists g].
  - intros Hg. left. destruct frames; eapply Hcomplete; eauto.
  - intros Hg. left. destruct outcome; eapply Hcomplete; eauto.
  - intros Hg. left. eapply Hcomplete; eauto.
  - intros Hg. left.
    destruct (truthy result); eapply Hcomplete; eauto.
  - cbn [files]. unfold removeFile. intros Hg. apply filter_In in Hg.
    left. now exists g.
Qed.

Lemma NoDup_selectedIds_app events later :
  NoDup (selectedIds (events ++ later)) -> NoDup (selectedIds events).
Proof.
  induction later as [|e later IH] using rev_ind.
  - now rewrite app_nil_r.
  - rewrite app_assoc. intros H. apply IH.
    eapply NoDup_selectedIds_prefix; eassumption.
Qed.

(** Once terminal, an attachment stays as it is through any further
    events. *)
Lemma run_stable events : forall later f g,
  NoDup (selectedIds (events ++ later)) ->
  Forall splitsResult (events ++ later) ->
  In f (files (run events)) -> terminal f = true ->
  In g (files (run (events ++ later))) -> id g = id f -> g = f.
Proof.
  induction later as [|e later IH] using rev_ind;
    intros f g Hnd Hsplit Hf Hterm Hg Hid.
  - rewrite app_nil_r in *.
    now apply (@same_id_same_file (files (run events))
                 (files_distinct (@run_consistent _ Hnd Hsplit))).
  - rewrite app_assoc in *. rewrite run_snoc in Hg.
    pose proof (NoDup_selectedIds_prefix _ _ Hnd) as Hnd'.
    destruct (@Forall_snoc_inv _ _ _ _ Hsplit) as [Hsplit' He].
    pose proof (@run_consistent _ Hnd' Hsplit') as Hmid.
    pose proof (drawsFresh_run _ _ Hnd) as Hfresh.
    destruct (step_files_origin _ _ _ Hg) as [(f' & Hf' & Hid') | (file & ->)].
    + assert (f' = f) by (apply IH; try assumption; congruence). subst f'.
      eapply step_stable; eauto.
    + exfalso. cbn [drawsFresh] in Hfresh. apply Hfresh.
      rewrite run_job_ids, selectedIds_app. apply in_or_app. left.
      rewrite <- run_job_ids.
      apply Forall_app in Hsplit'. destruct Hsplit' as [Hsplit0 _].
      destruct (files_linked (@run_consistent _ (NoDup_selectedIds_app _ _ Hnd') Hsplit0) f Hf)
        as (k & j & Hk & Hidj & _).
      apply in_map_iff. exists j. split; [congruence|].
      eapply nth_error_In; eassumption.
Qed.

(** C9 as stated fails.  A reader result without a comma, as [data:] for an
    empty file, leaves a completed attachment with none of the three fields
    populated.  And when the same identifier is drawn for two files, each of
    their callbacks updates both attachments: the first is changed after it
    has completed, and both end up completed with two fields populated. *)
Lemma attachment_invariant_breaks :
  (exists f, files (run Fakes.emptyFileSession) = [f]
             /\ status f = completed /\ populated f = 0)
  /\
  (exists f g f' g',
     files (run (firstn 3 Fakes.collisionSession)) = [f; g]
     /\ status f = completed /\ populated f = 1
     /\ files (run Fakes.collisionSession) = [f'; g']
     /\ id f' = id f /\ f' <> f
     /\ status f' = completed /\ populated f' = 2
     /\ status g' = completed /\ populated g' = 2).
Proof.
  split.
  - eexists. split; [vm_compute; reflexivity|]. split; reflexivity.
  - eexists. eexists. eexists. eexists.
    split; [vm_compute; reflexivity|].
    split; [reflexivity|]. split; [reflexivity|].
    split; [vm_compute; reflexivity|].
    split; [reflexivity|]. split; [discriminate|].
    split; [reflexivity|]. split; [reflexivity|]. split; reflexivity.
Qed.

(** C9, as amended.  In every session in which the identifiers drawn are
    distinct and every result handed to the data branch that is not empty
    holds a comma, at every point each attachment satisfies: if its status is
    [completed], exactly one of [text], [data] and [keyframes] holds a value;
    if its status is [error], none does.  And an attachment that has reached
    a terminal status is, as long as it is there, exactly as it was, whatever
    events follow. *)
Theorem attachments_keep_invariant (events later : list Event) :
  NoDup (selectedIds (events ++ later)) ->
  Forall splitsResult (events ++ later) ->
  (forall f, In f (files (run (events ++ later))) ->
     (status f = completed -> populated f = 1) /\
     (status f = error -> populated f = 0)) /\
  (forall f g,
     In f (files (run events)) -> terminal f = true ->
     In g (files (run (events ++ later))) -> id g = id f -> g = f).
Proof.
  intros Hnd Hsplit. split.
  - intros f Hf.
    destruct (files_linked (@run_consistent _ Hnd Hsplit) f Hf) as (k & j & _ & _ & Hl).
    exact (@linked_wellFormed j f Hl).
  - intros f g. now apply run_stable.
Qed.

End MediaNormalizer.

Lemma attachments_keep_invariant_witness :
  NoDup (InputForm.selectedIds
           (Fakes.mixedSession ++ [InputForm.Tick 0; InputForm.Tick 1])) /\
  Forall InputForm.splitsResult
         (Fakes.mixedSession ++ [InputForm.Tick 0; InputForm.Tick 1]) /\
  exists f g,
    InputForm.files (InputForm.run Fakes.mixedSession) = [f; g] /\
    InputForm.files
      (InputForm.run (Fakes.mixedSession ++ [InputForm.Tick 0; InputForm.Tick 1]))
    = [f; g] /\
    InputForm.status f = InputForm.completed /\ InputForm.populated f = 1 /\
    InputForm.status g = InputForm.completed /\ InputForm.populated g = 1.
Proof.
  assert (Hnd : NoDup (InputForm.selectedIds
                         (Fakes.mixedSession ++ [InputForm.Tick 0; InputForm.Tick 1]))).
  { cbn. constructor.
    - intros [H | []]. discriminate H.
    - constructor; [intros [] | constructor]. }
  assert (Hsplit : Forall InputForm.splitsResult
                     (Fakes.mixedSession ++ [InputForm.Tick 0; InputForm.Tick 1])).
  { unfold Fakes.mixedSession. cbn [app].
    repeat (apply Forall_cons;
            [first [exact I | intros _; apply existsb_eqb_In; reflexivity] |]).
    apply Forall_nil. }
  split; [exact Hnd|]. split; [exact Hsplit|].
  destruct (attachments_keep_invariant Fakes.mixedSession
              [InputForm.Tick 0; InputForm.Tick 1] Hnd Hsplit) as [Hwell _].
  assert (Hfiles : exists f g,
             InputForm.files (InputForm.run Fakes.mixedSession) = [f; g] /\
             InputForm.files
               (InputForm.run (Fakes.mixedSession ++ [InputForm.Tick 0; InputForm.Tick 1]))
             = [f; g] /\
             InputForm.status f = InputForm.completed /\
             InputForm.status g = InputForm.completed).
  { eexists. eexists. split; [vm_compute; reflexivity|].
    split; [vm_compute; reflexivity|]. split; reflexivity. }
  destruct Hfiles as (f & g & Hbefore & Hafter & Hf & Hg).
  exists f, g.
  split; [exact Hbefore|]. split; [exact Hafter|].
  split; [exact Hf|].
  split; [apply (Hwell f); [rewrite Hafter; now left | exact Hf]|].
  split; [exact Hg|].
  apply (Hwell g); [rewrite Hafter; right; now left | exact Hg].
Defined.

(* ================================================================== *)
(** * Further properties *)
(* ================================================================== *)

(** ** The retry governor at any number of attempts *)

Section RetryGovernorAtLarge.

Import GeminiService.

Variable W : Type.
Variable T : Type.
Variable fn : Operation W T.


Lemma totalSleep_app tr1 tr2 :
  totalSleep (tr1 ++ tr2) = (totalSleep tr1 + totalSleep tr2)%Z.
Proof.
  induction tr1 as [|ev tr1 IH]; [reflexivity|].
  destruct ev; cbn [app totalSleep]; rewrite IH; ring.
Qed.






End RetryGovernorAtLarge.



(** ** Cleaning of code fences *)

Section Fences.

Import GeminiService.

Lemma removeAll_here p s :
  p <> [] -> startsWith p s = true ->
  removeAll p s = removeAll p (skipn (List.length p) s).
Proof.
  intros Hne Hs. unfold removeAll.
  assert (Hskip : forall k r, removeAllFrom p k r = removeAllFrom p 0 (skipn k r)).
  { induction k as [|k IH]; intros r; [reflexivity|].
    destruct r as [|c r]; [reflexivity|]. cbn [removeAllFrom skipn]. apply IH. }
  destruct s as [|c s]; [destruct p; [congruence | discriminate Hs]|].
  cbn [removeAllFrom]. rewrite Hs, Hskip.
  destruct p as [|a p]; [congruence|]. cbn [List.length Nat.sub skipn].
  now rewrite Nat.sub_0_r.
Qed.

Lemma removeAll_step p c s :
  startsWith p (c :: s) = false -> removeAll p (c :: s) = c :: removeAll p s.
Proof. intros Hs. unfold removeAll. cbn [removeAllFrom]. now rewrite Hs. Qed.

(** A text that does not hold the pattern is left as it is. *)
Lemma removeAll_absent p : forall s, includes p s = false -> removeAll p s = s.
Proof.
  induction s as [|c s IH]; intros Hno; [reflexivity|].
  rewrite includes_cons in Hno. apply orb_false_iff in Hno. destruct Hno as [Hs Hrest].
  rewrite removeAll_step by exact Hs. now rewrite IH.
Qed.

Lemma backtick_kept s :
  startsWith (str "`") (removeAll FENCE s) = true -> startsWith (str "`") s = true.
Proof.
  destruct s as [|c s]; [discriminate|].
  destruct (startsWith FENCE (c :: s)) eqn:Hs.
  - intros _. apply startsWith_prefix in Hs. destruct Hs as (r & Hr).
    injection Hr as -> _. reflexivity.
  - rewrite removeAll_step by exact Hs. cbn [str list_ascii_of_string startsWith].
    now rewrite andb_true_r.
Qed.

Lemma two_backticks_kept s :
  startsWith (str "``") (removeAll FENCE s) = true -> startsWith (str "``") s = true.
Proof.
  destruct s as [|c s]; [discriminate|].
  destruct (startsWith FENCE (c :: s)) eqn:Hs.
  - intros _. apply startsWith_prefix in Hs. destruct Hs as (r & Hr).
    injection Hr as -> ->. reflexivity.
  - rewrite removeAll_step by exact Hs.
    change (str "``") with ("`"%char :: str "`").
    cbn [startsWith]. intros H. apply andb_true_iff in H. destruct H as [Hc Hrest].
    rewrite Hc. cbn [andb]. now apply backtick_kept.
Qed.

(** No fence of three backticks is left once they have been removed. *)
Lemma removeAll_fence_free : forall n s,
  List.length s <= n -> includes FENCE (removeAll FENCE s) = false.
Proof.
  induction n as [|n IH]; intros s Hlen.
  - destruct s; [reflexivity | cbn in Hlen; lia].
  - destruct s as [|c s]; [reflexivity|].
    destruct (startsWith FENCE (c :: s)) eqn:Hs.
    + rewrite removeAll_here by (discriminate || exact Hs).
      apply IH. rewrite length_skipn. cbn [List.length] in *.
      change (List.length FENCE) with 3. lia.
    + rewrite removeAll_step by exact Hs. rewrite includes_cons.
      rewrite IH by (cbn [List.length] in Hlen; lia). rewrite orb_false_r.
      destruct (startsWith FENCE (c :: removeAll FENCE s)) eqn:Hkept; [|reflexivity].
      change FENCE with ("`"%char :: str "``") in Hkept, Hs.
      cbn [startsWith] in Hkept, Hs.
      apply andb_true_iff in Hkept. destruct Hkept as [Hc Hrest].
      apply two_backticks_kept in Hrest. rewrite Hc, Hrest in Hs. discriminate Hs.
Qed.

Lemma includes_longer p q s : includes (p ++ q) s = true -> includes p s = true.
Proof.
  rewrite !includes_occurs. intros (a & b & ->).
  exists a, (q ++ b). now rewrite <- app_assoc.
Qed.

Lemma no_fence_no_longer q s :
  includes FENCE s = false -> includes (FENCE ++ q) s = false.
Proof.
  intros Hno. destruct (includes (FENCE ++ q) s) eqn:H; [|reflexivity].
  apply includes_longer in H. congruence.
Qed.

(** After the cleaning of the assembly step no fence is left in the shell,
    in the content or in the script, with or without a language tag. *)
Theorem stripFences_no_fence (s : jsstring) :
  includes FENCE (stripHtmlFences s) = false /\
  includes FENCE_HTML (stripHtmlFences s) = false /\
  includes FENCE (stripScriptFences s) = false /\
  includes FENCE_JAVASCRIPT (stripScriptFences s) = false.
Proof.
  assert (Hhtml : includes FENCE (stripHtmlFences s) = false)
    by (unfold stripHtmlFences; now apply (@removeAll_fence_free _ _ (le_n _))).
  assert (Hjs : includes FENCE (stripScriptFences s) = false)
    by (unfold stripScriptFences; now apply (@removeAll_fence_free _ _ (le_n _))).
  split; [exact Hhtml|]. split; [exact (no_fence_no_longer (str "html") _ Hhtml)|].
  split; [exact Hjs|]. exact (no_fence_no_longer (str "javascript") _ Hjs).
Qed.

(** A stage output without a fence goes into the assembly as it came. *)
Theorem stripFences_plain_text (s : jsstring) :
  includes FENCE s = false ->
  stripHtmlFences s = s /\ stripScriptFences s = s.
Proof.
  intros Hno. unfold stripHtmlFences, stripScriptFences.
  change FENCE_HTML with (FENCE ++ str "html").
  change FENCE_JAVASCRIPT with (FENCE ++ str "javascript").
  rewrite (removeAll_absent _ _ (no_fence_no_longer (str "html") _ Hno)).
  rewrite (removeAll_absent _ _ (no_fence_no_longer (str "javascript") _ Hno)).
  now rewrite (removeAll_absent _ _ Hno).
Qed.

(** Cleaning twice is cleaning once. *)
Theorem stripFences_idempotent (s : jsstring) :
  stripHtmlFences (stripHtmlFences s) = stripHtmlFences s /\
  stripScriptFences (stripScriptFences s) = stripScriptFences s.
Proof.
  assert (Hhtml : includes FENCE (stripHtmlFences s) = false)
    by (unfold stripHtmlFences; now apply (@removeAll_fence_free _ _ (le_n _))).
  assert (Hjs : includes FENCE (stripScriptFences s) = false)
    by (unfold stripScriptFences; now apply (@removeAll_fence_free _ _ (le_n _))).
  split.
  - unfold stripHtmlFences at 1. change FENCE_HTML with (FENCE ++ str "html").
    rewrite (removeAll_absent _ _ (no_fence_no_longer (str "html") _ Hhtml)).
    now rewrite (removeAll_absent _ _ Hhtml).
  - unfold stripScriptFences at 1.
    change FENCE_JAVASCRIPT with (FENCE ++ str "javascript").
    rewrite (removeAll_absent _ _ (no_fence_no_longer (str "javascript") _ Hjs)).
    now rewrite (removeAll_absent _ _ Hjs).
Qed.

End Fences.

Lemma stripFences_plain_text_witness :
  includes GeminiService.FENCE Fakes.sampleContent = false /\
  GeminiService.stripHtmlFences Fakes.sampleContent = Fakes.sampleContent /\
  GeminiService.stripScriptFences Fakes.sampleContent = Fakes.sampleContent.
Proof.
  assert (Hno : includes GeminiService.FENCE Fakes.sampleContent = false) by reflexivity.
  split; [exact Hno|]. exact (stripFences_plain_text Fakes.sampleContent Hno).
Defined.

(** ** The fallback of the assembly step *)

Section Fallback.

Import GeminiService.

(** A cleaned shell with neither the marker nor a closing body tag is handed
    back as it is: the content and the script are left out, whatever they
    are. *)
Theorem assemble_without_body (shell contentHtml script : jsstring) :
  includes CONTENT_PLACEHOLDER (stripHtmlFences shell) = false ->
  includes BODY_CLOSE (stripHtmlFences shell) = false ->
  assemble shell contentHtml script = stripHtmlFences shell.
Proof.
  intros Hmarker Hbody. unfold assemble, insertScript, insertContent.
  rewrite Hmarker. rewrite (@replace_absent _ _ _ Hbody).
  exact (@replace_absent _ _ _ Hbody).
Qed.

Lemma insertScript_here post script :
  patternFree script = true ->
  insertScript (BODY_CLOSE ++ post) script = script ++ BODY_CLOSE ++ post.
Proof.
  intros Hs. unfold insertScript.
  change (BODY_CLOSE ++ post) with ([] ++ BODY_CLOSE ++ post) at 1.
  rewrite (@replace_first BODY_CLOSE (script ++ BODY_CLOSE) [] post).
  - cbn [app]. now rewrite <- app_assoc.
  - discriminate.
  - apply body_opens_clear.
  - intros (a & b & Heq). destruct a; discriminate Heq.
  - now apply script_template_patternFree.
Qed.

(** The fallback at work.  When the cleaned shell holds no marker and its
    first closing body tag stands between [pre] and [post], and the cleaned
    content holds no replacement pattern and no closing body tag, the
    artifact is [pre], the container with the content in it, the script, the
    closing body tag and [post]. *)
Theorem assemble_fallback_artifact
        (shell contentHtml script pre post : jsstring) :
  stripHtmlFences shell = pre ++ BODY_CLOSE ++ post ->
  includes CONTENT_PLACEHOLDER (stripHtmlFences shell) = false ->
  ~ occurs BODY_CLOSE pre ->
  patternFree (stripHtmlFences contentHtml) = true ->
  ~ occurs BODY_CLOSE (stripHtmlFences contentHtml) ->
  patternFree (stripScriptFences script) = true ->
  assemble shell contentHtml script
  = pre ++ FALLBACK_OPEN ++ stripHtmlFences contentHtml ++ str "</div></div>"
    ++ stripScriptFences script ++ BODY_CLOSE ++ post.
Proof.
  intros Hshell Hmarker Hpre Hc Hcbody Hs. unfold assemble.
  set (c := stripHtmlFences contentHtml) in *.
  set (s := stripScriptFences script) in *.
  rewrite (@insertContent_fallback _ c pre post Hmarker Hshell Hpre Hc).
  unfold fallbackContainer.
  change FALLBACK_CLOSE with (str "</div></div>" ++ BODY_CLOSE).
  replace (pre ++ (FALLBACK_OPEN ++ c ++ str "</div></div>" ++ BODY_CLOSE) ++ post)
    with ((pre ++ FALLBACK_OPEN ++ c ++ str "</div></div>") ++ BODY_CLOSE ++ post)
    by (now rewrite <- !app_assoc).
  rewrite insertScript_after; [| | |exact Hs].
  - rewrite insertScript_here by exact Hs. now rewrite <- !app_assoc.
  - intros Hocc.
    apply occurs_app_opens in Hocc;
      [|apply opensClearOf_app; [discriminate | apply opensClearb_sound; reflexivity]].
    destruct Hocc as [Hocc | Hocc]; [now apply Hpre|].
    apply occurs_app_closes in Hocc;
      [|discriminate | apply closesClearb_sound; reflexivity].
    destruct Hocc as [Hocc | Hocc].
    { apply not_includes_occurs in Hocc; [exact Hocc | reflexivity]. }
    apply occurs_app_opens in Hocc; [|apply opensClearb_sound; reflexivity].
    destruct Hocc as [Hocc | Hocc]; [now apply Hcbody|].
    apply not_includes_occurs in Hocc; [exact Hocc | reflexivity].
  - rewrite !app_assoc. apply closesClearOf_app_r; [discriminate|].
    apply closesClearb_sound. reflexivity.
Qed.

End Fallback.

Lemma assemble_without_body_witness :
  includes GeminiService.CONTENT_PLACEHOLDER
           (GeminiService.stripHtmlFences Fakes.bodilessShell) = false /\
  includes GeminiService.BODY_CLOSE
           (GeminiService.stripHtmlFences Fakes.bodilessShell) = false /\
  GeminiService.assemble Fakes.bodilessShell Fakes.sampleContent Fakes.sampleScript
  = Fakes.bodilessShell.
Proof.
  split; [reflexivity|]. split; [reflexivity|].
  exact (@assemble_without_body Fakes.bodilessShell Fakes.sampleContent
           Fakes.sampleScript eq_refl eq_refl).
Defined.

Lemma assemble_fallback_artifact_witness :
  GeminiService.assemble Fakes.markerlessShell Fakes.pricedContent Fakes.sampleScript
  = Samples.beforeBody ++ GeminiService.FALLBACK_OPEN ++ Fakes.pricedContent
    ++ str "</div></div>" ++ Fakes.sampleScript
    ++ GeminiService.BODY_CLOSE ++ Samples.afterBody.
Proof.
  apply (@assemble_fallback_artifact Fakes.markerlessShell Fakes.pricedContent
           Fakes.sampleScript Samples.beforeBody Samples.afterBody).
  - reflexivity.
  - reflexivity.
  - apply not_includes_occurs. reflexivity.
  - reflexivity.
  - apply not_includes_occurs. reflexivity.
  - reflexivity.
Defined.

(** ** The text of a refinement *)

Section RefinedText.

Import GeminiService.

(** A response that wraps its text in an opening fence with the tag [html]
    and a closing fence is unwrapped: the text between the fences is the new
    artifact. *)
Theorem refinedText_unwraps_fence (body currentHtml : jsstring) :
  body <> [] ->
  refinedText (Some (FENCE_HTML ++ body ++ FENCE)) currentHtml = body.
Proof.
  intros Hne. unfold refinedText, removePrefix.
  rewrite startsWith_app, skipn_app, skipn_all, Nat.sub_diag. cbn [skipn app].
  unfold removeSuffix, endsWith.
  rewrite rev_app_distr, startsWith_app.
  rewrite length_app, Nat.add_sub, firstn_app, firstn_all, Nat.sub_diag.
  cbn [firstn]. rewrite app_nil_r.
  destruct body; [congruence | reflexivity].
Qed.

(** A response that neither begins with the opening fence nor ends with a
    fence is taken as it is, fences inside it included. *)
Theorem refinedText_plain (text currentHtml : jsstring) :
  text <> [] ->
  startsWith FENCE_HTML text = false ->
  endsWith FENCE text = false ->
  refinedText (Some text) currentHtml = text.
Proof.
  intros Hne Hopen Hclose. unfold refinedText, removePrefix, removeSuffix.
  rewrite Hopen, Hclose. destruct text; [congruence | reflexivity].
Qed.

End RefinedText.

Lemma refinedText_unwraps_fence_witness :
  str "<p>new</p>" <> [] /\
  GeminiService.refinedText (Some (str "```html<p>new</p>```")) (str "<p>old</p>")
  = str "<p>new</p>".
Proof.
  assert (Hne : str "<p>new</p>" <> []) by discriminate.
  split; [exact Hne|].
  exact (@refinedText_unwraps_fence (str "<p>new</p>") (str "<p>old</p>") Hne).
Defined.

Lemma refinedText_plain_witness :
  GeminiService.refinedText (Some (str "<p>a ``` b</p>")) (str "<p>old</p>")
  = str "<p>a ``` b</p>".
Proof.
  apply refinedText_plain; [discriminate | reflexivity | reflexivity].
Defined.

(** ** The two classifications of errors *)

Section QuotaErrors.

Import GeminiService.

Lemma includes_toLowerCase p m :
  includes p m = true -> includes (toLowerCase p) (toLowerCase m) = true.
Proof.
  rewrite !includes_occurs. intros (a & b & ->).
  exists (toLowerCase a), (toLowerCase b). unfold toLowerCase.
  now rewrite !map_app.
Qed.

(** Every error that the handlers of the application report as a quota
    error is one that the retry governor classifies as rate-limited, and so
    has retried; the converse fails for an error that carries status 429
    without saying so in its message. *)
Theorem isQuotaError_isRateLimit :
  (forall x, App.isQuotaError x = true -> isRateLimit x = true) /\
  (isRateLimit Fakes.statusOnly429 = true /\
   App.isQuotaError Fakes.statusOnly429 = false).
Proof.
  split; [|split; reflexivity].
  intros [|e]; [discriminate|]. unfold App.isQuotaError, isRateLimit, errorMessage.
  destruct (message e) as [m|]; [|discriminate].
  intros H. apply orb_true_iff in H. destruct H as [H | H];
    apply includes_toLowerCase in H.
  - change (toLowerCase (str "429")) with (str "429") in H. now rewrite H.
  - change (toLowerCase (str "RESOURCE_EXHAUSTED")) with (str "resource_exhausted") in H.
    rewrite H. now rewrite orb_true_r.
Qed.

End QuotaErrors.

(** ** The export file name at large *)

Section ExportFileNameAtLarge.

Import App ExportName.

Lemma trim_sublist s c : In c (trim s) -> In c s.
Proof.
  intros Hin. destruct (trim_trimmed s) as (lead & trail & Heq & _).
  rewrite Heq. apply in_or_app. right. apply in_or_app. now left.
Qed.

Lemma sanitize_safe t c : In c (sanitize t) -> ~ In c unsafeChars.
Proof.
  unfold sanitize. intros Hin. apply in_map_iff in Hin.
  destruct Hin as (c0 & Hc & _).
  destruct (isUnsafe c0) eqn:Hunsafe; subst c.
  - intros H. apply isUnsafe_unsafeChars in H. discriminate H.
  - intros H. apply isUnsafe_unsafeChars in H. congruence.
Qed.

Lemma digitChar_safe d : (0 <= d <= 9)%Z -> ~ In (digitChar d) unsafeChars.
Proof.
  intros Hd H. apply isUnsafe_unsafeChars in H.
  assert (Hcases : (d = 0 \/ d = 1 \/ d = 2 \/ d = 3 \/ d = 4 \/ d = 5 \/ d = 6
                    \/ d = 7 \/ d = 8 \/ d = 9)%Z) by lia.
  repeat (destruct Hcases as [-> | Hcases]; [discriminate H|]).
  subst d. discriminate H.
Qed.

Lemma twoDigits_safe n c : In c (twoDigits n) -> ~ In c unsafeChars.
Proof.
  unfold twoDigits. intros [<- | [<- | []]]; apply digitChar_safe.
  - pose proof (Z.mod_pos_bound (n / 10) 10). lia.
  - pose proof (Z.mod_pos_bound n 10). lia.
Qed.

Lemma literal_safe (s : jsstring) c :
  forallb (fun x => negb (isUnsafe x)) s = true -> In c s -> ~ In c unsafeChars.
Proof.
  intros Hall Hin H. apply isUnsafe_unsafeChars in H.
  rewrite forallb_forall in Hall. specialize (Hall c Hin). now rewrite H in Hall.
Qed.

(** Whatever the artifact and its title, the name of the download holds none
    of the nine unsafe characters. *)
Theorem downloadFileName_safe (html name : jsstring) (now : Date) :
  validDate now ->
  downloadFileName html now = Some name ->
  forall c, In c name -> ~ In c unsafeChars.
Proof.
  intros Hdate Hname c Hin. unfold downloadFileName in Hname.
  destruct (truthy html); [|discriminate].
  rewrite dateStr_mmddyy in Hname by exact Hdate.
  assert (Heq : name = filenameBase html ++ str "-sway-" ++ mmddyy now ++ str ".html")
    by congruence.
  rewrite Heq in Hin. clear Heq Hname.
  apply in_app_or in Hin. destruct Hin as [Hin | Hin].
  { apply trim_sublist in Hin. now apply sanitize_safe in Hin. }
  apply in_app_or in Hin. destruct Hin as [Hin | Hin].
  { revert Hin. now apply literal_safe. }
  apply in_app_or in Hin. destruct Hin as [Hin | Hin].
  2:{ revert Hin. now apply literal_safe. }
  unfold mmddyy in Hin.
  apply in_app_or in Hin. destruct Hin as [Hin | Hin].
  { now apply twoDigits_safe in Hin. }
  apply in_app_or in Hin. destruct Hin as [Hin | Hin].
  { revert Hin. now apply literal_safe. }
  apply in_app_or in Hin. destruct Hin as [Hin | Hin].
  { now apply twoDigits_safe in Hin. }
  apply in_app_or in Hin. destruct Hin as [Hin | Hin].
  { revert Hin. now apply literal_safe. }
  now apply twoDigits_safe in Hin.
Qed.

Lemma titleMatch_none : forall html, ~ holds TITLE_OPEN html -> titleMatch html = None.
Proof.
  assert (Hhere : forall s, ~ holds TITLE_OPEN s -> titleHere s = None).
  { intros s Hno. unfold titleHere.
    destruct (startsWithCI TITLE_OPEN s) eqn:Hs; [|reflexivity].
    exfalso. apply Hno. apply startsWithCI_spells in Hs.
    destruct Hs as (tag & r & -> & Hsp). now exists [], tag, r. }
  induction html as [|c html IH]; intros Hno.
  - cbn [titleMatch]. now rewrite Hhere.
  - cbn [titleMatch]. rewrite Hhere by exact Hno. apply IH.
    intros (a & tag & b & -> & Hsp). apply Hno. now exists (c :: a), tag, b.
Qed.

(** An artifact in which no opening title tag is spelled, in any case, is
    downloaded under the default name; without an artifact nothing is
    downloaded. *)
Theorem downloadFileName_default (html : jsstring) (now : Date) :
  validDate now ->
  ~ holds TITLE_OPEN html ->
  downloadFileName [] now = None /\
  (html <> [] ->
   downloadFileName html now
   = Some (str "Interactive_Lesson-sway-" ++ mmddyy now ++ str ".html")).
Proof.
  intros Hdate Hno. split; [reflexivity|].
  intros Hne. unfold downloadFileName, filenameBase.
  rewrite (titleMatch_none Hno), dateStr_mmddyy by exact Hdate.
  destruct html; [congruence | reflexivity].
Qed.

End ExportFileNameAtLarge.

Lemma downloadFileName_safe_witness :
  ExportName.validDate Fakes.firstOfNovember2026 /\
  App.downloadFileName Fakes.shoutedTitleHtml Fakes.firstOfNovember2026
  = Some (str "Coffee Shop- Level A2-sway-11.01.26.html") /\
  forall c, In c (str "Coffee Shop- Level A2-sway-11.01.26.html") ->
            ~ In c ExportName.unsafeChars.
Proof.
  assert (Hdate : ExportName.validDate Fakes.firstOfNovember2026)
    by (unfold ExportName.validDate; cbn; lia).
  assert (Hname : App.downloadFileName Fakes.shoutedTitleHtml Fakes.firstOfNovember2026
                  = Some (str "Coffee Shop- Level A2-sway-11.01.26.html"))
    by reflexivity.
  split; [exact Hdate|]. split; [exact Hname|].
  exact (@downloadFileName_safe _ _ _ Hdate Hname).
Defined.

Lemma downloadFileName_default_witness :
  ExportName.validDate Fakes.firstOfNovember2026 /\
  ~ ExportName.holds App.TITLE_OPEN Fakes.untitledHtml /\
  App.downloadFileName Fakes.untitledHtml Fakes.firstOfNovember2026
  = Some (str "Interactive_Lesson-sway-11.01.26.html").
Proof.
  assert (Hdate : ExportName.validDate Fakes.firstOfNovember2026)
    by (unfold ExportName.validDate; cbn; lia).
  assert (Hno : ~ ExportName.holds App.TITLE_OPEN Fakes.untitledHtml).
  { intros H. apply holds_holdsb in H. discriminate H. }
  split; [exact Hdate|]. split; [exact Hno|].
  destruct (@downloadFileName_default Fakes.untitledHtml Fakes.firstOfNovember2026
              Hdate Hno) as [_ Hname].
  rewrite Hname by discriminate. reflexivity.
Defined.

(** ** The submission of the form *)

Section FormSubmission.

Import InputForm Submission.

Lemma callOnGenerate_Some finalPrompt attachments prompt sent :
  callOnGenerate finalPrompt attachments = Some (prompt, sent) ->
  prompt = finalPrompt /\
  sent = (if 0 <? List.length attachments then Some attachments else None) /\
  (truthy finalPrompt = true \/ attachments <> []).
Proof.
  unfold callOnGenerate.
  destruct (truthy finalPrompt) eqn:Hp; cbn [orb].
  - intros [= <- <-]. split; [reflexivity|]. split; [reflexivity | now left].
  - destruct attachments as [|a atts]; cbn [List.length Nat.ltb Nat.leb]; [discriminate|].
    intros [= <- <-]. split; [reflexivity|]. split; [reflexivity | right; discriminate].
Qed.

Lemma callOnGenerate_prompt finalPrompt attachments :
  finalPrompt <> [] ->
  callOnGenerate finalPrompt attachments
  = Some (finalPrompt, if 0 <? List.length attachments then Some attachments else None).
Proof.
  intros Hne. unfold callOnGenerate. destruct finalPrompt; [congruence | reflexivity].
Qed.

Lemma truthy_nonempty (s : jsstring) : truthy s = true <-> s <> [].
Proof. destruct s; cbn; split; congruence. Qed.

Lemma orElse_nonempty finalPrompt fallback :
  fallback <> [] -> orElse finalPrompt fallback <> [].
Proof.
  intros Hne. unfold orElse. destruct (truthy finalPrompt) eqn:Hp; [|exact Hne].
  now apply truthy_nonempty.
Qed.

(** The prompt that [handleSubmit] builds in file mode. *)
Lemma filePrompt_nonempty finalPrompt (fileTexts : list jsstring) :
  (if 0 <? List.length fileTexts
   then orElse finalPrompt FILES_DEFAULT ++ [newline; newline]
        ++ join [newline; newline] fileTexts
   else if negb (truthy finalPrompt) then MEDIA_DEFAULT else finalPrompt) <> [].
Proof.
  destruct (0 <? List.length fileTexts).
  - intros H. apply app_eq_nil in H. destruct H as [H _].
    revert H. apply orElse_nonempty. discriminate.
  - destruct (truthy finalPrompt) eqn:Hp; cbn [negb]; [|discriminate].
    now apply truthy_nonempty.
Qed.

(** [handleSubmit] never hands an empty prompt or an empty list of
    attachments to [onGenerate], and attachments go out in file mode
    only. *)
Theorem handleSubmit_never_empty
        (form : Form) (prompt : jsstring) (sent : option (list Payload)) :
  handleSubmit form = Some (prompt, sent) ->
  prompt <> [] /\
  sent <> Some [] /\
  (form_mode form <> fileMode -> sent = None).
Proof.
  unfold handleSubmit. destruct (form_mode form).
  - intros H. apply callOnGenerate_Some in H. destruct H as (-> & -> & Hsome).
    cbn [List.length Nat.ltb Nat.leb].
    split; [|split; [discriminate | reflexivity]].
    destruct Hsome as [Hp | Ha]; [now apply truthy_nonempty | congruence].
  - destruct (form_files form) as [|f fs]; [discriminate|].
    intros H. apply callOnGenerate_Some in H. destruct H as (-> & -> & _).
    split; [apply filePrompt_nonempty|]. split; [|congruence].
    destruct (flat_map payloadsOf (f :: fs)); cbn [List.length Nat.ltb Nat.leb];
      discriminate.
  - destruct (negb (truthy (App.trim (form_url form)))); [discriminate|].
    intros H. apply callOnGenerate_Some in H. destruct H as (-> & -> & _).
    cbn [List.length Nat.ltb Nat.leb].
    split; [discriminate|]. split; [discriminate | reflexivity].
Qed.

(** While the submit button is enabled, a submission does call
    [onGenerate]. *)
Theorem enabled_form_submits (isGenerating : bool) (form : Form) :
  isSubmitDisabled isGenerating form = false ->
  isGenerating = false /\
  exists prompt sent, handleSubmit form = Some (prompt, sent).
Proof.
  unfold isSubmitDisabled, handleSubmit.
  destruct isGenerating; [discriminate|]. intros H. split; [reflexivity|].
  destruct (form_mode form).
  - apply negb_false_iff in H.
    rewrite callOnGenerate_prompt by now apply truthy_nonempty.
    eexists. eexists. reflexivity.
  - destruct (form_files form) as [|f fs]; [discriminate|].
    rewrite callOnGenerate_prompt by apply filePrompt_nonempty.
    eexists. eexists. reflexivity.
  - rewrite H. rewrite callOnGenerate_prompt by discriminate.
    eexists. eexists. reflexivity.
Qed.

Lemma flat_map_nil T U (g : T -> list U) (l : list T) :
  (forall x, In x l -> g x = []) -> flat_map g l = [].
Proof.
  induction l as [|x l IH]; intros H; [reflexivity|].
  cbn [flat_map]. rewrite (H x) by now left.
  apply IH. intros y Hy. apply H. now right.
Qed.

(** A submission in file mode whose attachments have nothing to send (none
    is completed with a text, with keyframes or with data that is not empty)
    still calls [onGenerate]: with the instructions of the user, or with the
    prompt that announces attached media when there are none, and without
    attachments. *)
Theorem handleSubmit_nothing_to_send (form : Form) :
  form_mode form = fileMode ->
  form_files form <> [] ->
  (forall f, In f (form_files form) ->
     status f <> completed \/
     (truthyField (text f) = false /\ keyframes f = None
      /\ truthyField (data f) = false)) ->
  handleSubmit form = Some (orElse (App.trim (form_text form)) MEDIA_DEFAULT, None).
Proof.
  intros Hmode Hfiles Hnone. unfold handleSubmit. rewrite Hmode.
  destruct (form_files form) as [|f fs] eqn:Hfs; [congruence|].
  assert (Htexts : flat_map fileTextsOf (f :: fs) = []).
  { apply flat_map_nil. intros x Hx. unfold fileTextsOf.
    destruct (Hnone x Hx) as [Hst | (Ht & Hk & Hd)].
    - destruct (status x); congruence.
    - destruct (status x); try reflexivity. now rewrite Ht, Hk, Hd. }
  assert (Hpay : flat_map payloadsOf (f :: fs) = []).
  { apply flat_map_nil. intros x Hx. unfold payloadsOf.
    destruct (Hnone x Hx) as [Hst | (Ht & Hk & Hd)].
    - destruct (status x); congruence.
    - destruct (status x); try reflexivity. now rewrite Ht, Hk, Hd. }
  rewrite Htexts, Hpay. cbn [List.length Nat.ltb Nat.leb].
  unfold orElse.
  destruct (truthy (App.trim (form_text form))) eqn:Hp; cbn [negb].
  - rewrite callOnGenerate_prompt by now apply truthy_nonempty. reflexivity.
  - reflexivity.
Qed.

End FormSubmission.

Lemma handleSubmit_never_empty_witness :
  exists prompt sent,
    Submission.handleSubmit Samples.linkForm = Some (prompt, sent) /\
    prompt <> [] /\ sent = None.
Proof.
  assert (Hrun : exists prompt sent,
             Submission.handleSubmit Samples.linkForm = Some (prompt, sent)).
  { eexists. eexists. vm_compute. reflexivity. }
  destruct Hrun as (prompt & sent & Hrun). exists prompt, sent.
  destruct (@handleSubmit_never_empty _ _ _ Hrun) as (Hp & _ & Hs).
  split; [exact Hrun|]. split; [exact Hp|]. apply Hs. discriminate.
Defined.

Lemma enabled_form_submits_witness :
  Submission.isSubmitDisabled false Samples.notesForm = false /\
  exists prompt sent, Submission.handleSubmit Samples.notesForm = Some (prompt, sent).
Proof.
  assert (H : Submission.isSubmitDisabled false Samples.notesForm = false)
    by reflexivity.
  split; [exact H|]. exact (proj2 (@enabled_form_submits false Samples.notesForm H)).
Defined.

Lemma handleSubmit_nothing_to_send_witness :
  Submission.handleSubmit Samples.emptyNotesForm
  = Some (Submission.MEDIA_DEFAULT, None).
Proof.
  apply (@handleSubmit_nothing_to_send Samples.emptyNotesForm).
  - reflexivity.
  - discriminate.
  - intros f [<- | []]. right. split; [reflexivity|]. split; reflexivity.
Defined.

(** ** The progress shown for an attachment *)

Section Progress.

Import InputForm Submission.

Lemma In_setNth T (v : T) : forall l k x, In x (setNth k v l) -> x = v \/ In x l.
Proof.
  induction l as [|y l IH]; intros k x Hin; [destruct k; contradiction|].
  destruct k as [|k]; cbn [setNth] in Hin.
  - destruct Hin as [<- | Hin]; [now left | right; now right].
  - destruct Hin as [<- | Hin]; [right; now left|].
    destruct (IH k x Hin) as [-> | Hl]; [now left | right; now right].
Qed.

(** The attachment that a run of [processFile] writes to is the one linked
    to it. *)
Lemma owned_file s k j f :
  Consistent s -> nth_error (jobs s) k = Some j ->
  In f (files s) -> id f = job_id j -> linked j f.
Proof.
  intros [Hjobs Hfiles Hlink] Hk Hf Hid.
  destruct (Hlink f Hf) as (k0 & j0 & Hk0 & Hid0 & Hl0).
  assert (k0 = k) by (eapply same_id_same_rank; eauto; congruence). subst k0.
  assert (j0 = j) by congruence. now subst j0.
Qed.

Lemma complete_progress k b clear u s :
  Consistent s ->
  (forall j, In j (jobs s) -> (0 <= job_p j)%Z) ->
  (forall f, In f (files s) -> progressFits f) ->
  (forall u', u = Some u' ->
     (upd_status u' = Some completed /\ upd_progress u' = Some 100%Z) \/
     (upd_status u' = Some error /\ upd_progress u' = None)) ->
  (forall j, In j (jobs (complete k b clear u s)) -> (0 <= job_p j)%Z) /\
  (forall f, In f (files (complete k b clear u s)) -> progressFits f).
Proof.
  intros Hs Hjobs Hfiles Hshape. unfold complete.
  destruct (nth_error (jobs s) k) as [j|] eqn:Hk; [|now split].
  destruct (awaiting j && branch_eqb (job_branch j) b) eqn:Hgo; [|now split].
  apply andb_true_iff in Hgo. destruct Hgo as [Hawait _].
  cbn [jobs files]. split.
  - intros j' Hin. apply In_setNth in Hin. destruct Hin as [-> | Hin]; [|now apply Hjobs].
    cbn [settle job_p]. apply Hjobs. eapply nth_error_In. exact Hk.
  - destruct u as [u'|]; [|exact Hfiles].
    intros g Hg. apply In_updateFile in Hg. destruct Hg as (f & Hf & ->).
    destruct (Js.eqb (id f) (job_id j)) eqn:Heq; [|now apply Hfiles].
    apply eqb_eq in Heq.
    pose proof (@owned_file s k j f Hs Hk Hf Heq) as Hl.
    destruct (@awaiting_processing j f Hawait Hl) as [Hst _].
    pose proof (Hfiles f Hf) as Hfit. unfold progressFits in Hfit |- *.
    rewrite Hst in Hfit. unfold merge. cbn [status progress].
    destruct (Hshape u' eq_refl) as [[-> ->] | [-> ->]]; cbn [orKeep];
      [reflexivity | exact Hfit].
Qed.

Lemma step_progress s e :
  Consistent s ->
  (forall j, In j (jobs s) -> (0 <= job_p j)%Z) ->
  (forall f, In f (files s) -> progressFits f) ->
  (forall j, In j (jobs (step s e)) -> (0 <= job_p j)%Z) /\
  (forall f, In f (files (step s e)) -> progressFits f).
Proof.
  intros Hs Hjobs Hfiles.
  destruct e as [ident file | k | k frames | k outcome
                 | k content | k result | ident];
    cbn [step].
  - cbn [jobs files]. split.
    + intros j Hin. apply in_app_or in Hin.
      destruct Hin as [Hin | [<- | []]]; [now apply Hjobs | cbn; lia].
    + intros f Hin. apply in_app_or in Hin.
      destruct Hin as [Hin | [<- | []]]; [now apply Hfiles|].
      unfold progressFits. cbn. lia.
  - destruct (nth_error (jobs s) k) as [j|] eqn:Hk; [|now split].
    destruct (intervalActive j) eqn:Hactive; [|now split].
    assert (Hp : (0 <= job_p j)%Z) by (apply Hjobs; eapply nth_error_In; exact Hk).
    cbn [jobs files]. split.
    + intros j' Hin. apply In_setNth in Hin.
      destruct Hin as [-> | Hin]; [cbn [job_p]; lia | now apply Hjobs].
    + destruct (job_p j + 15 <=? 90)%Z eqn:Hle; [|exact Hfiles].
      apply Z.leb_le in Hle.
      intros g Hg. apply In_updateFile in Hg. destruct Hg as (f & Hf & ->).
      destruct (Js.eqb (id f) (job_id j)) eqn:Heq; [|now apply Hfiles].
      apply eqb_eq in Heq.
      pose proof (@owned_file s k j f Hs Hk Hf Heq) as Hl.
      destruct (@ticking_processing j f Hactive Hl) as [Hst _].
      unfold progressFits, merge. cbn [status progress upd_status upd_progress orKeep].
      rewrite Hst. lia.
  - destruct frames; apply complete_progress; try assumption;
      intros u' [= <-]; cbn; tauto.
  - destruct outcome; apply complete_progress; try assumption;
      intros u' [= <-]; cbn; tauto.
  - apply complete_progress; try assumption. intros u' [= <-]; cbn; tauto.
  - destruct (truthy result); apply complete_progress; try assumption;
      intros u' [= <-]; cbn; tauto.
  - cbn [jobs files]. split; [exact Hjobs|].
    intros f Hin. unfold removeFile in Hin. apply filter_In in Hin.
    now apply Hfiles.
Qed.

Lemma run_progress events :
  NoDup (selectedIds events) -> Forall splitsResult events ->
  (forall j, In j (jobs (run events)) -> (0 <= job_p j)%Z) /\
  (forall f, In f (files (run events)) -> progressFits f).
Proof.
  induction events as [|e events IH] using rev_ind; intros Hnd Hsplit.
  - split; intros x [].
  - apply Forall_snoc_inv in Hsplit. destruct Hsplit as [Hsplit He].
    pose proof (NoDup_selectedIds_prefix _ _ Hnd) as Hnd'.
    destruct (IH Hnd' Hsplit) as [Hjobs Hfiles].
    rewrite run_snoc. apply step_progress; try assumption.
    now apply run_consistent.
Qed.

(** In a session whose identifiers are pairwise distinct and whose data
    results can be split, the progress shown for an attachment fits its
    status at every point: 100 once it is completed, and between 0 and 90
    while it is processing and after an error. *)
Theorem progress_fits_status (events : list Event) (f : FileItem) :
  NoDup (selectedIds events) ->
  Forall splitsResult events ->
  In f (files (run events)) ->
  match status f with
  | completed => progress f = 100%Z
  | processing | error => (0 <= progress f <= 90)%Z
  end.
Proof.
  intros Hnd Hsplit Hin.
  destruct (@run_progress events Hnd Hsplit) as [_ Hfiles].
  specialize (Hfiles f Hin). unfold progressFits in Hfiles.
  now destruct (status f).
Qed.

End Progress.

Lemma progress_fits_status_witness :
  exists f,
    InputForm.files (InputForm.run (Fakes.notesSession ++ [InputForm.Tick 0])) = [f] /\
    InputForm.status f = InputForm.completed /\
    InputForm.progress f = 100%Z.
Proof.
  assert (Hrun : exists f,
             InputForm.files (InputForm.run (Fakes.notesSession ++ [InputForm.Tick 0]))
             = [f] /\ InputForm.status f = InputForm.completed).
  { eexists. split; [vm_compute; reflexivity | reflexivity]. }
  destruct Hrun as (f & Hrun & Hst). exists f.
  split; [exact Hrun|]. split; [exact Hst|].
  assert (Hnd : NoDup (InputForm.selectedIds (Fakes.notesSession ++ [InputForm.Tick 0]))).
  { cbn. constructor; [intros [] | constructor]. }
  assert (Hsplit : Forall InputForm.splitsResult
                     (Fakes.notesSession ++ [InputForm.Tick 0])).
  { unfold Fakes.notesSession. cbn [app].
    repeat (apply Forall_cons; [exact I|]). apply Forall_nil. }
  pose proof (@progress_fits_status (Fakes.notesSession ++ [InputForm.Tick 0]) f
                Hnd Hsplit) as Hfit.
  rewrite Hrun, Hst in Hfit. apply Hfit. now left.
Defined.

(** ** The trace of the pipeline *)

Section PipelineTrace.

Import GeminiService Observers.

Variable W : Type.
Variable generateContent : Request -> W -> Completion (option jsstring) * W.
Variables PROMPT_ARCHITECT PROMPT_ASSET_MANAGER PROMPT_SHELL
          PROMPT_CONTENT PROMPT_LOGIC : jsstring.

Lemma statuses_app tr1 tr2 : statuses (tr1 ++ tr2) = statuses tr1 ++ statuses tr2.
Proof.
  induction tr1 as [|ev tr1 IH]; [reflexivity|].
  destruct ev; cbn [app statuses]; rewrite IH; reflexivity.
Qed.

Lemma consoleErrors_app tr1 tr2 :
  consoleErrors (tr1 ++ tr2) = consoleErrors tr1 ++ consoleErrors tr2.
Proof.
  induction tr1 as [|ev tr1 IH]; [reflexivity|].
  destruct ev; cbn [app consoleErrors]; rewrite IH; reflexivity.
Qed.

Lemma backoffDelay_nonneg i : (0 <= backoffDelay i)%Z.
Proof. unfold backoffDelay. pose proof (Z.pow_nonneg 2 (Z.of_nat i)). lia. Qed.

(** What a run of the retry loop adds to the trace: no progress message and
    no logged error, at most [remaining] invocations, and at least one when
    it returns. *)
Lemma retryLoop_trace T (fn : Operation W T) :
  forall remaining i lastError st r st',
  retryLoop fn remaining i lastError st = (r, st') ->
  exists evs,
    trace st' = trace st ++ evs /\
    statuses evs = [] /\
    consoleErrors evs = [] /\
    invocations evs <= remaining /\
    (0 <= totalSleep evs)%Z /\
    (forall v, r = Returned v -> 1 <= invocations evs).
Proof.
  induction remaining as [|remaining IH]; intros i lastError st r st'; cbn [retryLoop].
  - unfold throw. intros [= <- <-]. exists [].
    rewrite app_nil_r. repeat split; first [reflexivity | lia | discriminate].
  - unfold tryCatch, invoke.
    destruct (fn (world st)) as [[v|e] w'].
    + intros [= <- <-]. exists [Invoke]. cbn.
      repeat split; first [reflexivity | lia].
    + destruct (isRateLimit e).
      * unfold bind, tell, emit. cbn [world trace]. intros H.
        apply IH in H. destruct H as (evs & Htr & Hst & Hce & Hinv & Hsl & Hret).
        cbn [trace] in Htr.
        exists ([Invoke; Warn (i + 1) (backoffDelay i); Sleep (backoffDelay i)] ++ evs).
        split; [rewrite Htr, <- !app_assoc; reflexivity|].
        cbn [app statuses consoleErrors invocations totalSleep].
        pose proof (backoffDelay_nonneg i).
        repeat split; try assumption; try lia.
      * unfold throw. intros [= <- <-]. exists [Invoke]. cbn.
        repeat split; first [reflexivity | lia | discriminate].
Qed.


Ltac stage H :=
  let evs := fresh "evs" in
  let Htr := fresh "Htr" in
  let Hst := fresh "Hst" in
  let Hce := fresh "Hce" in
  let Hinv := fresh "Hinv" in
  let Hsl := fresh "Hsl" in
  let Hret := fresh "Hret" in
  unfold withRetry in H; apply retryLoop_trace in H;
  destruct H as (evs & Htr & Hst & Hce & Hinv & Hsl & Hret);
  cbn [emit trace world] in Htr.

Ltac next_stage :=
  match goal with
  | |- context [withRetry ?f ?m ?s] =>
      let H := fresh "Hstage" in
      destruct (withRetry f m s) as [[?|?] ?] eqn:H; cbv beta iota
  end.

Ltac settle_pipeline n :=
  eexists; exists n;
  split; [rewrite <- ?app_assoc; reflexivity|];
  repeat split;
  first
    [ rewrite ?app_assoc; eexists; reflexivity
    | rewrite ?statuses_app, ?consoleErrors_app, ?invocations_app, ?totalSleep_app;
      repeat match goal with H : statuses _ = [] |- _ => rewrite H; clear H end;
      repeat match goal with H : consoleErrors _ = [] |- _ => rewrite H; clear H end;
      cbn [statuses consoleErrors invocations totalSleep app firstn ALL_STATUSES];
      first [reflexivity | lia] ].

Lemma pipeline_trace userInput attachments hasCallback st r st' :
  generateLessonPlan generateContent PROMPT_ARCHITECT PROMPT_ASSET_MANAGER
    PROMPT_SHELL PROMPT_CONTENT PROMPT_LOGIC userInput attachments hasCallback st
  = (r, st') ->
  exists evs n,
    trace st' = trace st ++ evs /\
    statuses evs = (if hasCallback then firstn n ALL_STATUSES else []) /\
    invocations evs <= 25 /\
    (0 <= totalSleep evs)%Z /\
    match r with
    | Returned _ =>
        n = 6 /\ consoleErrors evs = [] /\ 5 <= invocations evs
        /\ (6000 <= totalSleep evs)%Z
    | Threw x =>
        1 <= n <= 5 /\ consoleErrors evs = [x]
        /\ exists before, evs = before ++ [ConsoleError x]
    end.
Proof.
  unfold generateLessonPlan, tryCatch, bind, updateStatus, cooldown, tell, ret, throw.
  unfold DEFAULT_MAX_RETRIES.
  destruct hasCallback; cbv beta iota.
  all: do 5 (try next_stage).
  all: intros [= <- <-].
  all: repeat match goal with H : withRetry _ _ _ = _ |- _ => stage H end.
  all: repeat match goal with
              | H : forall v, Returned ?a = Returned v -> _ |- _ =>
                  specialize (H a eq_refl)
              | H : forall v, Threw _ = Returned v -> _ |- _ => clear H
              end.
  all: cbn [emit trace].
  all: repeat match goal with H : trace ?s = _ |- _ => rewrite H; clear H end.
  all: first [ solve [settle_pipeline 6] | solve [settle_pipeline 1]
             | solve [settle_pipeline 2] | solve [settle_pipeline 3]
             | solve [settle_pipeline 4] | solve [settle_pipeline 5] ].
Qed.

(** A run of the pipeline that returns has shown the six progress messages
    in the order of the stages, when the caller listens, and has logged no
    error; it has called the model at least five and at most twenty-five
    times and has slept for at least the four cooldowns of 1500 ms. *)
Theorem generateLessonPlan_progress
        (userInput : jsstring) (attachments : option (list Attachment))
        (hasCallback : bool) (st st' : State W) (html : jsstring) :
  generateLessonPlan generateContent PROMPT_ARCHITECT PROMPT_ASSET_MANAGER
    PROMPT_SHELL PROMPT_CONTENT PROMPT_LOGIC userInput attachments hasCallback st
  = (Returned html, st') ->
  exists evs,
    trace st' = trace st ++ evs /\
    statuses evs = (if hasCallback then ALL_STATUSES else []) /\
    consoleErrors evs = [] /\
    5 <= invocations evs <= 25 /\
    (6000 <= totalSleep evs)%Z.
Proof.
  intros Hrun. apply pipeline_trace in Hrun.
  destruct Hrun as (evs & n & Htr & Hst & Hmax & _ & -> & Hce & Hmin & Hsl).
  exists evs. split; [exact Htr|]. split; [exact Hst|]. split; [exact Hce|].
  split; [lia | exact Hsl].
Qed.

(** A run of the pipeline that throws has logged the error it throws, once
    and as the last thing it did; it has shown the progress messages of the
    stages it reached, the first of them at least, and never the message of
    the final build. *)
Theorem generateLessonPlan_logs_failure
        (userInput : jsstring) (attachments : option (list Attachment))
        (hasCallback : bool) (st st' : State W) (x : Thrown) :
  generateLessonPlan generateContent PROMPT_ARCHITECT PROMPT_ASSET_MANAGER
    PROMPT_SHELL PROMPT_CONTENT PROMPT_LOGIC userInput attachments hasCallback st
  = (Threw x, st') ->
  exists before n,
    trace st' = trace st ++ before ++ [ConsoleError x] /\
    consoleErrors before = [] /\
    1 <= n <= 5 /\
    statuses before = (if hasCallback then firstn n ALL_STATUSES else []) /\
    ~ In FinalizingBuild (statuses before).
Proof.
  intros Hrun. apply pipeline_trace in Hrun.
  destruct Hrun as (evs & n & Htr & Hst & _ & _ & Hn & Hce & before & ->).
  exists before, n. split; [exact Htr|].
  rewrite consoleErrors_app in Hce. rewrite statuses_app in Hst.
  cbn [consoleErrors statuses] in Hce, Hst. rewrite app_nil_r in Hst.
  assert (Hnone : consoleErrors before = []).
  { destruct (consoleErrors before) as [|y l]; [reflexivity|].
    destruct l; discriminate Hce. }
  split; [exact Hnone|]. split; [exact Hn|]. split; [exact Hst|].
  rewrite Hst. destruct hasCallback; [|intros []].
  destruct n as [|[|[|[|[|[|n]]]]]]; try lia; cbn;
    intros H; repeat (destruct H as [H | H]; [discriminate H|]); exact H.
Qed.

End PipelineTrace.

Lemma generateLessonPlan_progress_witness :
  exists html st',
    Samples.listenedRun = (GeminiService.Returned html, st') /\
    Observers.statuses (GeminiService.trace st') = Observers.ALL_STATUSES /\
    GeminiService.invocations (GeminiService.trace st') = 5.
Proof.
  assert (Hrun : exists html st',
             Samples.listenedRun = (GeminiService.Returned html, st') /\
             GeminiService.invocations (GeminiService.trace st') = 5).
  { eexists. eexists. split; vm_compute; reflexivity. }
  destruct Hrun as (html & st' & Hrun & Hinv). exists html, st'.
  split; [exact Hrun|]. split; [|exact Hinv].
  unfold Samples.listenedRun in Hrun.
  destruct (@generateLessonPlan_progress _ _ _ _ _ _ _ _ _ _ _ _ _ Hrun)
    as (evs & Htr & Hst & _).
  cbn [GeminiService.trace app] in Htr. rewrite Htr. exact Hst.
Defined.

Lemma generateLessonPlan_logs_failure_witness :
  exists st' before,
    Samples.failingRun = (GeminiService.Threw Fakes.serverError, st') /\
    GeminiService.trace st' = before ++ [GeminiService.ConsoleError Fakes.serverError] /\
    Observers.consoleErrors before = [].
Proof.
  assert (Hrun : exists st',
             Samples.failingRun = (GeminiService.Threw Fakes.serverError, st')).
  { eexists. vm_compute. reflexivity. }
  destruct Hrun as (st' & Hrun). exists st'.
  pose proof Hrun as Hrun'. unfold Samples.failingRun in Hrun'.
  destruct (@generateLessonPlan_logs_failure _ _ _ _ _ _ _ _ _ _ _ _ _ Hrun')
    as (before & n & Htr & Hce & _).
  exists before. split; [exact Hrun|]. split; [exact Htr | exact Hce].
Defined.

(** ** The generation handler *)

Section GenerationHandler.

Import GeminiService App Generation Observers.

Variable W : Type.
Variable generateContent : Request -> W -> Completion (option jsstring) * W.
Variables PROMPT_ARCHITECT PROMPT_ASSET_MANAGER PROMPT_SHELL
          PROMPT_CONTENT PROMPT_LOGIC : jsstring.
Variable statusText : StatusMessage -> jsstring.

Lemma added_app (st st' : State W) evs :
  trace st' = trace st ++ evs -> added st st' = evs.
Proof.
  intros H. unfold added. rewrite H, skipn_app, skipn_all, Nat.sub_diag.
  reflexivity.
Qed.

(** Showing progress messages changes the status line only. *)
Lemma showStatuses_keeps shown : forall app,
  currentView (showStatuses statusText shown app) = currentView app /\
  generatedHtml (showStatuses statusText shown app) = generatedHtml app /\
  isProcessing (showStatuses statusText shown app) = isProcessing app /\
  chatMessages (showStatuses statusText shown app) = chatMessages app.
Proof.
  unfold showStatuses. induction shown as [|s shown IH]; intros app.
  - cbn. repeat split.
  - cbn [fold_left]. destruct (IH (setStatusMessage (statusText s) app))
      as (H1 & H2 & H3 & H4).
    rewrite H1, H2, H3, H4. repeat split.
Qed.

(** The status line after some progress messages is the last of them. *)
Lemma showStatuses_last shown s app :
  statusMessage (showStatuses statusText (shown ++ [s]) app) = statusText s.
Proof. unfold showStatuses. rewrite fold_left_app. reflexivity. Qed.

(** When the pipeline returns, [handleGenerate] stores the artifact, opens
    the workspace with a chat of two messages, leaves the status line at the
    message of the final build and raises no alert. *)
Theorem handleGenerate_success
        (text : jsstring) (attachments : option (list Attachment))
        (app : AppState) (st st' : State W) (html : jsstring) :
  generateLessonPlan generateContent PROMPT_ARCHITECT PROMPT_ASSET_MANAGER
    PROMPT_SHELL PROMPT_CONTENT PROMPT_LOGIC text attachments true st
  = (Returned html, st') ->
  exists app',
    handleGenerate generateContent PROMPT_ARCHITECT PROMPT_ASSET_MANAGER
      PROMPT_SHELL PROMPT_CONTENT PROMPT_LOGIC statusText text attachments app st
    = (app', st', None) /\
    generatedHtml app' = html /\
    currentView app' = workspaceView /\
    isProcessing app' = false /\
    statusMessage app' = statusText FinalizingBuild /\
    chatMessages app'
    = [mkMessage user (draftMessage text attachments); mkMessage ai WELCOME_REPLY].
Proof.
  intros Hrun. pose proof Hrun as Htrace. apply pipeline_trace in Htrace.
  destruct Htrace as (evs & n & Htr & Hst & _ & _ & -> & _).
  unfold handleGenerate. rewrite Hrun. cbn [snd].
  rewrite (@added_app st st' evs Htr), Hst.
  eexists. split; [reflexivity|].
  unfold setIsProcessing, setCurrentView, setChatMessages, setGeneratedHtml.
  cbn [generatedHtml currentView isProcessing statusMessage chatMessages].
  repeat split.
Qed.

(** When the pipeline throws, [handleGenerate] keeps the artifact, the view
    and the chat as they were, stops processing, logs the error a second
    time and raises one of its two alerts; the status line stays at the
    message of the stage that failed. *)
Theorem handleGenerate_failure
        (text : jsstring) (attachments : option (list Attachment))
        (app : AppState) (st st' : State W) (x : Thrown) :
  generateLessonPlan generateContent PROMPT_ARCHITECT PROMPT_ASSET_MANAGER
    PROMPT_SHELL PROMPT_CONTENT PROMPT_LOGIC text attachments true st
  = (Threw x, st') ->
  exists app' stage,
    handleGenerate generateContent PROMPT_ARCHITECT PROMPT_ASSET_MANAGER
      PROMPT_SHELL PROMPT_CONTENT PROMPT_LOGIC statusText text attachments app st
    = (app', emit [ConsoleError x] st',
       Some (if isQuotaError x then RATE_LIMIT_ALERT else FAILURE_ALERT)) /\
    generatedHtml app' = generatedHtml app /\
    currentView app' = currentView app /\
    chatMessages app' = chatMessages app /\
    isProcessing app' = false /\
    statusMessage app' = statusText stage /\
    stage <> FinalizingBuild /\
    consoleErrors (added st (emit [ConsoleError x] st')) = [x; x].
Proof.
  intros Hrun. pose proof Hrun as Htrace. apply pipeline_trace in Htrace.
  destruct Htrace as (evs & n & Htr & Hst & _ & _ & Hn & Hce & _).
  unfold handleGenerate. rewrite Hrun. cbn [snd].
  rewrite (@added_app st st' evs Htr), Hst.
  assert (Hstage : exists shown stage,
             firstn n ALL_STATUSES = shown ++ [stage] /\ stage <> FinalizingBuild).
  { destruct n as [|[|[|[|[|[|n]]]]]]; try lia; cbn [firstn ALL_STATUSES].
    - exists [], DesigningBlueprint. split; [reflexivity | discriminate].
    - exists [DesigningBlueprint], MappingAssets. split; [reflexivity | discriminate].
    - exists [DesigningBlueprint; MappingAssets], ConstructingFramework.
      split; [reflexivity | discriminate].
    - exists [DesigningBlueprint; MappingAssets; ConstructingFramework], CodingCards.
      split; [reflexivity | discriminate].
    - exists [DesigningBlueprint; MappingAssets; ConstructingFramework; CodingCards],
             EmbeddingLogic.
      split; [reflexivity | discriminate]. }
  destruct Hstage as (shown & stage & -> & Hstage).
  eexists. exists stage. split; [reflexivity|].
  destruct (@showStatuses_keeps (shown ++ [stage])
              (setStatusMessage (str "Starting AI Pipeline...") (setIsProcessing true app)))
    as (H1 & H2 & _ & H4).
  pose proof (showStatuses_last shown stage
                (setStatusMessage (str "Starting AI Pipeline...")
                                  (setIsProcessing true app))) as H5.
  set (shownApp := showStatuses statusText (shown ++ [stage])
                     (setStatusMessage (str "Starting AI Pipeline...")
                                       (setIsProcessing true app))) in *.
  unfold setIsProcessing.
  cbn [generatedHtml currentView isProcessing statusMessage chatMessages] in *.
  split; [exact H2|]. split; [exact H1|]. split; [exact H4|].
  split; [reflexivity|]. split; [exact H5|]. split; [exact Hstage|].
  unfold setIsProcessing in *.
  assert (Htr' : trace (emit [ConsoleError x] st') = trace st ++ evs ++ [ConsoleError x]).
  { cbn [emit trace]. rewrite Htr. now rewrite <- app_assoc. }
  rewrite (@added_app st _ _ Htr'), consoleErrors_app, Hce. reflexivity.
Qed.

End GenerationHandler.

Lemma handleGenerate_success_witness :
  exists html st' app',
    Samples.listenedRun = (GeminiService.Returned html, st') /\
    Generation.handleGenerate (Fakes.staged Fakes.plainShell Fakes.sampleContent
                                            Fakes.sampleScript)
      Fakes.promptArchitect Fakes.promptAssets Fakes.promptShell Fakes.promptContent
      Fakes.promptLogic Samples.captions (str "Ordering coffee") None
      Fakes.workspace (GeminiService.mkState 0 [])
    = (app', st', None) /\
    App.generatedHtml app' = html /\
    App.statusMessage app' = str "Finalizing Export Build...".
Proof.
  assert (Hrun : exists html st',
             Samples.listenedRun = (GeminiService.Returned html, st')).
  { eexists. eexists. vm_compute. reflexivity. }
  destruct Hrun as (html & st' & Hrun). exists html, st'.
  pose proof Hrun as Hrun'. unfold Samples.listenedRun in Hrun'.
  destruct (@handleGenerate_success nat _ _ _ _ _ _ Samples.captions _ _
              Fakes.workspace _ _ _ Hrun')
    as (app' & Hhandle & Hhtml & _ & _ & Hstatus & _).
  exists app'. split; [exact Hrun|]. split; [exact Hhandle|].
  split; [exact Hhtml | exact Hstatus].
Defined.

Lemma handleGenerate_failure_witness :
  exists st' app',
    Samples.failingRun = (GeminiService.Threw Fakes.serverError, st') /\
    Generation.handleGenerate Fakes.failingService
      Fakes.promptArchitect Fakes.promptAssets Fakes.promptShell Fakes.promptContent
      Fakes.promptLogic Samples.captions (str "Ordering coffee") None
      Fakes.workspace (GeminiService.mkState 0 [])
    = (app', GeminiService.emit [GeminiService.ConsoleError Fakes.serverError] st',
       Some Generation.FAILURE_ALERT) /\
    App.generatedHtml app' = App.generatedHtml Fakes.workspace.
Proof.
  assert (Hrun : exists st',
             Samples.failingRun = (GeminiService.Threw Fakes.serverError, st')).
  { eexists. vm_compute. reflexivity. }
  destruct Hrun as (st' & Hrun). exists st'.
  pose proof Hrun as Hrun'. unfold Samples.failingRun in Hrun'.
  destruct (@handleGenerate_failure nat _ _ _ _ _ _ Samples.captions _ _
              Fakes.workspace _ _ _ Hrun')
    as (app' & stage & Hhandle & Hhtml & _).
  exists app'. split; [exact Hrun|]. split; [exact Hhandle | exact Hhtml].
Defined.

(** ** Keyframe extraction that hangs *)

Lemma extractKeyframes_outcomes_witness :
  InputForm.extractKeyframes Fakes.stalledSeek Fakes.samePicture
                             (Some Fakes.halfMinuteVideo)
  = (InputForm.Pending, [3%float; 15%float]) /\
  exists rest,
    InputForm.timestamps (InputForm.duration Fakes.halfMinuteVideo)
    = [3%float; 15%float] ++ rest.
Proof.
  assert (Hrun : InputForm.extractKeyframes Fakes.stalledSeek Fakes.samePicture
                                            (Some Fakes.halfMinuteVideo)
                 = (InputForm.Pending, [3%float; 15%float])) by reflexivity.
  split; [exact Hrun|].
  exact (proj1 (@extractKeyframes_outcomes Fakes.stalledSeek Fakes.samePicture
                  Fakes.halfMinuteVideo InputForm.Pending [3%float; 15%float] Hrun)).
Defined.
